(** * xv6-sifive: slab object allocator and process table

    A shallow embedding of [kmalloc]/[kfree] (the slab layer) and of
    [allocpid], [allocproc], [freeproc] and [scheduler] (proc.c), together
    with the properties the specification states about them.

    Pointers are addresses in [Z], [NULL] is [0].  C structures that the
    code reaches through pointers live in finite maps keyed by address.
    Fixed-width integers are [Z] with the wrap-around written out. *)

From stdpp Require Import gmap list strings.
From Stdlib Require Import ZArith Lia Sorted.

Local Open Scope Z_scope.

(** ** Machine integers and the macros of riscv.h / the allocator *)

Definition u8 (z : Z) : Z := z mod 2 ^ 8.
Definition u16 (z : Z) : Z := z mod 2 ^ 16.
Definition u32 (z : Z) : Z := z mod 2 ^ 32.
Definition u64 (z : Z) : Z := z mod 2 ^ 64.
(** [int]: two's complement, as the RISC-V target computes it. *)
Definition s32 (z : Z) : Z := (z + 2 ^ 31) mod 2 ^ 32 - 2 ^ 31.

Definition PGSIZE : Z := 4096.
Definition PGROUNDDOWN (a : Z) : Z := Z.land a (Z.lnot (PGSIZE - 1)).

Definition KMEM_OBJ_MIN_SIZE : Z := 32.
Definition KMEM_OBJ_MAX_SIZE : Z := 4048.
Definition KMEM_OBJ_MAX_COUNT : Z := PGSIZE / KMEM_OBJ_MIN_SIZE.
Definition TABLE_END : Z := 255.
(** sizeof(struct kmem_node* ) + 2 * sizeof(uint64) + 2 * sizeof(int8) *)
Definition KMEM_NODE_FIX : Z := 8 + 2 * 8 + 2 * 1.
Definition KMEM_TABLE_SIZE : Z := 17.

Definition _hash (n : Z) : Z := n mod KMEM_TABLE_SIZE.
Definition ROUNDUP16 (n : Z) : Z := Z.land (u64 (n + 15)) (Z.lnot 15).
Definition _calc_capa (roundup_size : Z) : Z :=
  (PGSIZE - ROUNDUP16 KMEM_NODE_FIX) / (roundup_size + 1).

(** ** Outcomes

    A call either returns a value and a new state, or it does not return:
    the kernel panics, the caller spins for ever (a spinlock that is never
    released, a walk over a cyclic list), or the code dereferences memory
    that no code of this model has set up ([Wild]). *)

Inductive fault : Type :=
| Panic (msg : string)
| Hang
| Wild.

Inductive outcome (S A : Type) : Type :=
| Ret (a : A) (s : S)
| Fail (f : fault).
Arguments Ret {S A} a s.
Arguments Fail {S A} f.

(** ** Allocator data *)

Record kmem_node : Type := mk_kmem_node {
  next : Z;            (* struct kmem_node *next *)
  obj_size : Z;        (* config.obj_size *)
  obj_addr : Z;        (* config.obj_addr *)
  avail : Z;           (* uint8: head of the free list *)
  cnt : Z;             (* uint8: live objects *)
  table : list Z       (* uint8 table[]: one index byte per object slot *)
}.

Record kmem_allocator : Type := mk_kmem_allocator {
  a_lock : bool;       (* struct spinlock lock *)
  a_obj_size : Z;      (* uint obj_size *)
  npages : Z;          (* uint16 *)
  nobjs : Z;           (* uint16 *)
  a_list : Z;          (* struct kmem_node *list *)
  a_next : Z           (* struct kmem_allocator *next *)
}.

(** The allocator's view of the kernel: the page allocator's free pages,
    the pages formatted as slab nodes, the allocator instances
    ([kmem_adam] and those living in slab objects), and [kmem_table]. *)
Record kstate : Type := mk_kstate {
  freepages : list Z;
  nodes : gmap Z kmem_node;
  allocs : gmap Z kmem_allocator;
  kmem_table : list Z;
  kmem_table_lock : bool
}.

Definition set_freepages (l : list Z) (k : kstate) : kstate :=
  mk_kstate l (nodes k) (allocs k) (kmem_table k) (kmem_table_lock k).
Definition set_nodes (m : gmap Z kmem_node) (k : kstate) : kstate :=
  mk_kstate (freepages k) m (allocs k) (kmem_table k) (kmem_table_lock k).
Definition set_allocs (m : gmap Z kmem_allocator) (k : kstate) : kstate :=
  mk_kstate (freepages k) (nodes k) m (kmem_table k) (kmem_table_lock k).
Definition set_kmem_table (t : list Z) (k : kstate) : kstate :=
  mk_kstate (freepages k) (nodes k) (allocs k) t (kmem_table_lock k).
Definition set_kmem_table_lock (b : bool) (k : kstate) : kstate :=
  mk_kstate (freepages k) (nodes k) (allocs k) (kmem_table k) b.

(** Modelled from the spec: the page allocator (pm.c is not part of the
    sources).  [allocate_page() -> page or none] hands out whole pages and
    [free_page(page)] takes one back; the free pages are kept as a list,
    whose length is the page count. *)
Definition allocpage (k : kstate) : Z * kstate :=
  match freepages k with
  | [] => (0, k)
  | p :: rest => (p, set_freepages rest k)
  end.

(** Modelled from the spec: [free_page(page)], see [allocpage]. *)
Definition freepage (p : Z) (k : kstate) : kstate :=
  set_freepages (p :: freepages k) k.

(** ** kmallocinit *)

Definition kmallocinit (adam sizeof_kmem_allocator : Z) (pages : list Z) : kstate :=
  let adam_alloc :=
    mk_kmem_allocator false (u32 (ROUNDUP16 sizeof_kmem_allocator)) 0 0 0 0 in
  let tbl := replicate (Z.to_nat KMEM_TABLE_SIZE) 0 in
  let hash := _hash (a_obj_size adam_alloc) in
  mk_kstate pages ∅ {[ adam := adam_alloc ]} (<[Z.to_nat hash := adam]> tbl) false.

(** ** get_allocator *)

(** The bucket walk [for (tmp = kmem_table[hash]; NULL != tmp; tmp = tmp->next)].
    A walk that takes more steps than there are allocator instances is
    going round a cycle. *)
Fixpoint search_allocator (fuel : nat) (al : gmap Z kmem_allocator)
    (tmp roundup_size : Z) : fault + Z :=
  match fuel with
  | O => inl Hang
  | S fuel' =>
    if tmp =? 0 then inr 0
    else match al !! tmp with
         | None => inl Wild
         | Some a =>
           if roundup_size =? a_obj_size a then inr tmp
           else search_allocator fuel' al (a_next a) roundup_size
         end
  end.

Definition get_allocator (_malloc_allocator : kstate -> outcome kstate Z)
    (raw_size : Z) (k : kstate) : outcome kstate Z :=
  let roundup_size := ROUNDUP16 raw_size in
  let hash := Z.to_nat (_hash roundup_size) in
  match kmem_table k !! hash with
  | None => Fail Wild
  | Some head =>
    match search_allocator (S (size (allocs k))) (allocs k) head roundup_size with
    | inl f => Fail f
    | inr tmp =>
      if negb (tmp =? 0) then Ret tmp k
      else if kmem_table_lock k then Fail Hang      (* acquire(&kmem_table_lock) *)
      else
        let k := set_kmem_table_lock true k in
        let recheck :=
          if head =? 0 then Some false
          else match allocs k !! head with
               | None => None
               | Some a => Some (a_obj_size a =? roundup_size)
               end in
        match recheck with
        | None => Fail Wild
        | Some true => Ret head (set_kmem_table_lock false k)
        | Some false =>
          match _malloc_allocator k with
          | Fail f => Fail f
          | Ret tmp k =>
            if tmp =? 0 then Ret 0 (set_kmem_table_lock false k)
            else
              match kmem_table k !! hash with
              | None => Fail Wild
              | Some head' =>
                let a := mk_kmem_allocator false (u32 roundup_size) 0 0 0 head' in
                Ret tmp
                  (set_kmem_table_lock false
                     (set_kmem_table (<[hash := tmp]> (kmem_table k))
                        (set_allocs (<[tmp := a]> (allocs k)) k)))
              end
          end
        end
    end
  end.

(** ** kmalloc *)

(** The free-list table of a fresh node: [0 -> 1 -> ... -> capa-1 -> TABLE_END]. *)
Definition init_table (capa : Z) : list Z :=
  let junk := replicate (Z.to_nat capa) 0 in
  let chained :=
    foldl (fun t i => <[Z.to_nat i := u8 (i + 1)]> t) junk (seqZ 0 (capa - 1)) in
  <[Z.to_nat (capa - 1) := TABLE_END]> chained.

Definition new_node (tmp size : Z) : kmem_node :=
  let roundup_size := u32 (ROUNDUP16 size) in
  let capa := u8 (_calc_capa roundup_size) in
  mk_kmem_node 0 roundup_size (u64 (tmp + ROUNDUP16 (KMEM_NODE_FIX + capa)))
               0 0 (init_table capa).

(** The critical section of kmalloc, entered with the allocator found. *)
Definition kmalloc_locked (alloc size : Z) (k : kstate) : outcome kstate Z :=
  match allocs k !! alloc with
  | None => Fail Wild
  | Some al =>
    if a_lock al then Fail Hang                     (* acquire(&(alloc->lock)) *)
    else
      let fresh :=
        if a_list al =? 0 then
          let '(tmp, k') := allocpage k in
          if tmp =? 0 then None
          else Some (tmp, u16 (npages al + 1),
                     set_nodes (<[tmp := new_node tmp size]> (nodes k')) k')
        else Some (a_list al, npages al, k) in
      match fresh with
      | None => Ret 0 k                             (* release; return NULL *)
      | Some (lst, np, k) =>
        let nobjs' := u16 (nobjs al + 1) in
        match nodes k !! lst with
        | None => Fail Wild
        | Some node =>
          let ret := u64 (obj_addr node + avail node * obj_size node) in
          match table node !! Z.to_nat (avail node) with
          | None => Fail Wild
          | Some avail' =>
            let node' := mk_kmem_node (next node) (obj_size node) (obj_addr node)
                           avail' (u8 (cnt node + 1)) (table node) in
            let lst' := if TABLE_END =? avail' then next node else lst in
            let al' := mk_kmem_allocator false (a_obj_size al) np nobjs'
                         lst' (a_next al) in
            Ret ret (set_allocs (<[alloc := al']> (allocs k))
                       (set_nodes (<[lst := node']> (nodes k)) k))
          end
        end
      end
  end.

Definition kmalloc_with (get_alloc : Z -> kstate -> outcome kstate Z)
    (size : Z) (k : kstate) : outcome kstate Z :=
  let clamped := KMEM_OBJ_MIN_SIZE >? size in
  let size := if clamped then KMEM_OBJ_MIN_SIZE else size in
  if negb clamped && (KMEM_OBJ_MAX_SIZE <? size) then Ret 0 k
  else
    match get_alloc size k with
    | Fail f => Fail f
    | Ret alloc k =>
      if alloc =? 0 then Ret 0 k
      else kmalloc_locked alloc size k
    end.

Section Kmem.

(** [sizeof(struct kmem_allocator)]: it depends on [struct spinlock], whose
    declaration is not part of the sources. *)
Variable sizeof_kmem_allocator : Z.

(** [kmalloc] and [get_allocator] call each other: creating an allocator
    instance allocates it with [_malloc_allocator()], a [kmalloc] of
    [sizeof(struct kmem_allocator)].  [d] bounds the nesting; see
    [kmalloc_depth_enough]. *)
Fixpoint kmalloc_depth (d : nat) (size : Z) (k : kstate) : outcome kstate Z :=
  match d with
  | O => Fail Hang
  | S d' =>
    kmalloc_with (get_allocator (kmalloc_depth d' sizeof_kmem_allocator)) size k
  end.

Definition _malloc_allocator : kstate -> outcome kstate Z :=
  kmalloc_depth 1 sizeof_kmem_allocator.

Definition kmalloc (size : Z) (k : kstate) : outcome kstate Z :=
  kmalloc_with (get_allocator _malloc_allocator) size k.

(** ** kfree *)

(** The scan [while (NULL != tmp && node != tmp)] of kfree; the result is
    where [pprev] points: [None] for [&(alloc->list)], [Some q] for
    [&(q->next)]. *)
Fixpoint find_pprev (fuel : nat) (nd : gmap Z kmem_node) (pprev : option Z)
    (tmp node : Z) : fault + option Z :=
  match fuel with
  | O => inl Hang
  | S fuel' =>
    if tmp =? 0 then inl (Panic "kfree(): linked list broken!")
    else if tmp =? node then inr pprev
    else match nd !! tmp with
         | None => inl Wild
         | Some t => find_pprev fuel' nd (Some tmp) (next t) node
         end
  end.

Definition set_next (n : Z) (t : kmem_node) : kmem_node :=
  mk_kmem_node n (obj_size t) (obj_addr t) (avail t) (cnt t) (table t).

(** The critical section of kfree. *)
Definition kfree_locked (alloc node avail_ix : Z) (k : kstate) : outcome kstate unit :=
  match allocs k !! alloc, nodes k !! node with
  | Some al, Some nd =>
    if a_lock al then Fail Hang                     (* acquire(&(alloc->lock)) *)
    else
      let nobjs' := u16 (nobjs al - 1) in
      (* pickup: a node that was full goes back on the list *)
      let '(nxt, lst) :=
        if TABLE_END =? avail nd then (a_list al, node)
        else (next nd, a_list al) in
      if negb (Z.to_nat avail_ix <? length (table nd))%nat then Fail Wild
      else
        let nd' := mk_kmem_node nxt (obj_size nd) (obj_addr nd) avail_ix
                     (u8 (cnt nd - 1))
                     (<[Z.to_nat avail_ix := avail nd]> (table nd)) in
        let k := set_nodes (<[node := nd']> (nodes k)) k in
        if 0 =? cnt nd' then
          (* drop: unlink the node and give its page back *)
          match find_pprev (S (size (nodes k))) (nodes k) None lst node with
          | inl f => Fail f
          | inr pprev =>
            let '(lst', nds) :=
              match pprev with
              | None => (next nd', nodes k)
              | Some q => (lst, alter (set_next (next nd')) q (nodes k))
              end in
            let k := freepage node (set_nodes (delete node nds) k) in
            let al' := mk_kmem_allocator false (a_obj_size al)
                         (u16 (npages al - 1)) nobjs' lst' (a_next al) in
            Ret tt (set_allocs (<[alloc := al']> (allocs k)) k)
          end
        else
          let al' := mk_kmem_allocator false (a_obj_size al) (npages al)
                       nobjs' lst (a_next al) in
          Ret tt (set_allocs (<[alloc := al']> (allocs k)) k)
  | _, _ => Fail Wild
  end.

Definition kfree (addr : Z) (k : kstate) : outcome kstate unit :=
  let node := PGROUNDDOWN addr in
  match nodes k !! node with
  | None => Fail Wild
  | Some nd =>
    if obj_size nd =? 0 then Fail Wild
    else
      let avail_ix := u8 (u64 (addr - obj_addr nd) / obj_size nd) in
      match get_allocator _malloc_allocator (obj_size nd) k with
      | Fail f => Fail f
      | Ret alloc k => kfree_locked alloc node avail_ix k
      end
  end.

End Kmem.

(** ** Process table (proc.c) *)

Inductive procstate : Type := UNUSED | SLEEPING | RUNNABLE | RUNNING | ZOMBIE.

Global Instance procstate_eq_dec : EqDecision procstate.
Proof. solve_decision. Defined.

(** [struct context]: [ra], [sp] and the callee-saved registers. *)
Record context_t : Type := mk_context { ra : Z; sp : Z; sregs : list Z }.

Record tms : Type := mk_tms { utime : Z; stime : Z; cutime : Z; cstime : Z }.

(** [struct proc], with the fields proc.c uses.  [parent] is a reference to
    another slot of the table; the other pointers are addresses. *)
Record proc_t : Type := mk_proc {
  lock : bool;
  state : procstate;
  pid : Z;
  killed : Z;
  filelimit : Z;
  robust_list : Z;
  clear_child_tid : Z;
  set_child_tid : Z;
  vma : Z;
  trapframe : Z;
  kstack : Z;
  pagetable : Z;
  ofile : Z;
  sz : Z;
  parent : option nat;
  name : list Z;
  chan : Z;
  xstate : Z;
  context : context_t;
  proc_tms : tms;
  sig_act : Z;
  sig_frame : Z;
  sig_pending : list Z;
  tmask : Z
}.

Definition set_lock (v : bool) (p : proc_t) : proc_t :=
  mk_proc v (state p) (pid p) (killed p) (filelimit p) (robust_list p) (clear_child_tid p) (set_child_tid p) (vma p) (trapframe p) (kstack p) (pagetable p) (ofile p) (sz p) (parent p) (name p) (chan p) (xstate p) (context p) (proc_tms p) (sig_act p) (sig_frame p) (sig_pending p) (tmask p).
Definition set_state (v : procstate) (p : proc_t) : proc_t :=
  mk_proc (lock p) v (pid p) (killed p) (filelimit p) (robust_list p) (clear_child_tid p) (set_child_tid p) (vma p) (trapframe p) (kstack p) (pagetable p) (ofile p) (sz p) (parent p) (name p) (chan p) (xstate p) (context p) (proc_tms p) (sig_act p) (sig_frame p) (sig_pending p) (tmask p).
Definition set_pid (v : Z) (p : proc_t) : proc_t :=
  mk_proc (lock p) (state p) v (killed p) (filelimit p) (robust_list p) (clear_child_tid p) (set_child_tid p) (vma p) (trapframe p) (kstack p) (pagetable p) (ofile p) (sz p) (parent p) (name p) (chan p) (xstate p) (context p) (proc_tms p) (sig_act p) (sig_frame p) (sig_pending p) (tmask p).
Definition set_killed (v : Z) (p : proc_t) : proc_t :=
  mk_proc (lock p) (state p) (pid p) v (filelimit p) (robust_list p) (clear_child_tid p) (set_child_tid p) (vma p) (trapframe p) (kstack p) (pagetable p) (ofile p) (sz p) (parent p) (name p) (chan p) (xstate p) (context p) (proc_tms p) (sig_act p) (sig_frame p) (sig_pending p) (tmask p).
Definition set_filelimit (v : Z) (p : proc_t) : proc_t :=
  mk_proc (lock p) (state p) (pid p) (killed p) v (robust_list p) (clear_child_tid p) (set_child_tid p) (vma p) (trapframe p) (kstack p) (pagetable p) (ofile p) (sz p) (parent p) (name p) (chan p) (xstate p) (context p) (proc_tms p) (sig_act p) (sig_frame p) (sig_pending p) (tmask p).
Definition set_robust_list (v : Z) (p : proc_t) : proc_t :=
  mk_proc (lock p) (state p) (pid p) (killed p) (filelimit p) v (clear_child_tid p) (set_child_tid p) (vma p) (trapframe p) (kstack p) (pagetable p) (ofile p) (sz p) (parent p) (name p) (chan p) (xstate p) (context p) (proc_tms p) (sig_act p) (sig_frame p) (sig_pending p) (tmask p).
Definition set_clear_child_tid (v : Z) (p : proc_t) : proc_t :=
  mk_proc (lock p) (state p) (pid p) (killed p) (filelimit p) (robust_list p) v (set_child_tid p) (vma p) (trapframe p) (kstack p) (pagetable p) (ofile p) (sz p) (parent p) (name p) (chan p) (xstate p) (context p) (proc_tms p) (sig_act p) (sig_frame p) (sig_pending p) (tmask p).
Definition set_set_child_tid (v : Z) (p : proc_t) : proc_t :=
  mk_proc (lock p) (state p) (pid p) (killed p) (filelimit p) (robust_list p) (clear_child_tid p) v (vma p) (trapframe p) (kstack p) (pagetable p) (ofile p) (sz p) (parent p) (name p) (chan p) (xstate p) (context p) (proc_tms p) (sig_act p) (sig_frame p) (sig_pending p) (tmask p).
Definition set_vma (v : Z) (p : proc_t) : proc_t :=
  mk_proc (lock p) (state p) (pid p) (killed p) (filelimit p) (robust_list p) (clear_child_tid p) (set_child_tid p) v (trapframe p) (kstack p) (pagetable p) (ofile p) (sz p) (parent p) (name p) (chan p) (xstate p) (context p) (proc_tms p) (sig_act p) (sig_frame p) (sig_pending p) (tmask p).
Definition set_trapframe (v : Z) (p : proc_t) : proc_t :=
  mk_proc (lock p) (state p) (pid p) (killed p) (filelimit p) (robust_list p) (clear_child_tid p) (set_child_tid p) (vma p) v (kstack p) (pagetable p) (ofile p) (sz p) (parent p) (name p) (chan p) (xstate p) (context p) (proc_tms p) (sig_act p) (sig_frame p) (sig_pending p) (tmask p).
Definition set_kstack (v : Z) (p : proc_t) : proc_t :=
  mk_proc (lock p) (state p) (pid p) (killed p) (filelimit p) (robust_list p) (clear_child_tid p) (set_child_tid p) (vma p) (trapframe p) v (pagetable p) (ofile p) (sz p) (parent p) (name p) (chan p) (xstate p) (context p) (proc_tms p) (sig_act p) (sig_frame p) (sig_pending p) (tmask p).
Definition set_pagetable (v : Z) (p : proc_t) : proc_t :=
  mk_proc (lock p) (state p) (pid p) (killed p) (filelimit p) (robust_list p) (clear_child_tid p) (set_child_tid p) (vma p) (trapframe p) (kstack p) v (ofile p) (sz p) (parent p) (name p) (chan p) (xstate p) (context p) (proc_tms p) (sig_act p) (sig_frame p) (sig_pending p) (tmask p).
Definition set_ofile (v : Z) (p : proc_t) : proc_t :=
  mk_proc (lock p) (state p) (pid p) (killed p) (filelimit p) (robust_list p) (clear_child_tid p) (set_child_tid p) (vma p) (trapframe p) (kstack p) (pagetable p) v (sz p) (parent p) (name p) (chan p) (xstate p) (context p) (proc_tms p) (sig_act p) (sig_frame p) (sig_pending p) (tmask p).
Definition set_sz (v : Z) (p : proc_t) : proc_t :=
  mk_proc (lock p) (state p) (pid p) (killed p) (filelimit p) (robust_list p) (clear_child_tid p) (set_child_tid p) (vma p) (trapframe p) (kstack p) (pagetable p) (ofile p) v (parent p) (name p) (chan p) (xstate p) (context p) (proc_tms p) (sig_act p) (sig_frame p) (sig_pending p) (tmask p).
Definition set_parent (v : option nat) (p : proc_t) : proc_t :=
  mk_proc (lock p) (state p) (pid p) (killed p) (filelimit p) (robust_list p) (clear_child_tid p) (set_child_tid p) (vma p) (trapframe p) (kstack p) (pagetable p) (ofile p) (sz p) v (name p) (chan p) (xstate p) (context p) (proc_tms p) (sig_act p) (sig_frame p) (sig_pending p) (tmask p).
Definition set_name (v : list Z) (p : proc_t) : proc_t :=
  mk_proc (lock p) (state p) (pid p) (killed p) (filelimit p) (robust_list p) (clear_child_tid p) (set_child_tid p) (vma p) (trapframe p) (kstack p) (pagetable p) (ofile p) (sz p) (parent p) v (chan p) (xstate p) (context p) (proc_tms p) (sig_act p) (sig_frame p) (sig_pending p) (tmask p).
Definition set_chan (v : Z) (p : proc_t) : proc_t :=
  mk_proc (lock p) (state p) (pid p) (killed p) (filelimit p) (robust_list p) (clear_child_tid p) (set_child_tid p) (vma p) (trapframe p) (kstack p) (pagetable p) (ofile p) (sz p) (parent p) (name p) v (xstate p) (context p) (proc_tms p) (sig_act p) (sig_frame p) (sig_pending p) (tmask p).
Definition set_xstate (v : Z) (p : proc_t) : proc_t :=
  mk_proc (lock p) (state p) (pid p) (killed p) (filelimit p) (robust_list p) (clear_child_tid p) (set_child_tid p) (vma p) (trapframe p) (kstack p) (pagetable p) (ofile p) (sz p) (parent p) (name p) (chan p) v (context p) (proc_tms p) (sig_act p) (sig_frame p) (sig_pending p) (tmask p).
Definition set_context (v : context_t) (p : proc_t) : proc_t :=
  mk_proc (lock p) (state p) (pid p) (killed p) (filelimit p) (robust_list p) (clear_child_tid p) (set_child_tid p) (vma p) (trapframe p) (kstack p) (pagetable p) (ofile p) (sz p) (parent p) (name p) (chan p) (xstate p) v (proc_tms p) (sig_act p) (sig_frame p) (sig_pending p) (tmask p).
Definition set_proc_tms (v : tms) (p : proc_t) : proc_t :=
  mk_proc (lock p) (state p) (pid p) (killed p) (filelimit p) (robust_list p) (clear_child_tid p) (set_child_tid p) (vma p) (trapframe p) (kstack p) (pagetable p) (ofile p) (sz p) (parent p) (name p) (chan p) (xstate p) (context p) v (sig_act p) (sig_frame p) (sig_pending p) (tmask p).
Definition set_sig_act (v : Z) (p : proc_t) : proc_t :=
  mk_proc (lock p) (state p) (pid p) (killed p) (filelimit p) (robust_list p) (clear_child_tid p) (set_child_tid p) (vma p) (trapframe p) (kstack p) (pagetable p) (ofile p) (sz p) (parent p) (name p) (chan p) (xstate p) (context p) (proc_tms p) v (sig_frame p) (sig_pending p) (tmask p).
Definition set_sig_frame (v : Z) (p : proc_t) : proc_t :=
  mk_proc (lock p) (state p) (pid p) (killed p) (filelimit p) (robust_list p) (clear_child_tid p) (set_child_tid p) (vma p) (trapframe p) (kstack p) (pagetable p) (ofile p) (sz p) (parent p) (name p) (chan p) (xstate p) (context p) (proc_tms p) (sig_act p) v (sig_pending p) (tmask p).
Definition set_sig_pending (v : list Z) (p : proc_t) : proc_t :=
  mk_proc (lock p) (state p) (pid p) (killed p) (filelimit p) (robust_list p) (clear_child_tid p) (set_child_tid p) (vma p) (trapframe p) (kstack p) (pagetable p) (ofile p) (sz p) (parent p) (name p) (chan p) (xstate p) (context p) (proc_tms p) (sig_act p) (sig_frame p) v (tmask p).
Definition set_tmask (v : Z) (p : proc_t) : proc_t :=
  mk_proc (lock p) (state p) (pid p) (killed p) (filelimit p) (robust_list p) (clear_child_tid p) (set_child_tid p) (vma p) (trapframe p) (kstack p) (pagetable p) (ofile p) (sz p) (parent p) (name p) (chan p) (xstate p) (context p) (proc_tms p) (sig_act p) (sig_frame p) (sig_pending p) v.

(** [c = mycpu()]: the executing hart. *)
Record cpu_t : Type := mk_cpu {
  c_proc : option nat;      (* c->proc *)
  satp : Z;                 (* address-translation root *)
  intr_enabled : bool
}.

Record kernel : Type := mk_kernel {
  km : kstate;              (* page allocator and slab layer *)
  mem : Z -> Z;             (* bytes of object payloads and raw pages *)
  proc : list proc_t;       (* struct proc proc[NPROC] *)
  nextpid : Z;              (* int nextpid *)
  pid_lock : bool;
  runproc : option nat;     (* struct proc *runproc *)
  cpu : cpu_t
}.

Definition set_km (v : kstate) (w : kernel) : kernel :=
  mk_kernel v (mem w) (proc w) (nextpid w) (pid_lock w) (runproc w) (cpu w).
Definition set_mem (v : Z -> Z) (w : kernel) : kernel :=
  mk_kernel (km w) v (proc w) (nextpid w) (pid_lock w) (runproc w) (cpu w).
Definition set_proc (v : list proc_t) (w : kernel) : kernel :=
  mk_kernel (km w) (mem w) v (nextpid w) (pid_lock w) (runproc w) (cpu w).
Definition set_nextpid (v : Z) (w : kernel) : kernel :=
  mk_kernel (km w) (mem w) (proc w) v (pid_lock w) (runproc w) (cpu w).
Definition set_pid_lock (v : bool) (w : kernel) : kernel :=
  mk_kernel (km w) (mem w) (proc w) (nextpid w) v (runproc w) (cpu w).
Definition set_runproc (v : option nat) (w : kernel) : kernel :=
  mk_kernel (km w) (mem w) (proc w) (nextpid w) (pid_lock w) v (cpu w).
Definition set_cpu (v : cpu_t) (w : kernel) : kernel :=
  mk_kernel (km w) (mem w) (proc w) (nextpid w) (pid_lock w) (runproc w) v.

(** *** A state-and-fault monad for the kernel paths *)

Definition M (A : Type) : Type := kernel -> outcome kernel A.

Global Instance M_ret : MRet M := fun A a w => Ret a w.
Global Instance M_bind : MBind M := fun A B f m w =>
  match m w with
  | Ret a w' => f a w'
  | Fail e => Fail e
  end.

Definition fail {A} (f : fault) : M A := fun _ => Fail f.
Definition get : M kernel := fun w => Ret w w.
Definition modify (f : kernel -> kernel) : M unit := fun w => Ret tt (f w).

(** Run an allocator-level call on the allocator part of the kernel. *)
Definition lift {A} (f : kstate -> outcome kstate A) : M A := fun w =>
  match f (km w) with
  | Ret a k => Ret a (set_km k w)
  | Fail e => Fail e
  end.
Definition call (f : kstate -> kstate) : M unit :=
  modify (fun w => set_km (f (km w)) w).
Definition call_ret {A} (f : kstate -> A * kstate) : M A := fun w =>
  let '(a, k) := f (km w) in Ret a (set_km k w).

(** [p = &proc[i]] written back to the table. *)
Definition store_proc (i : nat) (p : proc_t) : M unit :=
  modify (fun w => set_proc (<[i := p]> (proc w)) w).

(** Bytes. *)
Definition memset (m : Z -> Z) (dst c n : Z) : Z -> Z :=
  fun x => if (dst <=? x) && (x <? dst + n) then u8 c else m x.
Definition store64 (m : Z -> Z) (a v : Z) : Z -> Z :=
  fun x => if (a <=? x) && (x <? a + 8) then u8 (Z.shiftr v (8 * (x - a))) else m x.

(** ** allocpid *)

Definition allocpid : M Z :=
  w ← get;
  if pid_lock w then fail Hang                      (* acquire(&pid_lock) *)
  else
    let pid := nextpid w in
    modify (set_nextpid (s32 (nextpid w + 1)));;
    mret pid.

(** ** procinit: only the lock is initialised; [nextpid] starts at 1. *)
Definition boot_kernel (k : kstate) (m : Z -> Z) (table : list proc_t) : kernel :=
  mk_kernel k m table 1 false None (mk_cpu None 0 false).

Section Proc.

(** Constants and collaborators whose definitions are outside the sources
    (param.h, vm.c, vma.c, signal handling, swtch.S). *)
Variable sizeof_kmem_allocator : Z.
Variable NOFILE : Z.
Variable SIGSET_LEN : nat.
Variable forkret : Z.                              (* address of forkret *)
Variable kernel_pagetable : Z.
Variable MAKE_SATP : Z -> Z.
Variable kvmcreate : kstate -> Z * kstate.
Variable vma_list_init : Z -> kstate -> Z * kstate.
Variable freewalk : Z -> kstate -> kstate.
Variable uvmfree : proc_t -> kstate -> kstate.
Variable sigaction_free : Z -> kstate -> kstate.
Variable sigframefree : Z -> kstate -> kstate.

Definition when (b : bool) (m : M unit) : M unit := if b then m else mret tt.
Definition nonnull (p : Z) : bool := negb (p =? 0).

(** ** freeproc: [p->lock] must be held. *)
Definition freeproc (p : proc_t) : M proc_t :=
  when (nonnull (trapframe p)) (lift (kfree sizeof_kmem_allocator (trapframe p)));;
  let p := set_trapframe 0 p in
  when (nonnull (ofile p)) (lift (kfree sizeof_kmem_allocator (ofile p)));;
  let p := set_ofile 0 p in
  when (nonnull (kstack p)) (call (freepage (kstack p)));;
  when (nonnull (pagetable p)) (call (uvmfree p));;  (* proc_freepagetable *)
  let p := set_pagetable 0 p in
  let p := set_vma 0 p in
  let p := set_robust_list 0 p in
  let p := set_sz 0 p in
  let p := set_pid 0 p in
  let p := set_parent None p in
  let p := set_name (<[0%nat := 0]> (name p)) p in
  let p := set_chan 0 p in
  let p := set_killed 0 p in
  let p := set_xstate 0 p in
  let p := set_state UNUSED p in
  call (sigaction_free (sig_act p));;
  call (sigframefree (sig_frame p));;
  mret p.

(** ** proc_pagetable: the page table, or [NULL]; [p] with its new fields. *)
Definition proc_pagetable (p : proc_t) : M (Z * proc_t) :=
  pt ← call_ret kvmcreate;
  if pt =? 0 then mret (0, p)
  else
    let p := set_pagetable pt p in
    v ← call_ret (vma_list_init pt);
    if v =? 0 then
      let p := set_pagetable 0 p in
      call (freewalk pt);;
      mret (0, p)
    else mret (pt, set_vma v p).

(** The scan [for (p = proc; p < &proc[NPROC]; p++)]: every slot visited is
    locked and, unless it is UNUSED, unlocked again. *)
Fixpoint find_unused (ps : list proc_t) (i : nat) : fault + option (nat * proc_t) :=
  match ps with
  | [] => inr None
  | p :: rest =>
    if lock p then inl Hang                         (* acquire(&p->lock) *)
    else if decide (state p = UNUSED) then inr (Some (i, p))
    else find_unused rest (S i)
  end.

(** The assignments allocproc makes to the slot it found, before it asks
    for the trapframe page ... *)
Definition claimed (pid : Z) (p : proc_t) : proc_t :=
  let p := set_pid pid p in
  let p := set_killed 0 p in
  let p := set_filelimit NOFILE p in
  let p := set_robust_list 0 p in
  let p := set_clear_child_tid 0 p in
  let p := set_set_child_tid 0 p in
  set_vma 0 p.

(** ... and after the open-file table [o] has been allocated. *)
Definition finished (o : Z) (p : proc_t) : proc_t :=
  let p := set_ofile o p in
  let p := set_context
    (mk_context forkret (u64 (kstack p + PGSIZE))
                (replicate (length (sregs (context p))) 0)) p in
  let p := set_proc_tms (mk_tms 0 0 1 1) p in
  let p := set_sig_act 0 p in
  let p := set_sig_frame 0 p in
  let p := set_sig_pending
    (foldl (fun v j => <[j := 0]> v) (sig_pending p) (seq 0 SIGSET_LEN)) p in
  set_killed 0 p.

(** The stores into the new open-file table: the loop over the [NOFILE]
    slots, then [memset(p->ofile, 0, PGSIZE)]. *)
Definition zero_ofile (o : Z) (m : Z -> Z) : Z -> Z :=
  let m := foldl (fun m fd => store64 m (o + 8 * fd) 0) m (seqZ 0 NOFILE) in
  memset m o 0 PGSIZE.

(** The exit taken when proc_pagetable fails. *)
Definition unwind (i : nat) (p : proc_t) : M (option nat) :=
  p ← freeproc p;
  store_proc i (set_lock false p);;                 (* release(&p->lock) *)
  mret None.

(** ** allocproc: the slot found, returned with its lock held, or [NULL]. *)
Definition allocproc : M (option nat) :=
  w ← get;
  match find_unused (proc w) 0 with
  | inl f => fail f
  | inr None => mret None
  | inr (Some (i, p)) =>
    let p := set_lock true p in
    store_proc i p;;
    pid ← allocpid;
    let p := claimed pid p in
    tf ← call_ret allocpage;
    let p := set_trapframe tf p in
    if tf =? 0 then
      store_proc i (set_lock false p);;             (* release(&p->lock) *)
      mret None
    else
      ks ← call_ret allocpage;
      let p := set_kstack ks p in
      '(pt, p) ← proc_pagetable p;
      if pt =? 0 then unwind i p
      else
        o ← lift (kmalloc sizeof_kmem_allocator (u32 (NOFILE * 8)));
        if o =? 0 then fail (Panic "proc ofile init")
        else
          modify (fun w => set_mem (zero_ofile o (mem w)) w);;
          store_proc i (finished o p);;
          mret (Some i)
  end.

(** ** scheduler *)

Definition set_c_proc (v : option nat) (c : cpu_t) : cpu_t :=
  mk_cpu v (satp c) (intr_enabled c).
Definition w_satp (v : Z) : M unit :=
  modify (fun w => set_cpu (mk_cpu (c_proc (cpu w)) v (intr_enabled (cpu w))) w).
Definition intr_on : M unit :=
  modify (fun w => set_cpu (mk_cpu (c_proc (cpu w)) (satp (cpu w)) true) w).

(** How one pass through the loop body leaves the scheduler's own code:
    at [swtch], into process [p]; at the end of the body without a switch;
    or through [wfi]. *)
Inductive sched_step : Type :=
| SwitchTo (p : nat)
| NoSwitch (p : nat)
| Idle.

(** From the head of the loop body to [swtch] (or to the end of the body). *)
Definition scheduler_enter : M sched_step :=
  w ← get;
  let staged := runproc w in
  modify (set_runproc None);;
  match staged with
  | Some i =>
    match proc w !! i with
    | None => fail Wild
    | Some p =>
      if lock p then fail Hang                      (* acquire(&p->lock) *)
      else
        let p := set_lock true p in
        if decide (state p = RUNNABLE) then
          let p := set_state RUNNING p in
          store_proc i p;;
          modify (fun w => set_cpu (set_c_proc (Some i) (cpu w)) w);;
          w_satp (MAKE_SATP (pagetable p));;        (* and sfence_vma() *)
          mret (SwitchTo i)
        else
          store_proc i (set_lock false p);;         (* release(&p->lock) *)
          mret (NoSwitch i)
    end
  | None =>
    intr_on;;                                       (* and wfi *)
    mret Idle
  end.

(** From the return of [swtch] to the end of the loop body. *)
Definition scheduler_resume (i : nat) : M unit :=
  w_satp (MAKE_SATP kernel_pagetable);;
  modify (fun w => set_cpu (set_c_proc None (cpu w)) w);;
  modify (fun w => set_proc (alter (set_lock false) i (proc w)) w).

(** [swtch i]: everything that happens between the switch into process [i]
    and the process switching back.  [others]: what the other harts do
    between two passes. *)
Variable swtch : nat -> M unit.
Variable others : M unit.

Definition scheduler_body : M sched_step :=
  s ← scheduler_enter;
  match s with
  | SwitchTo i => swtch i;; scheduler_resume i;; mret s
  | _ => mret s
  end.

(** [n] passes through [while(1)], after [c->proc = 0]. *)
Fixpoint scheduler_loop (n : nat) : M (list sched_step) :=
  match n with
  | O => mret []
  | S n' =>
    s ← scheduler_body;
    others;;
    rest ← scheduler_loop n';
    mret (s :: rest)
  end.

Definition scheduler (n : nat) : M (list sched_step) :=
  modify (fun w => set_cpu (set_c_proc None (cpu w)) w);;
  scheduler_loop n.

(** What a caller such as userinit does with the slot it was given: it
    marks the process RUNNABLE and releases the lock. *)
Definition publish (i : nat) : M unit :=
  modify (fun w =>
    set_proc (alter (fun p => set_lock false (set_state RUNNABLE p)) i (proc w)) w).

Definition allocproc_publish : M (option nat) :=
  r ← allocproc;
  match r with
  | Some i => publish i;; mret r
  | None => mret None
  end.

Fixpoint allocproc_publish_n (n : nat) : M (list (option nat)) :=
  match n with
  | O => mret []
  | S n' => r ← allocproc_publish; rest ← allocproc_publish_n n'; mret (r :: rest)
  end.

(** The caller only releases the lock. *)
Definition release (i : nat) : M unit :=
  modify (fun w => set_proc (alter (set_lock false) i (proc w)) w).

End Proc.

(** [k] calls of allocpid in a row. *)
Fixpoint allocpid_n (k : nat) : M (list Z) :=
  match k with
  | O => mret []
  | S k' => pid ← allocpid; rest ← allocpid_n k'; mret (pid :: rest)
  end.

(** Reading an outcome. *)
Definition ret_val {S A} (o : outcome S A) : option A :=
  match o with Ret a _ => Some a | Fail _ => None end.
Definition ret_state {S A} (o : outcome S A) : option S :=
  match o with Ret _ s => Some s | Fail _ => None end.
Definition ret_fault {S A} (o : outcome S A) : option fault :=
  match o with Ret _ _ => None | Fail f => Some f end.

(** ** A small machine for the worked examples

    Three process slots, twelve pages of memory starting at 0x80000000,
    [kmem_adam] below them, and stand-ins for the collaborators: the address
    space takes one page for its root, the VMA list costs nothing, signal
    state is not tracked. *)

Definition example_proc : proc_t :=
  mk_proc false UNUSED 0 0 0 0 0 0 0 0 0 0 0 0 None (replicate 16 0) 0 0
          (mk_context 0 0 (replicate 12 0)) (mk_tms 0 0 0 0) 0 0 (replicate 2 0) 0.

Definition example_pages (n : Z) : list Z :=
  (fun i => 2147483648 + PGSIZE * i) <$> seqZ 0 n.

Definition example_adam : Z := 2147418112.

Definition example_kstate (n : Z) : kstate :=
  kmallocinit example_adam 48 (example_pages n).

Definition example_kernel (n : Z) : kernel :=
  boot_kernel (example_kstate n) (fun _ => 170) (replicate 3 example_proc).

Definition example_kvmcreate : kstate -> Z * kstate := allocpage.
Definition example_vma_list_init (pt : Z) (k : kstate) : Z * kstate := (pt, k).
Definition example_freewalk (pt : Z) (k : kstate) : kstate := freepage pt k.
Definition example_uvmfree (p : proc_t) (k : kstate) : kstate := freepage (pagetable p) k.
Definition example_sigfree (_ : Z) (k : kstate) : kstate := k.

(** The example machine with slot 0 runnable and staged. *)
Definition example_staged : kernel :=
  set_runproc (Some 0%nat)
    (set_proc (<[0%nat := set_state RUNNABLE example_proc]> (replicate 3 example_proc))
       (example_kernel 0)).

(** The slot as freeproc leaves it. *)
Definition freed (p : proc_t) : proc_t :=
  set_state UNUSED (set_xstate 0 (set_killed 0 (set_chan 0
    (set_name (<[0%nat := 0]> (name p)) (set_parent None (set_pid 0 (set_sz 0
      (set_robust_list 0 (set_vma 0 (set_pagetable 0 (set_ofile 0
        (set_trapframe 0 p)))))))))))).

(** The C string in a [char] buffer: the bytes before the first NUL. *)
Fixpoint cstring (buf : list Z) : list Z :=
  match buf with
  | [] => []
  | c :: rest => if c =? 0 then [] else c :: cstring rest
  end.

(** ** Live objects

    The free list of a node is read off its table, starting at [avail];
    the slots of the node that are not on it hold the live objects. *)
Fixpoint free_list (fuel : nat) (t : list Z) (a : Z) : list Z :=
  match fuel with
  | O => []
  | S fuel' =>
    if a =? TABLE_END then []
    else match t !! Z.to_nat a with
         | None => []
         | Some a' => a :: free_list fuel' t a'
         end
  end.

Definition free_slots (n : kmem_node) : list Z :=
  free_list (length (table n)) (table n) (avail n).

Definition live_slots (n : kmem_node) : list Z :=
  filter (fun i => i ∉ free_slots n) (seqZ 0 (Z.of_nat (length (table n)))).

Definition slot_addr (n : kmem_node) (i : Z) : Z := obj_addr n + i * obj_size n.

Definition node_live (n : kmem_node) : list Z := slot_addr n <$> live_slots n.

(** [a] is a live object of the node at page [P]. *)
Definition live_at (k : kstate) (P a : Z) : Prop :=
  exists n, nodes k !! P = Some n /\ a ∈ node_live n.

Definition is_live (k : kstate) (a : Z) : Prop := exists P, live_at k P a.

(** A live object that a caller of kmalloc holds: the allocator instances
    created by get_allocator are live objects too, but they are never
    handed out and never freed. *)
Definition client_live (k : kstate) (a : Z) : Prop :=
  is_live k a /\ allocs k !! a = None.

(** The allocator calls are reasoned about through their lemmas; [simpl]
    leaves them folded. *)
Arguments kmalloc : simpl never.
Arguments kfree : simpl never.
Arguments kmalloc_locked : simpl never.
Arguments kfree_locked : simpl never.
Arguments get_allocator : simpl never.
Arguments freeproc : simpl never.
Arguments unwind : simpl never.
Arguments claimed : simpl never.
Arguments finished : simpl never.
Arguments zero_ofile : simpl never.
Arguments freed : simpl never.

(** The example collaborators, plugged in. *)
Definition example_allocproc : M (option nat) :=
  allocproc 48 16 2 4242 example_kvmcreate example_vma_list_init example_freewalk
            example_uvmfree example_sigfree example_sigfree.

Definition example_freeproc : proc_t -> M proc_t :=
  freeproc 48 example_uvmfree example_sigfree example_sigfree.

(** A machine that is nearly out of memory: one free page is left, and the
    slab node for 128-byte objects has room.  Here the address space is set
    up without taking a page. *)
Definition example_low_memory : kernel :=
  match kmalloc 48 128 (example_kstate 3) with
  | Ret _ k => boot_kernel k (fun _ => 170) (replicate 3 example_proc)
  | Fail _ => example_kernel 0
  end.

Definition example_kvmcreate_static (k : kstate) : Z * kstate := (2147352576, k).

Definition example_allocproc_static : M (option nat) :=
  allocproc 48 16 2 4242 example_kvmcreate_static example_vma_list_init example_freewalk
            example_uvmfree example_sigfree example_sigfree.

(** Two 128-byte objects next to each other in one slab node, the lower one
    freed again: [(a, b, w)] with [b] live and [a] at the head of the free
    list. *)
Definition example_neighbours : option (Z * Z * kernel) :=
  match kmalloc 48 128 (example_kstate 12) with
  | Ret a k1 =>
    match kmalloc 48 128 k1 with
    | Ret b k2 =>
      match kfree 48 a k2 with
      | Ret _ k3 => Some (a, b, boot_kernel k3 (fun _ => 170) (replicate 3 example_proc))
      | Fail _ => None
      end
    | Fail _ => None
    end
  | Fail _ => None
  end.

(** A process whose trapframe and open-file table are slab objects and
    whose kernel stack is a page, with signal state attached. *)
Definition example_process : option (proc_t * kernel) :=
  match kmalloc 48 288 (example_kstate 12) with
  | Ret tf k1 =>
    match kmalloc 48 128 k1 with
    | Ret o k2 =>
      let '(ks, k3) := allocpage k2 in
      let p := set_sig_frame 1002 (set_sig_act 1001 (set_kstack ks (set_ofile o
                 (set_trapframe tf (set_pid 7 (set_state ZOMBIE
                    (set_lock true example_proc))))))) in
      Some (p, boot_kernel k3 (fun _ => 170) (<[0%nat := p]> (replicate 3 example_proc)))
    | Fail _ => None
    end
  | Fail _ => None
  end.

(** A check of liveness that can be computed. *)
Definition live_check (k : kstate) (a : Z) : bool :=
  match nodes k !! PGROUNDDOWN a with
  | Some n => bool_decide (a ∈ node_live n)
  | None => false
  end.

Definition example_neighbours_kernel : kernel :=
  match example_neighbours with
  | Some (_, _, w) => w
  | None => example_kernel 0
  end.

Definition example_neighbours_after : kernel :=
  match example_allocproc example_neighbours_kernel with
  | Ret _ w' => w'
  | Fail _ => example_neighbours_kernel
  end.

(** Slots below [j] are taken and the others free; none is locked. *)
Definition taken_prefix (j : nat) (ps : list proc_t) : Prop :=
  forall idx q, ps !! idx = Some q ->
    lock q = false /\ ((idx < j)%nat -> state q <> UNUSED) /\
    ((j <= idx)%nat -> state q = UNUSED).


(** ** The shape of a well-formed allocator state *)

(** The size classes: what [ROUNDUP16] makes of a size kmalloc accepts. *)
Definition size_class (rs : Z) : Prop :=
  KMEM_OBJ_MIN_SIZE <= rs <= KMEM_OBJ_MAX_SIZE /\ rs mod 16 = 0.

(** [fchain t a l]: the free list that starts at index [a] of table [t]
    runs through the indices [l] and ends with [TABLE_END]. *)
Fixpoint fchain (t : list Z) (a : Z) (l : list Z) : Prop :=
  match l with
  | [] => a = TABLE_END
  | i :: l' =>
    a = i /\ i <> TABLE_END /\ 0 <= i /\
    exists a', t !! Z.to_nat i = Some a' /\ fchain t a' l'
  end.

(** [cseg nxt p l q]: following the links [nxt] from [p] one passes the
    cells [l], none of them [NULL], and arrives at [q]. *)
Fixpoint cseg (nxt : Z -> option Z) (p : Z) (l : list Z) (q : Z) : Prop :=
  match l with
  | [] => p = q
  | x :: l' => p = x /\ x <> 0 /\ exists r, nxt x = Some r /\ cseg nxt r l' q
  end.

(** [nlist nd p l]: the list of nodes that starts at [p] runs through the
    pages [l] and ends with [NULL]. *)
Definition nlist (nd : gmap Z kmem_node) (p : Z) (l : list Z) : Prop :=
  cseg (fun x => next <$> nd !! x) p l 0.

(** [achain al p l]: the same for a bucket of allocator instances. *)
Definition achain (al : gmap Z kmem_allocator) (p : Z) (l : list Z) : Prop :=
  cseg (fun x => a_next <$> al !! x) p l 0.

(** A page of the page allocator: aligned, not the page at 0, inside the
    64-bit address space, and not the home of [kmem_adam], which is a
    global variable. *)
Definition page_ok (adam P : Z) : Prop :=
  0 < P /\ P mod PGSIZE = 0 /\ P + PGSIZE <= 2 ^ 64 /\ ~ (P <= adam < P + PGSIZE).

(** A slab node at page [P]: its configuration is the one kmalloc writes,
    its free list is a proper chain through the table, and its count is the
    number of slots that are not on the free list. *)
Record node_ok (P : Z) (n : kmem_node) : Prop := {
  nk_class : size_class (obj_size n);
  nk_addr : obj_addr n = P + ROUNDUP16 (KMEM_NODE_FIX + _calc_capa (obj_size n));
  nk_len : Z.of_nat (length (table n)) = _calc_capa (obj_size n);
  nk_free : exists fl, fchain (table n) (avail n) fl /\ NoDup fl /\
              cnt n = _calc_capa (obj_size n) - Z.of_nat (length fl)
}.

(** The shape of the allocator's data, in three parts.  Pages: the free
    pages and the nodes are distinct pages, and every node is well formed. *)
Record pages_ok (adam : Z) (k : kstate) : Prop := {
  pg_nodup : NoDup (freepages k);
  pg_free : forall p, p ∈ freepages k -> page_ok adam p;
  pg_nodes : forall P n, nodes k !! P = Some n ->
    page_ok adam P /\ (P ∉ freepages k) /\ node_ok P n
}.

(** The directory: there is one allocator instance per size class in use,
    [kmem_adam] among them, and every bucket of [kmem_table] chains exactly
    the instances whose class hashes to it. *)
Record dir_ok (adam sz : Z) (al : gmap Z kmem_allocator) (tb : list Z) : Prop := {
  dir_allocs : forall A a, al !! A = Some a ->
    A <> 0 /\ a_lock a = false /\ size_class (a_obj_size a);
  dir_unique : forall A A' a a',
    al !! A = Some a -> al !! A' = Some a' -> a_obj_size a = a_obj_size a' -> A = A';
  dir_buckets : forall b head, tb !! b = Some head ->
    exists cl, achain al head cl /\ NoDup cl /\
      forall A, A ∈ cl <->
        exists a, al !! A = Some a /\ Z.to_nat (_hash (a_obj_size a)) = b;
  dir_len : length tb = Z.to_nat KMEM_TABLE_SIZE;
  dir_adam : exists a, al !! adam = Some a /\ a_obj_size a = ROUNDUP16 sz
}.

(** Links: every node belongs to the instance of its size class, whose list
    holds exactly the nodes of the class that have a free slot; the
    instances other than [kmem_adam] are live objects themselves. *)
Record link_ok (adam : Z) (k : kstate) : Prop := {
  lk_class : forall P n, nodes k !! P = Some n ->
    exists A a, allocs k !! A = Some a /\ a_obj_size a = obj_size n;
  lk_lists : forall A a, allocs k !! A = Some a ->
    exists nl, nlist (nodes k) (a_list a) nl /\ NoDup nl /\
      forall P, P ∈ nl <->
        exists n, nodes k !! P = Some n /\ obj_size n = a_obj_size a /\
                  avail n <> TABLE_END;
  lk_live : forall A a, allocs k !! A = Some a -> A = adam \/ is_live k A
}.

Definition kmem_shape (adam sz : Z) (k : kstate) : Prop :=
  pages_ok adam k /\ dir_ok adam sz (allocs k) (kmem_table k) /\ link_ok adam k.

(** Between two calls, in addition: [kmem_table_lock] is free, and a node
    without live objects has been given back. *)
Definition kmem_inv (adam sz : Z) (k : kstate) : Prop :=
  kmem_table_lock k = false /\ kmem_shape adam sz k /\
  forall P n, nodes k !! P = Some n -> 1 <= cnt n.

(** The states the allocator can be in: after kmallocinit on a set of
    pages, after a kmalloc, after a kfree of an object a caller holds, and
    after another part of the kernel has taken a page for itself or has
    given back a page it held. *)
Inductive reachable (adam sz : Z) : kstate -> Prop :=
| reach_init pages :
    NoDup pages -> (forall p, p ∈ pages -> page_ok adam p) ->
    reachable adam sz (kmallocinit adam sz pages)
| reach_kmalloc k size r k' :
    reachable adam sz k -> 0 <= size < 2 ^ 32 ->
    kmalloc sz size k = Ret r k' -> reachable adam sz k'
| reach_kfree k a k' :
    reachable adam sz k -> client_live k a ->
    kfree sz a k = Ret tt k' -> reachable adam sz k'
| reach_allocpage k :
    reachable adam sz k -> reachable adam sz (snd (allocpage k))
| reach_freepage k p :
    reachable adam sz k -> page_ok adam p -> p ∉ freepages k ->
    nodes k !! p = None -> reachable adam sz (freepage p k).

(** ** The steps an allocator call is made of

    The states kmalloc and kfree pass through, written out: a fresh page
    formatted as a node and put on the list; a slot taken from the node at
    the head of the list; a slot put back; a node without live objects
    dropped; a new allocator instance entered into its bucket. *)

Definition formatted (A : Z) (al : kmem_allocator) (P : Z) (rest : list Z)
    (size : Z) (k : kstate) : kstate :=
  set_allocs
    (<[A := mk_kmem_allocator (a_lock al) (a_obj_size al) (u16 (npages al + 1))
              (nobjs al) P (a_next al)]> (allocs k))
    (set_nodes (<[P := new_node P size]> (nodes k)) (set_freepages rest k)).

Definition took (A : Z) (al : kmem_allocator) (P : Z) (n : kmem_node) (a' : Z)
    (k : kstate) : kstate :=
  set_allocs
    (<[A := mk_kmem_allocator false (a_obj_size al) (npages al) (u16 (nobjs al + 1))
              (if TABLE_END =? a' then next n else P) (a_next al)]> (allocs k))
    (set_nodes
       (<[P := mk_kmem_node (next n) (obj_size n) (obj_addr n) a' (u8 (cnt n + 1))
                 (table n)]> (nodes k)) k).

Definition put_back (A : Z) (al : kmem_allocator) (P : Z) (n : kmem_node) (ix : Z)
    (k : kstate) : kstate :=
  let full := TABLE_END =? avail n in
  set_allocs
    (<[A := mk_kmem_allocator false (a_obj_size al) (npages al) (u16 (nobjs al - 1))
              (if full then P else a_list al) (a_next al)]> (allocs k))
    (set_nodes
       (<[P := mk_kmem_node (if full then a_list al else next n) (obj_size n)
                 (obj_addr n) ix (u8 (cnt n - 1))
                 (<[Z.to_nat ix := avail n]> (table n))]> (nodes k)) k).

Definition drop_node (A : Z) (al : kmem_allocator) (P : Z) (n : kmem_node)
    (k : kstate) : outcome kstate unit :=
  match find_pprev (S (size (nodes k))) (nodes k) None (a_list al) P with
  | inl f => Fail f
  | inr pprev =>
    let '(lst', nds) :=
      match pprev with
      | None => (next n, nodes k)
      | Some q => (a_list al, alter (set_next (next n)) q (nodes k))
      end in
    Ret tt
      (set_allocs
         (<[A := mk_kmem_allocator false (a_obj_size al) (u16 (npages al - 1))
                   (nobjs al) lst' (a_next al)]> (allocs k))
         (freepage P (set_nodes (delete P nds) k)))
  end.

Definition registered (tmp rs : Z) (hash : nat) (head : Z) (k : kstate) : kstate :=
  set_kmem_table_lock false
    (set_kmem_table (<[hash := tmp]> (kmem_table k))
       (set_allocs (<[tmp := mk_kmem_allocator false (u32 rs) 0 0 0 head]> (allocs k)) k)).

(** What the kernel-level wrappers leave alone. *)
Definition keeps_pids (w w' : kernel) : Prop :=
  nextpid w' = nextpid w /\ pid_lock w' = pid_lock w.

(** ** What the allocator calls establish *)

(** Every node holds a live object: a node without one has been dropped. *)
Definition cnt_ok (k : kstate) : Prop :=
  forall P n, nodes k !! P = Some n -> 1 <= cnt n.

(** What the critical section of kmalloc does to a well-formed state when
    it hands out [r] from the instance of class [rs]. *)
Record allocated (adam sz rs : Z) (k : kstate) (r : Z) (k' : kstate) : Prop := {
  al_shape : kmem_shape adam sz k';
  al_cnt : cnt_ok k';
  al_fresh : ~ is_live k r;
  al_live : forall b, is_live k' b <-> b = r \/ is_live k b;
  al_allocs : forall B, a_obj_size <$> allocs k' !! B = a_obj_size <$> allocs k !! B;
  al_table : kmem_table k' = kmem_table k;
  al_lock : kmem_table_lock k' = kmem_table_lock k;
  al_nodes : forall Q m, obj_size m <> rs ->
    nodes k' !! Q = Some m <-> nodes k !! Q = Some m;
  al_pages : (length (freepages k') + size (nodes k') =
              length (freepages k) + size (nodes k))%nat;
  al_page : (length (freepages k) <= S (length (freepages k')))%nat;
  al_at : exists P n, nodes k' !! P = Some n /\ obj_size n = rs /\ r ∈ node_live n
}.

(** What get_allocator does to a state between two calls when asked for
    class [rs]: the state is left alone when the instance exists, and
    otherwise gains the instance (a live object of [kmem_adam]'s class that
    no caller holds), unless there is no page to put it in. *)
Record looked_up (adam sz rs : Z) (k : kstate) (A : Z) (k0 : kstate) : Prop := {
  lu_inv : kmem_inv adam sz k0;
  lu_alloc : A <> 0 -> exists al, allocs k0 !! A = Some al /\ a_obj_size al = rs;
  lu_null : A = 0 -> k0 = k /\ freepages k = [];
  lu_found : forall B b, allocs k !! B = Some b -> a_obj_size b = rs -> k0 = k /\ A = B;
  lu_live : forall b, is_live k b -> is_live k0 b;
  lu_client : forall b, client_live k0 b <-> client_live k b;
  lu_nodes : forall Q m, obj_size m <> ROUNDUP16 sz ->
    nodes k0 !! Q = Some m <-> nodes k !! Q = Some m;
  lu_pages : (length (freepages k0) + size (nodes k0) =
              length (freepages k) + size (nodes k))%nat;
  lu_page : (length (freepages k) <= S (length (freepages k0)))%nat
}.

(** A caller that frees the objects of a list in turn. *)
Fixpoint kfree_each (sz : Z) (objs : list Z) (k : kstate) : outcome kstate unit :=
  match objs with
  | [] => Ret tt k
  | a :: rest =>
    match kfree sz a k with
    | Fail f => Fail f
    | Ret _ k' => kfree_each sz rest k'
    end
  end.

(** The state an allocation on the example machine leaves. *)
Definition example_after (size : Z) (k : kstate) : kstate :=
  match kmalloc 48 size k with
  | Ret _ k' => k'
  | Fail _ => k
  end.

(** The example machine with four pages after two allocations of 4048
    bytes: two nodes of capacity one, both full, at 0x80001000 and
    0x80002000. *)
Definition example_full_nodes : kstate :=
  example_after 4048 (example_after 4048 (example_kstate 4)).

(** A caller that asks for [n] objects of one size in turn. *)
Fixpoint kmalloc_each (sz size : Z) (n : nat) (k : kstate) : outcome kstate (list Z) :=
  match n with
  | O => Ret [] k
  | S n' =>
    match kmalloc sz size k with
    | Fail f => Fail f
    | Ret a k' =>
      match kmalloc_each sz size n' k' with
      | Fail f => Fail f
      | Ret rest k'' => Ret (a :: rest) k''
      end
    end
  end.

(** ** procnum: the number of slots in use, read without taking a lock *)

Definition procnum (w : kernel) : Z :=
  let num :=
    foldl (fun num p => if decide (state p = UNUSED) then num else s32 (num + 1))
          0 (proc w) in
  u64 num.                                          (* int returned as uint64 *)

(** Two kernel states that differ in the allocator only. *)
Definition same_but_km (w w' : kernel) : Prop := exists k, w' = set_km k w.

(** ** userinit and forkret *)

(** [p->field] read through the slot pointer; a pointer outside the table
    is a wild access. *)
Definition read_proc (i : nat) : M proc_t := fun w =>
  match proc w !! i with
  | Some p => Ret p w
  | None => Fail Wild
  end.

(** [p->field = v] *)
Definition update_proc (i : nat) (f : proc_t -> proc_t) : M unit :=
  modify (fun w => set_proc (alter f i (proc w)) w).

Section Boot.

Variable sizeof_kmem_allocator : Z.
Variable NOFILE : Z.
Variable SIGSET_LEN : nat.
Variable forkret_addr : Z.                         (* address of forkret *)
Variable kvmcreate : kstate -> Z * kstate.
Variable vma_list_init : Z -> kstate -> Z * kstate.
Variable freewalk : Z -> kstate -> kstate.
Variable uvmfree : proc_t -> kstate -> kstate.
Variable sigaction_free : Z -> kstate -> kstate.
Variable sigframefree : Z -> kstate -> kstate.

(** Collaborators whose definitions are outside the sources (vma.c, vm.c,
    string.c, trap.c, the cpu table) and the layout of struct trapframe
    (trap.h).  [alloc_load_vma] is handed the slot pointer, [NULL]
    included; [stack_end v] is [type_locate_vma(v, STACK)->end]. *)
Variable alloc_load_vma : option nat -> M unit.
Variable copyout : Z -> M unit.
Variable stack_end : Z -> M Z.
Variable safestrcpy : list Z -> list Z -> Z -> list Z.
Variables off_epc off_sp : Z.
Variable myproc : kernel -> option nat.
Variable usertrapret : M unit.

(** The characters of ["initcode"]. *)
Definition initcode_name : list Z := [105; 110; 105; 116; 99; 111; 100; 101].

(** userinit; the result is [initproc].  The pointer allocproc returns is
    used as it is. *)
Definition userinit : M nat :=
  r ← allocproc sizeof_kmem_allocator NOFILE SIGSET_LEN forkret_addr kvmcreate
                 vma_list_init freewalk uvmfree sigaction_free sigframefree;
  alloc_load_vma r;;
  match r with
  | None => fail Wild                               (* p->pagetable with p == NULL *)
  | Some i =>
    p ← read_proc i;
    copyout (pagetable p);;
    p ← read_proc i;
    modify (fun w => set_mem (store64 (mem w) (trapframe p + off_epc) 0) w);;
    p ← read_proc i;
    e ← stack_end (vma p);
    p ← read_proc i;
    modify (fun w => set_mem (store64 (mem w) (trapframe p + off_sp) e) w);;
    update_proc i (fun p =>
      set_name (safestrcpy (name p) initcode_name (Z.of_nat (length (name p)))) p);;
    update_proc i (set_state RUNNABLE);;
    modify (set_runproc (Some i));;                 (* insert to ready queue *)
    update_proc i (set_tmask 0);;
    release i;;
    mret i
  end.

(** forkret: still holding [p->lock] from the scheduler. *)
Definition forkret : M unit :=
  w ← get;
  match myproc w with
  | None => fail Wild
  | Some i => release i;; usertrapret
  end.

End Boot.

(** ** What allocproc needs of its collaborators

    kvmcreate and vma_list_init are outside the sources.  They succeed when
    they find the pages they need ([ck], [cv] at most) and leave the
    allocator in a state it can be in. *)
Definition kvmcreate_ok (adam sz : Z) (kvmcreate : kstate -> Z * kstate) (ck : nat) : Prop :=
  forall k, reachable adam sz k -> (ck <= length (freepages k))%nat ->
    exists pt k', kvmcreate k = (pt, k') /\ pt <> 0 /\ reachable adam sz k' /\
      (length (freepages k) <= length (freepages k') + ck)%nat.

Definition vma_list_init_ok (adam sz : Z) (vma_list_init : Z -> kstate -> Z * kstate)
    (cv : nat) : Prop :=
  forall pt k, pt <> 0 -> reachable adam sz k -> (cv <= length (freepages k))%nat ->
    exists v k', vma_list_init pt k = (v, k') /\ v <> 0 /\ reachable adam sz k' /\
      (length (freepages k) <= length (freepages k') + cv)%nat.

(** * Properties *)

(** ** Arithmetic of the macros *)

Lemma u8_small z : 0 <= z < 256 -> u8 z = z.
Proof. intros. unfold u8. apply Z.mod_small. lia. Qed.

Lemma u16_small z : 0 <= z < 65536 -> u16 z = z.
Proof. intros. unfold u16. apply Z.mod_small. lia. Qed.

Lemma u32_small z : 0 <= z < 2 ^ 32 -> u32 z = z.
Proof. intros. unfold u32. apply Z.mod_small. lia. Qed.

Lemma u64_small z : 0 <= z < 2 ^ 64 -> u64 z = z.
Proof. intros. unfold u64. apply Z.mod_small. lia. Qed.

Lemma s32_small z : - 2 ^ 31 <= z < 2 ^ 31 -> s32 z = z.
Proof. intros. unfold s32. rewrite Z.mod_small; lia. Qed.

Lemma land_lnot_ones a n : 0 <= n -> Z.land a (Z.lnot (Z.ones n)) = 2 ^ n * (a / 2 ^ n).
Proof.
  intros Hn. rewrite <- Z.ldiff_land.
  rewrite Z.ldiff_ones_r by done.
  rewrite Z.shiftl_mul_pow2, Z.shiftr_div_pow2 by done. lia.
Qed.

Lemma ROUNDUP16_eq n : 0 <= n < 2 ^ 64 - 15 -> ROUNDUP16 n = 16 * ((n + 15) / 16).
Proof.
  intros. unfold ROUNDUP16. rewrite u64_small by lia.
  change 15 with (Z.ones 4) at 2. rewrite land_lnot_ones by lia. done.
Qed.

Lemma PGROUNDDOWN_eq a : PGROUNDDOWN a = PGSIZE * (a / PGSIZE).
Proof.
  unfold PGROUNDDOWN, PGSIZE. change (4096 - 1) with (Z.ones 12).
  rewrite land_lnot_ones by lia. done.
Qed.

Lemma PGROUNDDOWN_within P a :
  P mod PGSIZE = 0 -> P <= a < P + PGSIZE -> PGROUNDDOWN a = P.
Proof.
  rewrite PGROUNDDOWN_eq. unfold PGSIZE. intros HP Ha.
  pose proof (Z.div_mod P 4096 ltac:(lia)) as HPd.
  assert (a / 4096 = P / 4096) as ->; [|lia].
  symmetry. apply (Z.div_unique a 4096 (P / 4096) (a - P)); lia.
Qed.

(** ** The monad, run symbolically *)

Lemma bind_Ret {A B} (m : M A) (f : A -> M B) w a w' :
  m w = Ret a w' -> (m ≫= f) w = f a w'.
Proof. intros H. unfold mbind, M_bind. by rewrite H. Qed.

Lemma bind_Fail {A B} (m : M A) (f : A -> M B) w e :
  m w = Fail e -> (m ≫= f) w = Fail e.
Proof. intros H. unfold mbind, M_bind. by rewrite H. Qed.

Lemma bind_inv {A B} (m : M A) (f : A -> M B) w b w' :
  (m ≫= f) w = Ret b w' -> exists a w1, m w = Ret a w1 /\ f a w1 = Ret b w'.
Proof.
  unfold mbind, M_bind. destruct (m w) as [a w1|e]; [eauto|done].
Qed.

Lemma set_nextpid_twice a b w : set_nextpid a (set_nextpid b w) = set_nextpid a w.
Proof. done. Qed.

Lemma set_nextpid_id w : set_nextpid (nextpid w) w = w.
Proof. by destruct w. Qed.

(** ** allocpid *)

Lemma allocpid_ret w :
  pid_lock w = false ->
  allocpid w = Ret (nextpid w) (set_nextpid (s32 (nextpid w + 1)) w).
Proof. intros H. unfold allocpid, mbind, M_bind, get. simpl. rewrite H. done. Qed.

Lemma allocpid_n_ret k : forall w,
  pid_lock w = false -> - 2 ^ 31 <= nextpid w < 2 ^ 31 ->
  nextpid w + Z.of_nat k <= 2 ^ 31 ->
  allocpid_n k w =
    Ret (seqZ (nextpid w) (Z.of_nat k)) (set_nextpid (s32 (nextpid w + Z.of_nat k)) w).
Proof.
  induction k as [|k IH]; intros w Hl Hlo Hhi.
  - cbn [allocpid_n]. change (Z.of_nat 0) with 0.
    rewrite Z.add_0_r, s32_small by lia. by rewrite set_nextpid_id.
  - cbn [allocpid_n]. erewrite bind_Ret by (by apply allocpid_ret).
    destruct k as [|k'].
    { cbn [allocpid_n]. unfold mbind, M_bind, mret, M_ret. by rewrite seqZ_cons. }
    assert (s32 (nextpid w + 1) = nextpid w + 1) as Hs by (apply s32_small; lia).
    erewrite bind_Ret; last first.
    { apply IH; cbn [nextpid set_nextpid pid_lock]; rewrite ?Hs; [done|lia|lia]. }
    cbn [nextpid set_nextpid]. rewrite Hs.
    replace (Z.of_nat (S (S k'))) with (Z.succ (Z.of_nat (S k'))) by lia.
    rewrite (seqZ_cons (nextpid w)) by lia. rewrite Z.pred_succ.
    unfold mret, M_ret. rewrite set_nextpid_twice.
    replace (nextpid w + 1 + Z.of_nat (S k')) with (nextpid w + Z.succ (Z.of_nat (S k'))) by lia.
    by replace (Z.succ (nextpid w)) with (nextpid w + 1) by lia.
Qed.

Lemma seqZ_increasing len : forall m, StronglySorted Z.lt (seqZ m len).
Proof.
  destruct (decide (0 <= len)) as [Hlen|Hlen]; last first.
  { intros m. rewrite seqZ_nil by lia. constructor. }
  pattern len. apply natlike_ind; [| |done].
  - intros m. rewrite seqZ_nil by lia. constructor.
  - intros x Hx IH m. rewrite seqZ_cons by lia. rewrite Z.pred_succ.
    constructor; [apply IH|]. apply Forall_forall. intros y Hy.
    apply elem_of_seqZ in Hy. lia.
Qed.

Lemma lift_keeps_pids {A} (f : kstate -> outcome kstate A) w a w' :
  lift f w = Ret a w' -> keeps_pids w w'.
Proof.
  unfold lift. destruct (f (km w)); [|done]. intros [= <- <-]. done.
Qed.

Lemma call_keeps_pids f w a w' : call f w = Ret a w' -> keeps_pids w w'.
Proof. intros [= <- <-]. done. Qed.

Lemma when_keeps_pids b (m : M unit) w a w' :
  (forall a w', m w = Ret a w' -> keeps_pids w w') ->
  when b m w = Ret a w' -> keeps_pids w w'.
Proof. destruct b; simpl; [eauto|]. intros _ [= <- <-]. done. Qed.

Lemma keeps_pids_trans w1 w2 w3 : keeps_pids w1 w2 -> keeps_pids w2 w3 -> keeps_pids w1 w3.
Proof. unfold keeps_pids. intros [-> ->] [-> ->]. done. Qed.


Lemma freeproc_keeps_pids sz uvmfree sigaction_free sigframefree p w p' w' :
  freeproc sz uvmfree sigaction_free sigframefree p w = Ret p' w' -> keeps_pids w w'.
Proof.
  unfold freeproc. intros H.
  apply bind_inv in H as (? & w1 & H1 & H). cbv zeta in H.
  apply bind_inv in H as (? & w2 & H2 & H). cbv zeta in H.
  apply bind_inv in H as (? & w3 & H3 & H).
  apply bind_inv in H as (? & w4 & H4 & H). cbv zeta in H.
  apply bind_inv in H as (? & w5 & H5 & H).
  apply bind_inv in H as (? & w6 & H6 & H).
  injection H as <- <-.
  apply when_keeps_pids in H1; [|eauto using @lift_keeps_pids].
  apply when_keeps_pids in H2; [|eauto using @lift_keeps_pids].
  apply when_keeps_pids in H3; [|eauto using call_keeps_pids].
  apply when_keeps_pids in H4; [|eauto using call_keeps_pids].
  apply call_keeps_pids in H5, H6.
  unfold keeps_pids in *. destruct_and!. split; congruence.
Qed.

(** C9, as amended — allocpid returns the current counter value and then
    increments it (modulo 2^32, the counter being an [int]).  As long as the
    counter stays within [int] — [k] calls starting from a counter [n] with
    [n + k <= 2^31] — [k] calls in a row return [n, n+1, ..., n+k-1]:
    strictly increasing and pairwise distinct.  freeproc does not touch the
    counter, so freeing a process gives no pid back.  After initialisation
    the first five calls return 1, 2, 3, 4, 5. *)
Theorem allocpid_sequence (w : kernel) (k : nat) :
  pid_lock w = false ->
  - 2 ^ 31 <= nextpid w < 2 ^ 31 ->
  nextpid w + Z.of_nat k <= 2 ^ 31 ->
  allocpid w = Ret (nextpid w) (set_nextpid (s32 (nextpid w + 1)) w) /\
  allocpid_n k w =
    Ret (seqZ (nextpid w) (Z.of_nat k))
        (set_nextpid (s32 (nextpid w + Z.of_nat k)) w) /\
  StronglySorted Z.lt (seqZ (nextpid w) (Z.of_nat k)) /\
  NoDup (seqZ (nextpid w) (Z.of_nat k)) /\
  (forall sz uvmfree sigaction_free sigframefree p p' w',
     freeproc sz uvmfree sigaction_free sigframefree p w = Ret p' w' ->
     nextpid w' = nextpid w) /\
  (forall ks m table,
     allocpid_n 5 (boot_kernel ks m table) =
       Ret [1; 2; 3; 4; 5] (set_nextpid 6 (boot_kernel ks m table))).
Proof.
  intros Hl Hr Hk. split_and!.
  - by apply allocpid_ret.
  - by apply allocpid_n_ret.
  - apply seqZ_increasing.
  - apply NoDup_seqZ.
  - intros * H. by apply freeproc_keeps_pids in H as [? _].
  - intros. by rewrite allocpid_n_ret.
Qed.

Lemma allocpid_sequence_witness :
  allocpid_n 5 (example_kernel 0) =
    Ret (seqZ 1 5) (set_nextpid (s32 (1 + 5)) (example_kernel 0)).
Proof.
  refine (proj1 (proj2 (allocpid_sequence (example_kernel 0) 5 _ _ _)));
    [reflexivity | simpl; lia | simpl; lia].
Defined.

(** C9, as stated, fails once the counter reaches INT_MAX: the call that
    follows the one returning 2147483647 returns -2147483648. *)
Lemma allocpid_wraps_at_INT_MAX :
  let w := set_nextpid 2147483647 (example_kernel 0) in
  exists w1 w2,
    allocpid w = Ret 2147483647 w1 /\
    allocpid w1 = Ret (-2147483648) w2 /\
    ~ 2147483647 < -2147483648.
Proof.
  intros w. exists (set_nextpid (-2147483648) w), (set_nextpid (-2147483647) w).
  split_and!; [vm_compute; reflexivity | vm_compute; reflexivity | lia].
Qed.

(** ** One pass of the scheduler *)

Section Sched.
Variables (kernel_pagetable : Z) (MAKE_SATP : Z -> Z).
Variables (swtch : nat -> M unit).

Lemma scheduler_enter_runnable w i p :
  runproc w = Some i -> proc w !! i = Some p -> lock p = false ->
  state p = RUNNABLE ->
  scheduler_enter MAKE_SATP w =
    Ret (SwitchTo i)
      (set_cpu (mk_cpu (Some i) (MAKE_SATP (pagetable p)) (intr_enabled (cpu w)))
         (set_proc (<[i := set_state RUNNING (set_lock true p)]> (proc w))
            (set_runproc None w))).
Proof.
  intros Hr Hp Hl Hs. unfold scheduler_enter, mbind, M_bind, get. simpl.
  rewrite Hr, Hp, Hl. simpl. rewrite decide_True by done. done.
Qed.

Lemma scheduler_enter_not_runnable w i p :
  runproc w = Some i -> proc w !! i = Some p -> lock p = false ->
  state p <> RUNNABLE ->
  scheduler_enter MAKE_SATP w = Ret (NoSwitch i) (set_runproc None w).
Proof.
  intros Hr Hp Hl Hs. unfold scheduler_enter, mbind, M_bind, get. simpl.
  rewrite Hr, Hp, Hl. simpl. rewrite decide_False by done. simpl.
  unfold mret, M_ret. f_equal. destruct w; simpl in *.
  unfold set_proc, set_runproc; simpl. f_equal.
  apply list_insert_id. rewrite Hp. f_equal. destruct p; simpl in *; by subst.
Qed.

Lemma scheduler_enter_idle w :
  runproc w = None ->
  scheduler_enter MAKE_SATP w =
    Ret Idle (set_cpu (mk_cpu (c_proc (cpu w)) (satp (cpu w)) true) w).
Proof.
  intros Hr. unfold scheduler_enter, mbind, M_bind, get. simpl. rewrite Hr. simpl.
  unfold mret, M_ret. f_equal. destruct w; simpl in *. by subst.
Qed.

Lemma scheduler_enter_inv w s w' :
  scheduler_enter MAKE_SATP w = Ret s w' ->
  runproc w' = None /\
  match s with
  | SwitchTo i =>
    exists p, runproc w = Some i /\ proc w !! i = Some p /\
      state p = RUNNABLE /\ lock p = false /\
      proc w' !! i = Some (set_state RUNNING (set_lock true p)) /\
      c_proc (cpu w') = Some i /\ satp (cpu w') = MAKE_SATP (pagetable p)
  | NoSwitch i =>
    exists p, runproc w = Some i /\ proc w !! i = Some p /\
      state p <> RUNNABLE /\ w' = set_runproc None w
  | Idle => runproc w = None
  end.
Proof.
  destruct (runproc w) as [i|] eqn:Hr.
  - destruct (proc w !! i) as [p|] eqn:Hp.
    + destruct (lock p) eqn:Hl.
      * unfold scheduler_enter, mbind, M_bind, get. simpl. rewrite Hr, Hp, Hl. done.
      * destruct (decide (state p = RUNNABLE)) as [Hs|Hs].
        -- rewrite (scheduler_enter_runnable w i p) by done. intros [= <- <-].
           split; [done|]. exists p. split_and!; try done. simpl.
           apply list_lookup_insert_eq. by eapply lookup_lt_Some.
        -- rewrite (scheduler_enter_not_runnable w i p) by done. intros [= <- <-].
           split; [done|]. by exists p.
    + unfold scheduler_enter, mbind, M_bind, get. simpl. rewrite Hr, Hp. done.
  - rewrite scheduler_enter_idle by done. intros [= <- <-]. done.
Qed.

End Sched.

(** C10 — In every pass through the scheduler loop the staged process is
    taken and the slot cleared.  The scheduler reaches [swtch] only if the
    process's state, read under its lock, is RUNNABLE; the state is then
    RUNNING and the process is the hart's current process.  If the state is
    anything else the pass ends without a switch and without an error: the
    only change is the cleared slot. *)
Theorem scheduler_switches_only_if_runnable
    (kernel_pagetable : Z) (MAKE_SATP : Z -> Z) (swtch : nat -> M unit)
    (w : kernel) :
  (forall s w', scheduler_enter MAKE_SATP w = Ret s w' ->
     runproc w' = None /\
     match s with
     | SwitchTo i =>
       exists p, runproc w = Some i /\ proc w !! i = Some p /\
         state p = RUNNABLE /\ lock p = false /\
         proc w' !! i = Some (set_state RUNNING (set_lock true p)) /\
         c_proc (cpu w') = Some i /\ satp (cpu w') = MAKE_SATP (pagetable p)
     | NoSwitch i =>
       exists p, runproc w = Some i /\ proc w !! i = Some p /\
         state p <> RUNNABLE /\ w' = set_runproc None w
     | Idle => runproc w = None
     end) /\
  (forall i p, runproc w = Some i -> proc w !! i = Some p -> lock p = false ->
     (state p = RUNNABLE ->
        exists w1, scheduler_enter MAKE_SATP w = Ret (SwitchTo i) w1 /\
          scheduler_body kernel_pagetable MAKE_SATP swtch w =
            (swtch i;; scheduler_resume kernel_pagetable MAKE_SATP i;;
             mret (SwitchTo i)) w1) /\
     (state p <> RUNNABLE ->
        scheduler_body kernel_pagetable MAKE_SATP swtch w =
          Ret (NoSwitch i) (set_runproc None w))).
Proof.
  split.
  - intros s w'. apply scheduler_enter_inv.
  - intros i p Hr Hp Hl. split; intros Hs.
    + eexists. split; [by apply (scheduler_enter_runnable MAKE_SATP w i p)|].
      unfold scheduler_body.
      by rewrite (bind_Ret _ _ _ _ _ (scheduler_enter_runnable MAKE_SATP w i p Hr Hp Hl Hs)).
    + unfold scheduler_body.
      by rewrite (bind_Ret _ _ _ _ _ (scheduler_enter_not_runnable MAKE_SATP w i p Hr Hp Hl Hs)).
Qed.

Lemma scheduler_switches_only_if_runnable_witness :
  exists w1, scheduler_enter (fun pt => pt) example_staged = Ret (SwitchTo 0%nat) w1 /\
    scheduler_body 0 (fun pt => pt) (fun _ => mret tt) example_staged =
      ((fun _ => mret tt) 0%nat;; scheduler_resume 0 (fun pt => pt) 0%nat;;
       mret (SwitchTo 0%nat)) w1.
Proof.
  destruct (scheduler_switches_only_if_runnable 0 (fun pt => pt) (fun _ => mret tt)
              example_staged) as [_ H].
  destruct (H 0%nat (set_state RUNNABLE example_proc) eq_refl eq_refl eq_refl) as [H1 _].
  exact (H1 eq_refl).
Defined.

(** ** The process table *)

(** ** The slot scan *)

Lemma find_unused_Some ps : forall i0 i p,
  find_unused ps i0 = inr (Some (i, p)) ->
  exists j, i = (i0 + j)%nat /\ ps !! j = Some p /\ state p = UNUSED /\ lock p = false /\
    forall j' q, (j' < j)%nat -> ps !! j' = Some q -> state q <> UNUSED /\ lock q = false.
Proof.
  induction ps as [|q ps IH]; intros i0 i p; simpl; [done|].
  destruct (lock q) eqn:Hl; [done|].
  destruct (decide (state q = UNUSED)) as [Hs|Hs].
  - intros [= <- <-]. exists 0%nat. split_and!; try done; try lia.
  - intros (j & -> & Hj & ? & ? & Hbefore)%IH. exists (S j).
    split_and!; try done; [lia|].
    intros [|j'] q' Hlt; simpl.
    + by intros [= <-].
    + apply Hbefore. lia.
Qed.

Lemma find_unused_None ps : forall i0,
  find_unused ps i0 = inr None ->
  Forall (fun q => state q <> UNUSED /\ lock q = false) ps.
Proof.
  induction ps as [|q ps IH]; intros i0; simpl; [constructor|].
  destruct (lock q) eqn:Hl; [done|].
  destruct (decide (state q = UNUSED)) as [Hs|Hs]; [done|].
  intros H. constructor; eauto.
Qed.

Lemma find_unused_Hang ps : forall i0 f,
  find_unused ps i0 = inl f -> f = Hang /\ exists q, q ∈ ps /\ lock q = true.
Proof.
  induction ps as [|q ps IH]; intros i0 f; simpl; [done|].
  destruct (lock q) eqn:Hl.
  - intros [= <-]. split; [done|]. exists q. split; [left|done].
  - destruct (decide (state q = UNUSED)) as [Hs|Hs]; [done|].
    intros [? (q' & ? & ?)]%IH. split; [done|]. exists q'. split; [by right|done].
Qed.

Lemma taken_prefix_find j ps r :
  taken_prefix j ps -> (j <= length ps)%nat -> find_unused ps 0 = r ->
  match r with
  | inr (Some (i, p)) => i = j /\ ps !! j = Some p /\ (j < length ps)%nat
  | inr None => j = length ps
  | inl _ => False
  end.
Proof.
  intros Ht Hj Hr. destruct r as [f|[[i p]|]].
  - apply find_unused_Hang in Hr as [_ (q & [idx Hq]%list_elem_of_lookup & Hl)].
    apply Ht in Hq as [? _]. congruence.
  - apply find_unused_Some in Hr as (i' & -> & Hp & Hs & _ & Hbefore). simpl.
    assert (i' = j) as ->; [|split_and!; [done..|by eapply lookup_lt_Some]].
    destruct (Ht _ _ Hp) as (_ & Hlt & _).
    assert (j <= i')%nat by (destruct (decide (i' < j)%nat); [by apply Hlt in Hs|lia]).
    destruct (decide (j < i')%nat) as [Hji|]; [|lia].
    destruct (lookup_lt_is_Some_2 ps j) as [q Hq].
    { apply lookup_lt_Some in Hp. lia. }
    destruct (Hbefore _ _ Hji Hq) as [Hne _]. destruct (Ht _ _ Hq) as (_ & _ & Hu).
    destruct Hne. apply Hu. lia.
  - apply find_unused_None in Hr. destruct (decide (j = length ps)); [done|].
    destruct (lookup_lt_is_Some_2 ps j) as [q Hq]; [lia|].
    rewrite Forall_forall in Hr. destruct (Hr q) as [Hne _].
    { apply list_elem_of_lookup. eauto. }
    destruct (Ht _ _ Hq) as (_ & _ & Hu). destruct Hne. apply Hu. lia.
Qed.

(** A live object, checked by computation. *)
Lemma live_check_live k a : live_check k a = true -> is_live k a.
Proof.
  unfold live_check. destruct (nodes k !! PGROUNDDOWN a) as [n|] eqn:Hn; [|done].
  intros H%bool_decide_eq_true. exists (PGROUNDDOWN a), n. done.
Qed.

Section ProcFacts.
Variable sz : Z.
Variable NOFILE : Z.
Variable SIGSET_LEN : nat.
Variable forkret : Z.
Variable kvmcreate : kstate -> Z * kstate.
Variable vma_list_init : Z -> kstate -> Z * kstate.
Variable freewalk : Z -> kstate -> kstate.
Variable uvmfree : proc_t -> kstate -> kstate.
Variable sigaction_free : Z -> kstate -> kstate.
Variable sigframefree : Z -> kstate -> kstate.

Abbreviation allocproc' := (allocproc sz NOFILE SIGSET_LEN forkret kvmcreate vma_list_init
                         freewalk uvmfree sigaction_free sigframefree).
Abbreviation freeproc' := (freeproc sz uvmfree sigaction_free sigframefree).
Abbreviation unwind' := (unwind sz uvmfree sigaction_free sigframefree).
Abbreviation allocproc_publish' := (allocproc_publish sz NOFILE SIGSET_LEN forkret kvmcreate
                         vma_list_init freewalk uvmfree sigaction_free sigframefree).
Abbreviation allocproc_publish_n' := (allocproc_publish_n sz NOFILE SIGSET_LEN forkret kvmcreate
                         vma_list_init freewalk uvmfree sigaction_free sigframefree).

Lemma freeproc_result p w p' w' : freeproc' p w = Ret p' w' -> p' = freed p.
Proof.
  unfold freeproc. intros H.
  apply bind_inv in H as (? & w1 & H1 & H). cbv zeta in H.
  apply bind_inv in H as (? & w2 & H2 & H). cbv zeta in H.
  apply bind_inv in H as (? & w3 & H3 & H).
  apply bind_inv in H as (? & w4 & H4 & H). cbv zeta in H.
  apply bind_inv in H as (? & w5 & H5 & H).
  apply bind_inv in H as (? & w6 & H6 & H).
  by injection H as <- <-.
Qed.

Lemma same_table_lift {A} (f : kstate -> outcome kstate A) w a w' :
  lift f w = Ret a w' -> proc w' = proc w.
Proof. unfold lift. destruct (f (km w)); [|done]. by intros [= <- <-]. Qed.

Lemma same_table_when b (m : M unit) w a w' :
  (forall a w', m w = Ret a w' -> proc w' = proc w) ->
  when b m w = Ret a w' -> proc w' = proc w.
Proof. destruct b; simpl; [eauto|]. by intros _ [= <- <-]. Qed.

Lemma freeproc_same_table p w p' w' : freeproc' p w = Ret p' w' -> proc w' = proc w.
Proof.
  unfold freeproc. intros H.
  apply bind_inv in H as (? & w1 & H1 & H). cbv zeta in H.
  apply bind_inv in H as (? & w2 & H2 & H). cbv zeta in H.
  apply bind_inv in H as (? & w3 & H3 & H).
  apply bind_inv in H as (? & w4 & H4 & H). cbv zeta in H.
  apply bind_inv in H as (? & w5 & H5 & H).
  apply bind_inv in H as (? & w6 & H6 & H).
  injection H as <- <-.
  apply same_table_when in H1; [|eauto using @same_table_lift].
  apply same_table_when in H2; [|eauto using @same_table_lift].
  apply same_table_when in H3; [|by intros ?? [= <- <-]].
  apply same_table_when in H4; [|by intros ?? [= <- <-]].
  injection H5 as <- <-. injection H6 as <- <-. simpl. congruence.
Qed.

Lemma unwind_inv i p w r w' :
  unwind' i p w = Ret r w' ->
  r = None /\ proc w' = <[i := set_lock false (freed p)]> (proc w).
Proof.
  unfold unwind. intros H.
  apply bind_inv in H as (p' & w1 & H1 & H).
  pose proof (freeproc_result _ _ _ _ H1) as ->.
  apply freeproc_same_table in H1.
  injection H as <- <-. simpl. by rewrite H1.
Qed.

Lemma allocproc_pid_locked w i p :
  find_unused (proc w) 0 = inr (Some (i, p)) -> pid_lock w = true ->
  allocproc' w = Fail Hang.
Proof.
  intros Hf Hl. unfold allocproc, mbind, M_bind, get. rewrite Hf.
  unfold store_proc, modify, allocpid, mbind, M_bind, get. simpl. by rewrite Hl.
Qed.

(** What the two assignment blocks keep. *)
Lemma claimed_keeps n p :
  lock (claimed NOFILE n p) = lock p /\ state (claimed NOFILE n p) = state p /\
  pid (claimed NOFILE n p) = n /\ name (claimed NOFILE n p) = name p.
Proof. done. Qed.

Lemma finished_keeps o p :
  lock (finished SIGSET_LEN forkret o p) = lock p /\
  state (finished SIGSET_LEN forkret o p) = state p /\
  pid (finished SIGSET_LEN forkret o p) = pid p /\
  name (finished SIGSET_LEN forkret o p) = name p /\
  vma (finished SIGSET_LEN forkret o p) = vma p /\
  kstack (finished SIGSET_LEN forkret o p) = kstack p /\
  ofile (finished SIGSET_LEN forkret o p) = o.
Proof. done. Qed.

Lemma slot_built n tf ks pt v o p :
  let pF := finished SIGSET_LEN forkret o (set_vma v (set_pagetable pt (set_kstack ks
              (set_trapframe tf (claimed NOFILE n (set_lock true p)))))) in
  lock pF = true /\ state pF = state p /\ pid pF = n /\ name pF = name p /\
  ofile pF = o /\ vma pF = v /\ kstack pF = ks /\ trapframe pF = tf /\
  pagetable pF = pt /\ sig_act pF = 0 /\ sig_frame pF = 0 /\
  sp (context pF) = u64 (ks + PGSIZE) /\ ra (context pF) = forkret.
Proof. done. Qed.

Local Opaque kmalloc kfree freeproc unwind claimed finished zero_ofile.

Lemma allocproc_no_slot w :
  find_unused (proc w) 0 = inr None -> allocproc' w = Ret None w.
Proof.
  intros H. unfold allocproc, mbind, M_bind, get. by rewrite H.
Qed.

Lemma allocproc_locked_slot w :
  find_unused (proc w) 0 = inl Hang -> allocproc' w = Fail Hang.
Proof.
  intros H. unfold allocproc, mbind, M_bind, get. by rewrite H.
Qed.

Lemma set_km_id w : set_km (km w) w = w.
Proof. by destruct w. Qed.

Lemma allocproc_eq w i p :
  find_unused (proc w) 0 = inr (Some (i, p)) -> pid_lock w = false ->
  allocproc' w =
    let w1 := set_nextpid (s32 (nextpid w + 1))
                (set_proc (<[i := set_lock true p]> (proc w)) w) in
    let p1 := claimed NOFILE (nextpid w) (set_lock true p) in
    let '(tf, k1) := allocpage (km w) in
    if tf =? 0 then
      Ret None (set_proc (<[i := set_lock false (set_trapframe 0 p1)]> (proc w))
                  (set_km k1 w1))
    else
      let '(ks, k2) := allocpage k1 in
      let p2 := set_kstack ks (set_trapframe tf p1) in
      let '(pt, k3) := kvmcreate k2 in
      if pt =? 0 then unwind' i p2 (set_km k3 w1)
      else
        let '(v, k4) := vma_list_init pt k3 in
        if v =? 0 then
          unwind' i (set_pagetable 0 (set_pagetable pt p2)) (set_km (freewalk pt k4) w1)
        else
          match kmalloc sz (u32 (NOFILE * 8)) k4 with
          | Fail f => Fail f
          | Ret o k5 =>
            if o =? 0 then Fail (Panic "proc ofile init")
            else
              Ret (Some i)
                (set_proc
                   (<[i := finished SIGSET_LEN forkret o
                             (set_vma v (set_pagetable pt p2))]> (proc w))
                   (set_mem (zero_ofile NOFILE o (mem w)) (set_km k5 w1)))
          end.
Proof.
  intros Hf Hl. unfold allocproc, mbind, M_bind, get. rewrite Hf.
  unfold store_proc, modify, allocpid, mbind, M_bind, get. simpl. rewrite Hl. simpl.
  unfold call_ret. simpl.
  destruct (allocpage (km w)) as [tf k1]. simpl.
  destruct (tf =? 0) eqn:Etf.
  { apply Z.eqb_eq in Etf as ->. unfold mret, M_ret, set_proc; simpl.
    rewrite list_insert_insert_eq. reflexivity. }
  simpl. destruct (allocpage k1) as [ks k2]. simpl.
  unfold proc_pagetable, mbind, M_bind, call_ret. simpl.
  destruct (kvmcreate k2) as [pt k3]. simpl.
  destruct (pt =? 0) eqn:Ept; simpl; [reflexivity|].
  destruct (vma_list_init pt k3) as [v k4]. simpl.
  destruct (v =? 0) eqn:Ev; simpl; [reflexivity|].
  rewrite Ept. unfold lift. simpl.
  destruct (kmalloc sz (u32 (NOFILE * 8)) k4) as [o k5|f]; [|reflexivity].
  destruct (o =? 0) eqn:Eo; [reflexivity|]. simpl.
  unfold mret, M_ret, set_proc; simpl.
  rewrite list_insert_insert_eq. reflexivity.
Qed.
(** A successful allocproc, read backwards. *)
Lemma allocproc_Some_inv w i w' :
  allocproc' w = Ret (Some i) w' ->
  exists p pF,
    find_unused (proc w) 0 = inr (Some (i, p)) /\
    proc w' = <[i := pF]> (proc w) /\
    lock pF = true /\ state pF = UNUSED /\ pid pF = nextpid w /\
    name pF = name p /\ ofile pF <> 0 /\
    mem w' = zero_ofile NOFILE (ofile pF) (mem w).
Proof.
  intros H. destruct (find_unused (proc w) 0) as [f|[[i' p]|]] eqn:Hf.
  - unfold allocproc, mbind, M_bind, get in H. by rewrite Hf in H.
  - destruct (pid_lock w) eqn:Hl.
    { by rewrite (allocproc_pid_locked w i' p) in H. }
    rewrite (allocproc_eq w i' p Hf Hl) in H.
    cbv zeta in H.
    destruct (allocpage (km w)) as [tf k1]. destruct (tf =? 0); [done|].
    destruct (allocpage k1) as [ks k2]. destruct (kvmcreate k2) as [pt k3].
    destruct (pt =? 0). { by apply unwind_inv in H as [? _]. }
    destruct (vma_list_init pt k3) as [v k4].
    destruct (v =? 0). { by apply unwind_inv in H as [? _]. }
    destruct (kmalloc sz (u32 (NOFILE * 8)) k4) as [o k5|]; [|done].
    destruct (o =? 0) eqn:Eo; [done|]. injection H as <- <-.
    apply find_unused_Some in Hf as Hf'. destruct Hf' as (j & _ & _ & Hs & _).
    destruct (slot_built (nextpid w) tf ks pt v o p)
      as (Hlk & Hst & Hpid & Hnm & Hof & _).
    eexists p, _. split; [done|]. split; [done|].
    rewrite Hof. split_and!; [done|congruence|done|done|by apply Z.eqb_neq|done].
  - rewrite allocproc_no_slot in H by done. done.
Qed.
Local Opaque allocproc.

Lemma allocproc_publish_Some j w i w' :
  taken_prefix j (proc w) -> (j <= length (proc w))%nat ->
  allocproc_publish' w = Ret (Some i) w' ->
  i = j /\ (j < length (proc w))%nat /\ taken_prefix (S j) (proc w') /\
  length (proc w') = length (proc w).
Proof.
  intros Ht Hj H. unfold allocproc_publish in H.
  apply bind_inv in H as (r & w1 & Ha & H).
  destruct r as [i'|]; [|done].
  apply bind_inv in H as ([] & w2 & Hp & H). injection H as <- <-.
  injection Hp as <-.
  apply allocproc_Some_inv in Ha as (p & pF & Hf & Hproc & Hlk & Hst & _).
  pose proof (taken_prefix_find j (proc w) _ Ht Hj Hf) as (-> & Hpj & Hlt).
  split; [done|]. split; [done|]. simpl. rewrite Hproc. split.
  - intros idx q. destruct (decide (idx = j)) as [->|Hne].
    + rewrite list_lookup_alter_eq, list_lookup_insert_eq by done. simpl.
      intros [= <-]. split_and!; [done|done|lia].
    + rewrite list_lookup_alter_ne, list_lookup_insert_ne by done.
      intros Hq. destruct (Ht _ _ Hq) as (? & ? & ?). split_and!; [done|intros; apply H0; lia|intros; apply H1; lia].
  - by rewrite length_alter, length_insert.
Qed.

Lemma allocproc_publish_full w r w' :
  taken_prefix (length (proc w)) (proc w) ->
  allocproc_publish' w = Ret r w' -> r = None /\ w' = w.
Proof.
  intros Ht H. unfold allocproc_publish in H.
  apply bind_inv in H as (r' & w1 & Ha & H).
  destruct (find_unused (proc w) 0) as [f|[[i p]|]] eqn:Hf.
  - by apply (taken_prefix_find _ _ _ Ht) in Hf.
  - apply (taken_prefix_find _ _ _ Ht) in Hf as (_ & _ & ?); lia.
  - rewrite allocproc_no_slot in Ha by done. injection Ha as <- <-.
    by injection H as <- <-.
Qed.

Lemma allocproc_fills k : forall j w rs w',
  taken_prefix j (proc w) -> length (proc w) = (j + k)%nat ->
  allocproc_publish_n' (S k) w = Ret rs w' ->
  (forall idx r, (idx < k)%nat -> rs !! idx = Some r -> is_Some r) ->
  rs = (Some <$> seq j k) ++ [None] /\
  allocproc' w' = Ret None w' /\
  taken_prefix (j + k) (proc w') /\ length (proc w') = length (proc w).
Proof.
  induction k as [|k IH]; intros j w rs w' Ht Hlen H Hok.
  - cbn [allocproc_publish_n] in H.
    apply bind_inv in H as (r & w1 & Hr & H).
    apply bind_inv in H as (rest & w2 & [= <- <-] & H). injection H as <- <-.
    replace j with (length (proc w)) in Ht by lia.
    apply allocproc_publish_full in Hr as [-> Hw]; [|done]. subst w1.
    split; [done|]. split.
    + apply allocproc_no_slot.
      destruct (find_unused (proc w) 0) as [f|[[i p]|]] eqn:Hf; [..|done].
      * by apply (taken_prefix_find _ _ _ Ht) in Hf.
      * apply (taken_prefix_find _ _ _ Ht) in Hf as (_ & _ & ?); lia.
    + split; [|done]. by replace (j + 0)%nat with (length (proc w)) by lia.
  - cbn [allocproc_publish_n] in H.
    apply bind_inv in H as (r & w1 & Hr & H).
    apply bind_inv in H as (rest & w2 & Hrest & H). injection H as <- <-.
    destruct (Hok 0%nat r) as [i ->]; [lia|done|].
    apply (allocproc_publish_Some j) in Hr as (-> & Hlt & Ht1 & Hlen1); [|done|lia].
    apply (IH (S j)) in Hrest as (-> & Hlast & Htk & Hlenk); [| done | lia |].
    + split_and!; [done|done| |congruence].
      by replace (j + S k)%nat with (S j + k)%nat by lia.
    + intros idx r Hidx Hr. apply (Hok (S idx)); [lia|done].
Qed.

(** Paths of allocproc on which an allocation fails. *)

Lemma allocproc_trapframe_failure w i p :
  find_unused (proc w) 0 = inr (Some (i, p)) -> pid_lock w = false ->
  freepages (km w) = [] ->
  allocproc' w =
    Ret None
      (set_proc (<[i := set_lock false (set_trapframe 0
                          (claimed NOFILE (nextpid w) (set_lock true p)))]> (proc w))
         (set_nextpid (s32 (nextpid w + 1)) w)).
Proof.
  intros Hf Hl Hp.
  rewrite (allocproc_eq w i p Hf Hl). unfold allocpage. rewrite Hp. cbv zeta.
  change (0 =? 0) with true. cbv iota. f_equal; by destruct w.
Qed.

Lemma allocproc_kstack_unchecked w i p tf k1 pt k3 v k4 o k5 :
  find_unused (proc w) 0 = inr (Some (i, p)) -> pid_lock w = false ->
  allocpage (km w) = (tf, k1) -> tf <> 0 -> freepages k1 = [] ->
  kvmcreate k1 = (pt, k3) -> pt <> 0 -> vma_list_init pt k3 = (v, k4) -> v <> 0 ->
  kmalloc sz (u32 (NOFILE * 8)) k4 = Ret o k5 -> o <> 0 ->
  exists w' pF, allocproc' w = Ret (Some i) w' /\ proc w' !! i = Some pF /\
    kstack pF = 0 /\ sp (context pF) = u64 PGSIZE /\ lock pF = true.
Proof.
  intros Hf Hl Htf Htf0 Hk1 Hpt Hpt0 Hv Hv0 Ho Ho0.
  rewrite (allocproc_eq w i p Hf Hl). rewrite Htf. cbv zeta.
  rewrite (proj2 (Z.eqb_neq tf 0)) by done.
  unfold allocpage at 1. rewrite Hk1, Hpt.
  rewrite (proj2 (Z.eqb_neq pt 0)) by done. rewrite Hv.
  rewrite (proj2 (Z.eqb_neq v 0)) by done. rewrite Ho.
  rewrite (proj2 (Z.eqb_neq o 0)) by done.
  eexists _, _. split; [done|]. cbn [proc set_proc]. split.
  - apply list_lookup_insert_eq. apply find_unused_Some in Hf as (j & -> & Hj & _).
    by apply lookup_lt_Some in Hj.
  - by destruct (slot_built (nextpid w) tf 0 pt v o p)
      as (-> & _ & _ & _ & _ & _ & -> & _ & _ & _ & _ & -> & _).
Qed.

Lemma allocproc_ofile_failure w i p tf k1 ks k2 pt k3 v k4 k5 :
  find_unused (proc w) 0 = inr (Some (i, p)) -> pid_lock w = false ->
  allocpage (km w) = (tf, k1) -> tf <> 0 -> allocpage k1 = (ks, k2) ->
  kvmcreate k2 = (pt, k3) -> pt <> 0 -> vma_list_init pt k3 = (v, k4) -> v <> 0 ->
  kmalloc sz (u32 (NOFILE * 8)) k4 = Ret 0 k5 ->
  allocproc' w = Fail (Panic "proc ofile init").
Proof.
  intros Hf Hl Htf Htf0 Hks Hpt Hpt0 Hv Hv0 Ho.
  rewrite (allocproc_eq w i p Hf Hl). rewrite Htf. cbv zeta.
  rewrite (proj2 (Z.eqb_neq tf 0)) by done. rewrite Hks, Hpt.
  rewrite (proj2 (Z.eqb_neq pt 0)) by done. rewrite Hv.
  rewrite (proj2 (Z.eqb_neq v 0)) by done. by rewrite Ho.
Qed.

(** The stores of allocproc into the new open-file table cover a whole
    page's worth of bytes from its first byte on. *)
Local Transparent zero_ofile.

Lemma zero_ofile_range o m x :
  o <= x < o + PGSIZE -> zero_ofile NOFILE o m x = 0.
Proof.
  intros Hx. unfold zero_ofile, memset.
  rewrite (proj2 (Z.leb_le o x)), (proj2 (Z.ltb_lt x (o + PGSIZE))) by lia. done.
Qed.

Local Opaque zero_ofile.

Lemma allocproc_zero_fill w i w' :
  allocproc' w = Ret (Some i) w' ->
  exists pF, proc w' !! i = Some pF /\ ofile pF <> 0 /\
    forall x, ofile pF <= x < ofile pF + PGSIZE -> mem w' x = 0.
Proof.
  intros (p & pF & Hf & Hproc & _ & _ & _ & _ & Ho & Hmem)%allocproc_Some_inv.
  exists pF. split_and!; [|done|].
  - rewrite Hproc. apply list_lookup_insert_eq.
    apply find_unused_Some in Hf as (j & -> & Hj & _). by apply lookup_lt_Some in Hj.
  - intros x Hx. rewrite Hmem. by apply zero_ofile_range.
Qed.

End ProcFacts.


(** C1 — the code does not do what the claim (and the comment above
    allocproc: "if ... a memory allocation fails, return 0") says.  With one
    free page left, the trapframe page is granted and the kernel-stack page
    is not; allocproc does not look at the result and returns the slot, with
    [kstack = 0] and the saved stack pointer at [PGSIZE].  When the
    open-file table cannot be allocated, allocproc panics.  When the page
    table cannot be built, freeproc hands the trapframe page, which came
    from allocpage, to kfree. *)
Theorem allocproc_allocation_failures :
  freepages (km example_low_memory) = [2147491840] /\
  ret_val (example_allocproc_static example_low_memory) = Some (Some 0%nat) /\
  (fun w => (fun p => (trapframe p, kstack p, sp (context p))) <$> proc w !! 0%nat)
    <$> ret_state (example_allocproc_static example_low_memory)
    = Some (Some (2147491840, 0, 4096)) /\
  ret_fault (example_allocproc (example_kernel 3)) = Some (Panic "proc ofile init") /\
  ret_fault (example_allocproc (example_kernel 2)) = Some Wild.
Proof. split_and!; vm_compute; reflexivity. Qed.

(** C3 — freeproc does not clear the pointers to the kernel stack, the
    signal-action table and the queued signal frames: on a process with all
    three set it returns the slot UNUSED with pid, trapframe and open-file
    table cleared and those three pointers as they were. *)
Theorem freeproc_leaves_pointers :
  match example_process with
  | Some (p, w) =>
    (kstack p, sig_act p, sig_frame p) = (2147495936, 1001, 1002) /\
    (fun p' => (state p', pid p', trapframe p', ofile p',
                kstack p', sig_act p', sig_frame p'))
      <$> ret_val (example_freeproc p w)
      = Some (UNUSED, 0, 0, 0, 2147495936, 1001, 1002)
  | None => False
  end.
Proof. vm_compute. split; reflexivity. Qed.

(** C4 — the zero-filling of the new open-file table is not confined to the
    table: [memset(p->ofile, 0, PGSIZE)] clears a page's worth of bytes from
    the table's first byte on.  With two 128-byte objects next to each other
    in one slab page and the lower one free, allocproc is given the lower
    one and clears the live upper one, and bytes of the following page. *)
Theorem allocproc_zero_fill_overruns :
  let a := 2147487808 in
  let b := a + 128 in
  let w := example_neighbours_kernel in
  let w' := example_neighbours_after in
  fst <$> example_neighbours = Some (a, b) /\
  PGROUNDDOWN b = PGROUNDDOWN a /\ is_live (km w) b /\ mem w b = 170 /\
  mem w (PGROUNDDOWN a + PGSIZE) = 170 /\
  ret_val (example_allocproc w) = Some (Some 0%nat) /\
  ofile <$> proc w' !! 0%nat = Some a /\
  is_live (km w') b /\ mem w' b = 0 /\ mem w' (PGROUNDDOWN a + PGSIZE) = 0.
Proof.
  cbv zeta. split_and!;
    try (apply live_check_live); vm_compute; reflexivity.
Qed.

(** * The slab allocator: well-formed states *)

(** ** Size classes *)

(** [lia] with the powers of two that bound the machine integers. *)
Ltac pow2 :=
  change (2 ^ 8) with 256 in *; change (2 ^ 16) with 65536 in *;
  change (2 ^ 32) with 4294967296 in *;
  change (2 ^ 64) with 18446744073709551616 in *.
Ltac plia := pow2; lia.

Lemma ROUNDUP16_fix : ROUNDUP16 KMEM_NODE_FIX = 32.
Proof. reflexivity. Qed.

Lemma calc_capa_eq rs : _calc_capa rs = 4064 / (rs + 1).
Proof. unfold _calc_capa. by rewrite ROUNDUP16_fix. Qed.

Lemma capa_bounds rs : size_class rs -> 1 <= _calc_capa rs <= 123.
Proof.
  unfold size_class, KMEM_OBJ_MIN_SIZE, KMEM_OBJ_MAX_SIZE. intros [Hr _].
  rewrite calc_capa_eq. split.
  - apply Z.div_le_lower_bound; lia.
  - assert (4064 / (rs + 1) < 124); [|lia]. apply Z.div_lt_upper_bound; lia.
Qed.

Lemma capa_mul rs : 0 <= rs -> _calc_capa rs * (rs + 1) <= 4064.
Proof.
  intros. rewrite calc_capa_eq. pose proof (Z.mul_div_le 4064 (rs + 1)). lia.
Qed.

Lemma ROUNDUP16_bounds n :
  0 <= n < 2 ^ 64 - 15 -> n <= ROUNDUP16 n <= n + 15 /\ ROUNDUP16 n mod 16 = 0.
Proof.
  intros Hn. rewrite ROUNDUP16_eq by done.
  pose proof (Z.div_mod (n + 15) 16 ltac:(lia)).
  pose proof (Z.mod_pos_bound (n + 15) 16 ltac:(lia)).
  split; [lia|]. by rewrite Z.mul_comm, Z.mod_mul.
Qed.

Lemma ROUNDUP16_class size :
  KMEM_OBJ_MIN_SIZE <= size <= KMEM_OBJ_MAX_SIZE -> size_class (ROUNDUP16 size).
Proof.
  unfold size_class, KMEM_OBJ_MIN_SIZE, KMEM_OBJ_MAX_SIZE. intros Hs.
  destruct (ROUNDUP16_bounds size) as [Hb Hm]; [plia|]. split; [|done].
  split; [lia|].
  rewrite ROUNDUP16_eq in * by plia.
  assert ((size + 15) / 16 < 254); [|lia].
  apply Z.div_lt_upper_bound; lia.
Qed.

Lemma ROUNDUP16_id rs : size_class rs -> ROUNDUP16 rs = rs.
Proof.
  unfold size_class, KMEM_OBJ_MIN_SIZE, KMEM_OBJ_MAX_SIZE. intros [Hr Hm].
  rewrite ROUNDUP16_eq by plia.
  pose proof (Z.div_mod rs 16 ltac:(lia)) as Hd. rewrite Hm in Hd.
  assert ((rs + 15) / 16 = rs / 16) as ->; [|lia].
  symmetry. apply (Z.div_unique (rs + 15) 16 (rs / 16) 15); lia.
Qed.

(** The object region of a node ends inside the node's page. *)
Lemma region_fits rs :
  size_class rs ->
  32 <= ROUNDUP16 (KMEM_NODE_FIX + _calc_capa rs) /\
  ROUNDUP16 (KMEM_NODE_FIX + _calc_capa rs) mod 16 = 0 /\
  ROUNDUP16 (KMEM_NODE_FIX + _calc_capa rs) + _calc_capa rs * rs <= PGSIZE.
Proof.
  intros Hc. pose proof (capa_bounds rs Hc) as Hcap.
  destruct Hc as [Hr Hm]. unfold KMEM_OBJ_MIN_SIZE, KMEM_OBJ_MAX_SIZE in Hr.
  pose proof (capa_mul rs ltac:(lia)) as Hmul.
  unfold KMEM_NODE_FIX, PGSIZE. change (8 + 2 * 8 + 2 * 1) with 26.
  set (c := _calc_capa rs) in *.
  destruct (ROUNDUP16_bounds (26 + c)) as [Hb Hm16]; [plia|].
  rewrite ROUNDUP16_eq in * by plia.
  set (q := (26 + c + 15) / 16) in *.
  pose proof (Z.div_mod rs 16 ltac:(lia)) as Hd. rewrite Hm in Hd.
  set (r := rs / 16) in *.
  split; [|split; [done|]].
  - assert (2 <= q); [|lia]. apply Z.div_le_lower_bound; lia.
  - assert (c * rs = 16 * (c * r)) as -> by (rewrite Hd; ring).
    assert (16 * q + 16 * (c * r) <= 4105) by nia.
    lia.
Qed.

(** ** Free lists *)

Lemma fchain_functional t : forall l1 l2 a, fchain t a l1 -> fchain t a l2 -> l1 = l2.
Proof.
  induction l1 as [|i l1 IH]; intros [|j l2] a; simpl.
  - done.
  - intros -> (<- & ? & _). done.
  - intros (<- & ? & _) ->. done.
  - intros (<- & _ & _ & a1 & Ha1 & H1) (<- & _ & _ & a2 & Ha2 & H2).
    rewrite Ha1 in Ha2. injection Ha2 as <-. f_equal. eauto.
Qed.

Lemma fchain_elem t : forall l a i,
  fchain t a l -> i ∈ l -> 0 <= i < Z.of_nat (length t) /\ i <> TABLE_END.
Proof.
  induction l as [|j l IH]; intros a i; simpl; [by intros _ ?%elem_of_nil|].
  intros (<- & Hne & Hpos & a' & Ha' & Hch) [->|Hi]%elem_of_cons; [|by eauto].
  apply lookup_lt_Some in Ha'. split; [lia|done].
Qed.

Lemma NoDup_bounded_length (l : list Z) (n : nat) :
  NoDup l -> (forall i, i ∈ l -> 0 <= i < Z.of_nat n) -> (length l <= n)%nat.
Proof.
  intros Hnd Hb.
  assert (l ⊆+ seqZ 0 (Z.of_nat n)) as Hsub.
  { apply NoDup_submseteq; [done|]. intros i Hi. apply elem_of_seqZ. apply Hb in Hi. lia. }
  apply submseteq_length in Hsub. rewrite length_seqZ in Hsub. lia.
Qed.

Lemma fchain_length t a l : fchain t a l -> NoDup l -> (length l <= length t)%nat.
Proof.
  intros Hch Hnd. apply NoDup_bounded_length; [done|].
  intros i Hi. by apply (fchain_elem t l a i Hch) in Hi as [? _].
Qed.

Lemma free_list_fchain t : forall l a fuel,
  fchain t a l -> (length l <= fuel)%nat -> free_list fuel t a = l.
Proof.
  induction l as [|i l IH]; intros a fuel; simpl.
  - intros -> _. destruct fuel; simpl; [done|]. done.
  - intros (<- & Hne & Hpos & a' & Ha' & Hch) Hlen.
    destruct fuel as [|fuel]; simpl in *; [lia|].
    rewrite (proj2 (Z.eqb_neq a TABLE_END)) by done. rewrite Ha'. f_equal.
    apply IH; [done|lia].
Qed.

Lemma fchain_ext t t' : forall l a,
  (forall i, i ∈ l -> t' !! Z.to_nat i = t !! Z.to_nat i) ->
  fchain t a l -> fchain t' a l.
Proof.
  induction l as [|i l IH]; intros a Hext; simpl; [done|].
  intros (<- & Hne & Hpos & a' & Ha' & Hch). split_and!; try done.
  exists a'. split.
  - rewrite Hext; [done|]. left.
  - apply IH; [|done]. intros j Hj. apply Hext. by right.
Qed.

(** The live objects of a node, by slot index. *)
Lemma elem_of_node_live n fl a :
  fchain (table n) (avail n) fl -> NoDup fl ->
  a ∈ node_live n <->
  exists i, 0 <= i < Z.of_nat (length (table n)) /\ (i ∉ fl) /\ a = slot_addr n i.
Proof.
  intros Hch Hnd. unfold node_live, live_slots, free_slots.
  rewrite (free_list_fchain _ fl) by eauto using fchain_length.
  rewrite list_elem_of_fmap. split.
  - intros (i & -> & [Hi Hin%elem_of_seqZ]%list_elem_of_filter). exists i.
    split_and!; [lia|lia|done|done].
  - intros (i & Hi & Hni & ->). exists i. split; [done|].
    apply list_elem_of_filter. split; [done|]. apply elem_of_seqZ. lia.
Qed.

(** ** The table of a fresh node *)

Lemma foldl_chain_length : forall (l : list Z) (t : list Z),
  length (foldl (fun t i => <[Z.to_nat i := u8 (i + 1)]> t) t l) = length t.
Proof.
  induction l as [|i l IH]; intros t; simpl; [done|]. by rewrite IH, length_insert.
Qed.

Lemma init_table_length capa : 0 <= capa -> Z.of_nat (length (init_table capa)) = capa.
Proof.
  intros. unfold init_table. rewrite length_insert, foldl_chain_length, length_replicate.
  lia.
Qed.

Lemma foldl_chain_lookup : forall (l : list Z) (t : list Z) (j : nat),
  NoDup l -> (forall i, i ∈ l -> 0 <= i) ->
  foldl (fun t i => <[Z.to_nat i := u8 (i + 1)]> t) t l !! j =
    if decide (Z.of_nat j ∈ l /\ (j < length t)%nat) then Some (u8 (Z.of_nat j + 1))
    else t !! j.
Proof.
  induction l as [|i l IH]; intros t j Hnd Hpos; cbn [foldl].
  - rewrite decide_False; [done|]. intros [?%elem_of_nil _]. done.
  - apply NoDup_cons in Hnd as [Hi Hnd].
    rewrite IH by (eauto using list_elem_of_further). rewrite length_insert.
    destruct (decide (Z.of_nat j = i)) as [<-|Hne].
    + rewrite Nat2Z.id. destruct (decide (j < length t)%nat) as [Hlt|Hge].
      * rewrite decide_False by (intros [? _]; done).
        rewrite list_lookup_insert_eq by done.
        rewrite decide_True; [done|]. split; [left|done].
      * rewrite decide_False by (intros [_ ?]; done).
        rewrite decide_False by (intros [_ ?]; done).
        by rewrite list_insert_ge by lia.
    + assert (Z.to_nat i <> j).
      { intros <-. apply Hne. rewrite Z2Nat.id; [done|]. apply Hpos. left. }
      rewrite list_lookup_insert_ne by done.
      destruct (decide (Z.of_nat j ∈ l /\ (j < length t)%nat)) as [[? ?]|Hn].
      * rewrite decide_True; [done|]. split; [by right|done].
      * rewrite decide_False; [done|]. intros [[?|?]%elem_of_cons ?]; [done|]. by apply Hn.
Qed.

Lemma init_table_lookup capa i :
  1 <= capa <= 255 -> 0 <= i < capa ->
  init_table capa !! Z.to_nat i = Some (if decide (i = capa - 1) then TABLE_END else i + 1).
Proof.
  intros Hc Hi. unfold init_table.
  destruct (decide (i = capa - 1)) as [->|Hne].
  - apply list_lookup_insert_eq. rewrite foldl_chain_length, length_replicate. lia.
  - rewrite list_lookup_insert_ne by lia.
    rewrite foldl_chain_lookup.
    + rewrite decide_True.
      * rewrite Z2Nat.id by lia. rewrite u8_small by lia. done.
      * rewrite length_replicate. rewrite Z2Nat.id by lia. split; [|lia].
        apply elem_of_seqZ. lia.
    + apply NoDup_seqZ.
    + intros j Hj%elem_of_seqZ. lia.
Qed.

Lemma init_table_fchain capa : 1 <= capa <= 255 ->
  forall (m : nat) (j : Z), j = capa - Z.of_nat m -> 0 <= j ->
  fchain (init_table capa) (if decide (j = capa) then TABLE_END else j)
         (seqZ j (Z.of_nat m)).
Proof.
  intros Hc. induction m as [|m IH]; intros j Hj Hpos.
  - rewrite decide_True by lia. done.
  - rewrite decide_False by lia. rewrite seqZ_cons by lia. simpl.
    split_and!; [done|unfold TABLE_END; lia|done|].
    eexists. split; [apply init_table_lookup; lia|].
    replace (Z.pred (Z.of_nat (S m))) with (Z.of_nat m) by lia.
    specialize (IH (Z.succ j) ltac:(lia) ltac:(lia)).
    destruct (decide (j = capa - 1)) as [->|Hne].
    + rewrite decide_True in IH by lia. done.
    + rewrite decide_False in IH by lia. replace (j + 1) with (Z.succ j) by lia. done.
Qed.

(** ** Linked lists in the heap *)

Section Chains.
Context (nxt : Z -> option Z).

Lemma cseg_app l1 : forall l2 p q,
  cseg nxt p (l1 ++ l2) q <-> exists m, cseg nxt p l1 m /\ cseg nxt m l2 q.
Proof.
  induction l1 as [|x l1 IH]; intros l2 p q; simpl.
  - split; [eauto|]. by intros (m & -> & ?).
  - split.
    + intros (-> & Hx & r & Hr & (m & ? & ?)%IH). eauto 10.
    + intros (m & (-> & Hx & r & Hr & ?) & ?). split_and!; [done..|].
      exists r. split; [done|]. apply IH. eauto.
Qed.

Lemma cseg_elem l : forall p q x,
  cseg nxt p l q -> x ∈ l -> x <> 0 /\ is_Some (nxt x).
Proof.
  induction l as [|y l IH]; intros p q x; simpl; [by intros _ ?%elem_of_nil|].
  intros (-> & Hy & r & Hr & Hseg) [->|Hx]%elem_of_cons; [eauto|]. eauto.
Qed.

Lemma cseg_functional l1 : forall l2 p,
  cseg nxt p l1 0 -> cseg nxt p l2 0 -> l1 = l2.
Proof.
  induction l1 as [|x l1 IH]; intros [|y l2] p; simpl.
  - done.
  - intros -> (<- & ? & _). done.
  - intros (<- & ? & _) ->. done.
  - intros (<- & _ & r1 & Hr1 & H1) (<- & _ & r2 & Hr2 & H2).
    rewrite Hr1 in Hr2. injection Hr2 as <-. f_equal. eauto.
Qed.

End Chains.

Lemma cseg_ext nxt nxt' l : forall p q,
  (forall x, x ∈ l -> nxt' x = nxt x) -> cseg nxt p l q -> cseg nxt' p l q.
Proof.
  induction l as [|y l IH]; intros p q Hext; simpl; [done|].
  intros (-> & Hy & r & Hr & Hseg). split_and!; [done..|]. exists r. split.
  - rewrite Hext; [done|left].
  - apply IH; [|done]. intros x Hx. apply Hext. by right.
Qed.

(** A chain that does not repeat is no longer than the heap is large. *)
Lemma chain_length_nodes (nd : gmap Z kmem_node) p l :
  nlist nd p l -> NoDup l -> (length l <= size nd)%nat.
Proof.
  intros Hl Hnd.
  assert (list_to_set l ⊆ dom nd) as Hsub.
  { intros x Hx%elem_of_list_to_set. apply elem_of_dom.
    destruct (cseg_elem _ _ _ _ _ Hl Hx) as [_ [r Hr]].
    destruct (nd !! x); [eauto|done]. }
  apply subseteq_size in Hsub. rewrite size_dom in Hsub.
  rewrite size_list_to_set in Hsub by done. done.
Qed.

Lemma chain_length_allocs (al : gmap Z kmem_allocator) p l :
  achain al p l -> NoDup l -> (length l <= size al)%nat.
Proof.
  intros Hl Hnd.
  assert (list_to_set l ⊆ dom al) as Hsub.
  { intros x Hx%elem_of_list_to_set. apply elem_of_dom.
    destruct (cseg_elem _ _ _ _ _ Hl Hx) as [_ [r Hr]].
    destruct (al !! x); [eauto|done]. }
  apply subseteq_size in Hsub. rewrite size_dom in Hsub.
  rewrite size_list_to_set in Hsub by done. done.
Qed.

(** ** The bucket walk of get_allocator *)

Lemma search_allocator_found al rs : forall l p fuel A a,
  achain al p l -> (length l < fuel)%nat ->
  A ∈ l -> al !! A = Some a -> a_obj_size a = rs ->
  (forall B b, B ∈ l -> al !! B = Some b -> a_obj_size b = rs -> B = A) ->
  search_allocator fuel al p rs = inr A.
Proof.
  induction l as [|x l IH]; intros p fuel A a Hch Hfuel HA Ha Hrs Huniq;
    [by apply elem_of_nil in HA|].
  destruct Hch as (-> & Hx & r & Hr & Hch).
  destruct fuel as [|fuel]; simpl in *; [lia|].
  rewrite (proj2 (Z.eqb_neq x 0)) by done.
  destruct (al !! x) as [ax|] eqn:Hax; [|done]. injection Hr as <-.
  destruct (Z.eqb_spec rs (a_obj_size ax)) as [Heq|Hne].
  - f_equal. eapply Huniq; [left|done|done].
  - apply elem_of_cons in HA as [->|HA]; [congruence|].
    eapply IH; eauto; [lia|]. intros B b HB. apply Huniq. by right.
Qed.

Lemma search_allocator_missing al rs : forall l p fuel,
  achain al p l -> (length l < fuel)%nat ->
  (forall B b, B ∈ l -> al !! B = Some b -> a_obj_size b <> rs) ->
  search_allocator fuel al p rs = inr 0.
Proof.
  induction l as [|x l IH]; intros p fuel Hch Hfuel Hnone.
  - unfold achain in Hch. simpl in Hch. subst p. destruct fuel; simpl in *; [lia|done].
  - destruct Hch as (-> & Hx & r & Hr & Hch).
    destruct fuel as [|fuel]; simpl in *; [lia|].
    rewrite (proj2 (Z.eqb_neq x 0)) by done.
    destruct (al !! x) as [ax|] eqn:Hax; [|done]. injection Hr as <-.
    destruct (Z.eqb_spec rs (a_obj_size ax)) as [Heq|Hne].
    + exfalso. eapply Hnone; [left|done|done].
    + apply IH; [done|lia|]. intros B b HB. apply Hnone. by right.
Qed.

(** ** kmalloc and kfree, step by step *)

Lemma kmalloc_locked_head A size k al n a' :
  allocs k !! A = Some al -> a_lock al = false -> a_list al <> 0 ->
  nodes k !! a_list al = Some n -> table n !! Z.to_nat (avail n) = Some a' ->
  kmalloc_locked A size k =
    Ret (u64 (slot_addr n (avail n))) (took A al (a_list al) n a' k).
Proof.
  intros HA Hl HP Hn Ha'. unfold kmalloc_locked. rewrite HA, Hl.
  rewrite (proj2 (Z.eqb_neq (a_list al) 0)) by done. rewrite Hn, Ha'. done.
Qed.

Lemma kmalloc_locked_fresh A size k al P rest :
  allocs k !! A = Some al -> a_lock al = false -> a_list al = 0 ->
  freepages k = P :: rest -> P <> 0 ->
  kmalloc_locked A size k = kmalloc_locked A size (formatted A al P rest size k).
Proof.
  intros HA Hl HL Hfp HP. unfold kmalloc_locked at 1. rewrite HA, Hl, HL.
  change (0 =? 0) with true. cbv iota. unfold allocpage. rewrite Hfp.
  rewrite (proj2 (Z.eqb_neq P 0)) by done. cbn [nodes set_nodes set_freepages].
  rewrite lookup_insert_eq.
  unfold kmalloc_locked, formatted. cbn [allocs nodes set_allocs set_nodes set_freepages].
  rewrite !lookup_insert_eq. cbn [a_lock a_list npages nobjs a_obj_size a_next].
  rewrite Hl. rewrite (proj2 (Z.eqb_neq P 0)) by done.
  cbn [allocs nodes set_allocs set_nodes set_freepages]. rewrite !lookup_insert_eq.
  destruct (table (new_node P size) !! Z.to_nat (avail (new_node P size))); [|done].
  cbn [allocs nodes set_allocs set_nodes set_freepages freepages kmem_table kmem_table_lock].
  rewrite !insert_insert_eq. done.
Qed.

Lemma kmalloc_locked_no_page A size k al :
  allocs k !! A = Some al -> a_lock al = false -> a_list al = 0 ->
  freepages k = [] -> kmalloc_locked A size k = Ret 0 k.
Proof.
  intros HA Hl HL Hfp. unfold kmalloc_locked. rewrite HA, Hl, HL.
  change (0 =? 0) with true. cbv iota. unfold allocpage. by rewrite Hfp.
Qed.

Lemma kfree_locked_eq A P ix k al n :
  allocs k !! A = Some al -> a_lock al = false -> nodes k !! P = Some n ->
  (Z.to_nat ix < length (table n))%nat ->
  kfree_locked A P ix k =
    let k1 := put_back A al P n ix k in
    if 0 =? u8 (cnt n - 1) then
      match allocs k1 !! A, nodes k1 !! P with
      | Some al1, Some n1 => drop_node A al1 P n1 k1
      | _, _ => Fail Wild
      end
    else Ret tt k1.
Proof.
  intros HA Hl Hn Hix. unfold kfree_locked. rewrite HA, Hn, Hl.
  rewrite (proj2 (Nat.ltb_lt _ _)) by done. cbv zeta.
  unfold put_back. cbn [allocs nodes set_allocs set_nodes].
  rewrite !lookup_insert_eq. unfold drop_node.
  cbn [allocs nodes set_allocs set_nodes a_list next cnt a_obj_size npages nobjs a_next
       freepage set_freepages freepages].
  destruct (TABLE_END =? avail n); cbn [negb cnt];
    (destruct (0 =? u8 (cnt n - 1)); [|done]);
    match goal with |- context [find_pprev ?f ?m ?pp ?h ?x] =>
      destruct (find_pprev f m pp h x) as [e|[q|]]; [done|..] end;
    cbn [allocs nodes set_allocs set_nodes freepage set_freepages freepages];
    rewrite ?insert_insert_eq; done.
Qed.

(** ** Objects and pages *)

Lemma slot_bounds adam P n i :
  page_ok adam P -> node_ok P n -> 0 <= i < _calc_capa (obj_size n) ->
  P + 32 <= slot_addr n i /\ slot_addr n i + obj_size n <= P + PGSIZE /\
  slot_addr n i mod 16 = 0 /\ PGROUNDDOWN (slot_addr n i) = P /\
  u64 (slot_addr n i) = slot_addr n i /\ slot_addr n i <> adam /\
  u8 (u64 (slot_addr n i - obj_addr n) / obj_size n) = i.
Proof.
  intros (HP0 & HPal & HP64 & Hadam) [Hcl Haddr _ _] Hi.
  destruct (region_fits _ Hcl) as (HR32 & HR16 & HRfit).
  pose proof (capa_bounds _ Hcl) as Hcap.
  destruct Hcl as [Hrs Hrs16]. unfold KMEM_OBJ_MIN_SIZE, KMEM_OBJ_MAX_SIZE in Hrs.
  unfold slot_addr. rewrite Haddr.
  set (R := ROUNDUP16 (KMEM_NODE_FIX + _calc_capa (obj_size n))) in *.
  set (rs := obj_size n) in *. set (c := _calc_capa rs) in *.
  unfold PGSIZE in *.
  assert (0 <= i * rs /\ i * rs + rs <= c * rs) as [? ?] by nia.
  assert (P + 32 <= P + R + i * rs /\ P + R + i * rs + rs <= P + 4096) as [Hlo Hhi] by lia.
  split; [done|]. split; [done|]. split_and!.
  - pose proof (Z.div_mod P 4096 ltac:(lia)) as HdP. rewrite HPal in HdP.
    pose proof (Z.div_mod R 16 ltac:(lia)) as HdR. rewrite HR16 in HdR.
    pose proof (Z.div_mod rs 16 ltac:(lia)) as Hdr. rewrite Hrs16 in Hdr.
    replace (P + R + i * rs) with ((256 * (P / 4096) + R / 16 + i * (rs / 16)) * 16) by lia.
    apply Z.mod_mul. lia.
  - apply PGROUNDDOWN_within; unfold PGSIZE; [done|lia].
  - apply u64_small. plia.
  - lia.
  - replace (P + R + i * rs - (P + R)) with (i * rs) by lia.
    rewrite u64_small by plia. rewrite Z.div_mul by lia. apply u8_small. lia.
Qed.

Lemma slot_addr_inj n i j : 0 < obj_size n -> slot_addr n i = slot_addr n j -> i = j.
Proof. unfold slot_addr. intros. nia. Qed.

Lemma node_live_intro P n fl i :
  node_ok P n -> fchain (table n) (avail n) fl -> NoDup fl ->
  0 <= i < _calc_capa (obj_size n) -> i ∉ fl -> slot_addr n i ∈ node_live n.
Proof.
  intros Hok Hch Hnd Hi Hni. apply (elem_of_node_live n fl); [done..|].
  exists i. rewrite (nk_len _ _ Hok). done.
Qed.

Lemma node_live_elim P n fl a :
  node_ok P n -> fchain (table n) (avail n) fl -> NoDup fl -> a ∈ node_live n ->
  exists i, 0 <= i < _calc_capa (obj_size n) /\ (i ∉ fl) /\ a = slot_addr n i.
Proof.
  intros Hok Hch Hnd Ha. apply (elem_of_node_live n fl) in Ha as (i & Hi & ? & ?); [|done..].
  exists i. rewrite (nk_len _ _ Hok) in Hi. done.
Qed.

(** A live object lies in the page of its node, which is the page its
    address rounds down to. *)
Lemma live_at_page adam k P a :
  pages_ok adam k -> live_at k P a ->
  P + 32 <= a /\ a < P + PGSIZE /\ a mod 16 = 0 /\ PGROUNDDOWN a = P /\ a <> adam /\
  a <> 0.
Proof.
  intros Hpg (n & Hn & Ha).
  destruct (pg_nodes _ _ Hpg _ _ Hn) as (Hpage & _ & Hok).
  destruct (nk_free _ _ Hok) as (fl & Hch & Hnd & _).
  destruct (node_live_elim P n fl a) as (i & Hi & _ & ->); [done..|].
  destruct (slot_bounds adam P n i) as (? & ? & ? & ? & ? & ? & ?); [done..|].
  destruct (nk_class _ _ Hok) as [[? _] _]. unfold KMEM_OBJ_MIN_SIZE in *.
  destruct Hpage as (? & _). split_and!; try done; lia.
Qed.

Lemma live_at_unique adam k P Q a :
  pages_ok adam k -> live_at k P a -> live_at k Q a -> P = Q.
Proof.
  intros Hpg HP HQ.
  apply (live_at_page adam) in HP as (_ & _ & _ & <- & _); [|done].
  apply (live_at_page adam) in HQ as (_ & _ & _ & <- & _); done.
Qed.

(** Liveness is read off the nodes alone. *)
Lemma is_live_nodes k k' a : nodes k' = nodes k -> is_live k' a <-> is_live k a.
Proof. unfold is_live, live_at. by intros ->. Qed.

(** ** Frames: what a step leaves as it was *)

(** An instance rewritten in place, class and bucket link kept. *)
Lemma dir_update adam sz al tb A a a' :
  dir_ok adam sz al tb -> al !! A = Some a ->
  a_obj_size a' = a_obj_size a -> a_next a' = a_next a -> a_lock a' = false ->
  dir_ok adam sz (<[A := a']> al) tb.
Proof.
  intros [Hal Hun Hbk Hlen Had] HA Hsz Hnx Hlk.
  assert (forall B b', <[A := a']> al !! B = Some b' ->
            exists b, al !! B = Some b /\ a_obj_size b' = a_obj_size b /\
                      a_next b' = a_next b /\ a_lock b' = false) as Hold.
  { intros B b'. rewrite lookup_insert. case_decide as HB.
    - subst B. intros [= <-]. eauto.
    - intros Hb. exists b'. destruct (Hal _ _ Hb) as (_ & ? & _). done. }
  assert (forall B b, al !! B = Some b ->
            exists b', <[A := a']> al !! B = Some b' /\ a_obj_size b' = a_obj_size b) as Hnew.
  { intros B b Hb. rewrite lookup_insert. case_decide as HB.
    - subst B. rewrite HA in Hb. injection Hb as <-. eauto.
    - eauto. }
  split.
  - intros B b' (b & Hb & Hs & _ & Hl)%Hold. destruct (Hal _ _ Hb) as (? & _ & ?).
    rewrite Hs. done.
  - intros B B' b b' (b0 & Hb0 & Hs0 & _)%Hold (b1 & Hb1 & Hs1 & _)%Hold Heq.
    eapply Hun; [done..|]. congruence.
  - intros bk head Hhead. destruct (Hbk _ _ Hhead) as (cl & Hch & Hnd & Hmem).
    exists cl. split_and!; [|done|].
    + eapply cseg_ext; [|exact Hch]. intros x _. simpl.
      rewrite lookup_insert. case_decide as Hx; [|done]. subst x.
      rewrite HA. simpl. by rewrite Hnx.
    + intros B. rewrite Hmem. split.
      * intros (b & Hb & Hh). destruct (Hnew _ _ Hb) as (b' & Hb' & Hs'). exists b'.
        by rewrite Hs'.
      * intros (b' & (b & Hb & Hs & _)%Hold & Hh). exists b. by rewrite <- Hs.
  - done.
  - destruct Had as (b & Hb & Hs). destruct (Hnew _ _ Hb) as (b' & Hb' & Hs').
    exists b'. by rewrite Hs'.
Qed.

(** The list of an allocator of another class does not see a change that
    is confined to the nodes of class [rs]. *)
Lemma lists_frame (nd nd' : gmap Z kmem_node) (lst size0 rs : Z) :
  size0 <> rs ->
  (forall Q m, nd !! Q = Some m -> obj_size m <> rs -> nd' !! Q = Some m) ->
  (forall Q m, nd' !! Q = Some m -> obj_size m <> rs -> nd !! Q = Some m) ->
  (exists nl, nlist nd lst nl /\ NoDup nl /\
     forall P, P ∈ nl <->
       exists n, nd !! P = Some n /\ obj_size n = size0 /\ avail n <> TABLE_END) ->
  (exists nl, nlist nd' lst nl /\ NoDup nl /\
     forall P, P ∈ nl <->
       exists n, nd' !! P = Some n /\ obj_size n = size0 /\ avail n <> TABLE_END).
Proof.
  intros Hne Hto Hfrom (nl & Hl & Hnd & Hmem). exists nl. split_and!; [|done|].
  - eapply cseg_ext; [|exact Hl]. intros x Hx. simpl.
    apply Hmem in Hx as (n & Hn & Hs & _).
    rewrite Hn. erewrite Hto; [done..|]. congruence.
  - intros P. rewrite Hmem. split.
    + intros (n & Hn & Hs & Ha). exists n. split_and!; [|done..].
      apply Hto; [done|congruence].
    + intros (n & Hn & Hs & Ha). exists n. split_and!; [|done..].
      apply Hfrom; [done|congruence].
Qed.

(** One node rewritten in place. *)
Lemma insert_node_other (nd : gmap Z kmem_node) P n n' rs :
  nd !! P = Some n -> obj_size n = rs -> obj_size n' = rs ->
  (forall Q m, nd !! Q = Some m -> obj_size m <> rs -> <[P := n']> nd !! Q = Some m) /\
  (forall Q m, <[P := n']> nd !! Q = Some m -> obj_size m <> rs -> nd !! Q = Some m).
Proof.
  intros HP Hs Hs'. split; intros Q m; rewrite lookup_insert; case_decide as HQ.
  - subst Q. rewrite HP. intros [= <-]. done.
  - done.
  - intros [= <-]. done.
  - done.
Qed.

Lemma pages_ok_insert adam k P n n' :
  pages_ok adam k -> nodes k !! P = Some n -> node_ok P n' ->
  pages_ok adam (set_nodes (<[P := n']> (nodes k)) k).
Proof.
  intros [Hnd Hfp Hnodes] HP Hok. split; [done..|].
  intros Q m. cbn [nodes set_nodes freepages]. rewrite lookup_insert. case_decide as HQ.
  - subst Q. intros [= <-]. destruct (Hnodes _ _ HP) as (? & ? & _). done.
  - apply Hnodes.
Qed.

(** ** A slot taken from the node at the head of the list *)

Section Took.
Context (adam sz : Z) (k : kstate) (A : Z) (al : kmem_allocator) (n : kmem_node).
Context (i a' : Z) (fl' nl' : list Z).
Let P := a_list al.
Context (Hshape : kmem_shape adam sz k).
Context (HA : allocs k !! A = Some al) (HP : nodes k !! P = Some n).
Context (Hsize : obj_size n = a_obj_size al).
Context (Hnl : nlist (nodes k) (next n) nl') (Hnd : NoDup (P :: nl')).
Context (Hmem : forall Q, Q ∈ P :: nl' <->
  exists m, nodes k !! Q = Some m /\ obj_size m = a_obj_size al /\ avail m <> TABLE_END).
Context (Hav : avail n = i) (Hi : i <> TABLE_END) (Hi0 : 0 <= i).
Context (Ha' : table n !! Z.to_nat i = Some a') (Hch : fchain (table n) a' fl').
Context (Hfl : NoDup (i :: fl')).
Context (Hcnt : cnt n = _calc_capa (obj_size n) - Z.of_nat (length (i :: fl'))).

Let n' := mk_kmem_node (next n) (obj_size n) (obj_addr n) a' (u8 (cnt n + 1)) (table n).
Let k' := took A al P n a' k.

Local Lemma took_nodes : nodes k' = <[P := n']> (nodes k).
Proof. done. Qed.

Let al' := mk_kmem_allocator false (a_obj_size al) (npages al) (u16 (nobjs al + 1))
              (if TABLE_END =? a' then next n else P) (a_next al).

Local Lemma took_allocs : allocs k' = <[A := al']> (allocs k).
Proof. done. Qed.

Local Lemma took_chain : fchain (table n) (avail n) (i :: fl').
Proof. rewrite Hav. simpl. split_and!; [done..|]. eauto. Qed.

Local Lemma took_node_ok : node_ok P n /\ page_ok adam P.
Proof.
  destruct Hshape as (Hpg & _). destruct (pg_nodes _ _ Hpg _ _ HP) as (? & _ & ?). done.
Qed.

Local Lemma took_index : 0 <= i < _calc_capa (obj_size n).
Proof.
  destruct took_node_ok as [Hok _]. rewrite <- (nk_len _ _ Hok).
  apply lookup_lt_Some in Ha'. lia.
Qed.

Local Lemma took_node_ok' : node_ok P n' /\ cnt n' = cnt n + 1.
Proof.
  destruct took_node_ok as [Hok _]. pose proof took_index.
  pose proof (fchain_length _ _ _ took_chain Hfl) as Hlen.
  pose proof (nk_len _ _ Hok) as Hl. pose proof (capa_bounds _ (nk_class _ _ Hok)).
  assert (u8 (cnt n + 1) = cnt n + 1) as Hu.
  { apply u8_small. rewrite Hcnt. simpl length in *. lia. }
  split; [|done]. destruct Hok as [Hc Had Hln _]. split; simpl; [done..|].
  exists fl'. split_and!; [done|by apply NoDup_cons in Hfl as [_ ?]|].
  rewrite Hu, Hcnt. simpl length. lia.
Qed.

Local Lemma took_live_node b :
  b ∈ node_live n' <-> b = slot_addr n i \/ b ∈ node_live n.
Proof.
  destruct took_node_ok as [Hok _]. destruct took_node_ok' as [Hok' _].
  pose proof took_index as Hix. apply NoDup_cons in Hfl as Hfl2. destruct Hfl2 as [Hni Hfl2].
  split.
  - intros Hb. destruct (node_live_elim P n' fl' b) as (j & Hj & Hnj & ->); [done..|].
    destruct (decide (j = i)) as [->|Hne]; [by left|]. right.
    apply (node_live_intro P n (i :: fl') j); [done|apply took_chain|done|done|].
    intros [?|?]%elem_of_cons; done.
  - intros [->|Hb].
    + by apply (node_live_intro P n' fl' i).
    + destruct (node_live_elim P n (i :: fl') b) as (j & Hj & Hnj & ->);
        [done|apply took_chain|done..|].
      apply (node_live_intro P n' fl' j); [done..|].
      intros ?. apply Hnj. by right.
Qed.

Lemma took_live b : is_live k' b <-> b = slot_addr n i \/ is_live k b.
Proof.
  unfold is_live, live_at. rewrite took_nodes. split.
  - intros (Q & m & Hm & Hb). revert Hm. rewrite lookup_insert. case_decide as HQ.
    + intros [= <-]. apply took_live_node in Hb as [?|?]; [by left|]. right. subst Q. eauto.
    + intros Hm. right. eauto.
  - intros [->|(Q & m & Hm & Hb)].
    + exists P, n'. rewrite lookup_insert_eq. split; [done|]. apply took_live_node. by left.
    + destruct (decide (Q = P)) as [->|HQ].
      * exists P, n'. rewrite lookup_insert_eq. split; [done|]. apply took_live_node.
        right. rewrite HP in Hm. by injection Hm as <-.
      * exists Q, m. by rewrite lookup_insert_ne.
Qed.

Lemma took_fresh : ~ is_live k (slot_addr n i).
Proof.
  destruct Hshape as (Hpg & _). destruct took_node_ok as [Hok Hpage].
  intros (Q & Hlive).
  pose proof (live_at_page _ _ _ _ Hpg Hlive) as (_ & _ & _ & HQ & _).
  destruct (slot_bounds adam P n i Hpage Hok took_index) as (_ & _ & _ & HPQ & _).
  rewrite HPQ in HQ. subst Q. destruct Hlive as (m & Hm & Hb).
  rewrite HP in Hm. injection Hm as <-.
  destruct (node_live_elim P n (i :: fl') (slot_addr n i)) as (j & Hj & Hnj & Heq);
    [done|apply took_chain|done..|].
  apply slot_addr_inj in Heq.
  - subst j. apply Hnj. left.
  - destruct (nk_class _ _ Hok) as [[? _] _]. unfold KMEM_OBJ_MIN_SIZE in *. lia.
Qed.

Lemma took_shape : kmem_shape adam sz k'.
Proof.
  destruct Hshape as (Hpg & Hdir & Hlk). destruct took_node_ok' as [Hok' _].
  split_and!.
  - apply (pages_ok_insert adam (set_allocs _ k) P n n'); [|done..].
    destruct Hpg. by split.
  - apply (dir_update adam sz (allocs k) (kmem_table k) A al); done.
  - destruct Hlk as [Hclass Hlists Hlive]. split.
    + intros Q m. rewrite took_nodes, lookup_insert. case_decide as HQ.
      * intros [= <-]. exists A, al'. rewrite took_allocs, lookup_insert_eq.
        split; [done|]. simpl. congruence.
      * intros (B & b & Hb & Hs)%Hclass. rewrite took_allocs.
        destruct (decide (B = A)) as [->|HB].
        -- exists A, al'. rewrite lookup_insert_eq. split; [done|]. simpl. congruence.
        -- exists B, b. by rewrite lookup_insert_ne.
    + intros B b. rewrite took_allocs, lookup_insert. case_decide as HB.
      * intros [= <-]. cbn [a_list a_obj_size al']. rewrite took_nodes.
        assert (nlist (<[P := n']> (nodes k)) (next n) nl') as Hnl2.
        { eapply cseg_ext; [|exact Hnl]. intros x Hx. simpl.
          rewrite lookup_insert_ne; [done|]. intros <-. by apply NoDup_cons in Hnd as [? _]. }
        assert (forall Q, Q <> P -> Q ∈ nl' <->
                  exists m, <[P := n']> (nodes k) !! Q = Some m /\
                    obj_size m = a_obj_size al /\ avail m <> TABLE_END) as Hother.
        { intros Q HQ. rewrite lookup_insert_ne by done. rewrite <- Hmem.
          rewrite elem_of_cons. split; [by right|by intros [?|?]]. }
        destruct (Z.eqb_spec TABLE_END a') as [Heq|Hne2].
        -- exists nl'. split_and!; [done|by apply NoDup_cons in Hnd as [_ ?]|].
           intros Q. destruct (decide (Q = P)) as [->|HQ]; [|by apply Hother].
           rewrite lookup_insert_eq. split.
           ++ intros ?. by apply NoDup_cons in Hnd as [? _].
           ++ intros (m & [= <-] & _ & Hm). simpl in Hm. congruence.
        -- exists (P :: nl'). split_and!; [|done|].
           ++ split_and!; [done| |].
              ** intros HP0. destruct took_node_ok as [_ (? & _)]. lia.
              ** exists (next n). simpl. rewrite lookup_insert_eq. done.
           ++ intros Q. destruct (decide (Q = P)) as [->|HQ].
              ** rewrite lookup_insert_eq. split; [|intros; left].
                 intros _. exists n'. simpl. split_and!; [done|done|congruence].
              ** rewrite <- Hother by done. rewrite elem_of_cons.
                 split; [by intros [?|?]|by right].
      * intros Hb. rewrite took_nodes.
        destruct (insert_node_other (nodes k) P n n' (a_obj_size al)) as [Hto Hfrom];
          [done..|].
        apply (lists_frame (nodes k) _ (a_list b) (a_obj_size b) (a_obj_size al));
          [|exact Hto|exact Hfrom|exact (Hlists B b Hb)].
        intros Heq. apply HB. by eapply (dir_unique adam sz _ _ Hdir A B al b).
    + intros B b. rewrite took_allocs. intros Hb.
      assert (exists b0, allocs k !! B = Some b0) as [b0 Hb0].
      { revert Hb. rewrite lookup_insert. case_decide; [subst; eauto|eauto]. }
      destruct (Hlive _ _ Hb0) as [?|?]; [by left|]. right. apply took_live. by right.
Qed.

Lemma took_cnt_ok :
  (forall Q m, Q <> P -> nodes k !! Q = Some m -> 1 <= cnt m) ->
  forall Q m, nodes k' !! Q = Some m -> 1 <= cnt m.
Proof.
  intros Hold Q m. rewrite took_nodes, lookup_insert. case_decide as HQ; [|by apply Hold].
  intros [= <-]. destruct took_node_ok' as [_ ->]. destruct took_node_ok as [Hok _].
  pose proof (fchain_length _ _ _ took_chain Hfl). pose proof (nk_len _ _ Hok). lia.
Qed.

Lemma took_frame :
  (forall B, a_obj_size <$> allocs k' !! B = a_obj_size <$> allocs k !! B) /\
  (forall Q m, obj_size m <> a_obj_size al ->
     nodes k' !! Q = Some m <-> nodes k !! Q = Some m) /\
  size (nodes k') = size (nodes k).
Proof.
  split_and!.
  - intros B. rewrite took_allocs, lookup_insert. case_decide as HB; [|done].
    subst B. by rewrite HA.
  - intros Q m Hm. rewrite took_nodes, lookup_insert. case_decide as HQ; [|done].
    subst Q. rewrite HP. split; intros [= <-]; simpl in Hm; congruence.
  - rewrite took_nodes. apply map_size_insert_Some. by rewrite HP.
Qed.

Lemma took_at :
  nodes k' !! P = Some n' /\ slot_addr n i ∈ node_live n' /\ obj_size n' = obj_size n.
Proof.
  rewrite took_nodes, lookup_insert_eq. split_and!; [done| |done].
  apply took_live_node. by left.
Qed.

End Took.

(** The node at the head of a list that is not empty. *)
Lemma list_head adam sz k A al :
  kmem_shape adam sz k -> allocs k !! A = Some al -> a_list al <> 0 ->
  exists n nl' a' fl',
    nodes k !! a_list al = Some n /\ obj_size n = a_obj_size al /\
    nlist (nodes k) (next n) nl' /\ NoDup (a_list al :: nl') /\
    (forall Q, Q ∈ a_list al :: nl' <->
       exists m, nodes k !! Q = Some m /\ obj_size m = a_obj_size al /\
                 avail m <> TABLE_END) /\
    avail n <> TABLE_END /\ 0 <= avail n /\
    table n !! Z.to_nat (avail n) = Some a' /\ fchain (table n) a' fl' /\
    NoDup (avail n :: fl') /\
    cnt n = _calc_capa (obj_size n) - Z.of_nat (length (avail n :: fl')).
Proof.
  intros (Hpg & Hdir & Hlk) HA HP.
  destruct (lk_lists _ _ Hlk _ _ HA) as (nl & Hnl & Hnd & Hmem).
  destruct nl as [|P nl']; [done|].
  destruct Hnl as (HPeq & _ & r & Hr & Hnl). rewrite <- HPeq in *. clear HPeq P.
  simpl in Hr. destruct (nodes k !! a_list al) as [n|] eqn:Hn; [|done].
  injection Hr as <-.
  destruct (proj1 (Hmem (a_list al))) as (n0 & Hn0 & Hs & Hav); [left|].
  rewrite Hn in Hn0. injection Hn0 as <-.
  destruct (pg_nodes _ _ Hpg _ _ Hn) as (_ & _ & Hok).
  destruct (nk_free _ _ Hok) as (fl & Hch & Hfl & Hcnt).
  destruct fl as [|i fl']; [done|].
  destruct Hch as (Hi & Hne & Hpos & a' & Ha' & Hch). rewrite <- Hi in *.
  exists n, nl', a', fl'. split_and!; done.
Qed.

(** ** A fresh page formatted as a node *)

Section Formatted.
Context (adam sz : Z) (k : kstate) (A : Z) (al : kmem_allocator).
Context (P : Z) (rest : list Z) (size : Z).
Context (Hshape : kmem_shape adam sz k).
Context (HA : allocs k !! A = Some al) (Hlist : a_list al = 0).
Context (Hfp : freepages k = P :: rest).
Context (Hrs : a_obj_size al = ROUNDUP16 size).

Let k' := formatted A al P rest size k.
Let rs := a_obj_size al.

Local Lemma fmt_class : size_class rs /\ u32 (ROUNDUP16 size) = rs /\
  u8 (_calc_capa rs) = _calc_capa rs /\ 1 <= _calc_capa rs <= 123.
Proof.
  destruct Hshape as (_ & Hdir & _). destruct (dir_allocs _ _ _ _ Hdir _ _ HA) as (_ & _ & Hc).
  pose proof (capa_bounds _ Hc). split; [done|]. unfold rs in *. rewrite <- Hrs.
  destruct Hc as [[? ?] _]. unfold KMEM_OBJ_MIN_SIZE, KMEM_OBJ_MAX_SIZE in *.
  split; [apply u32_small; plia|]. split; [apply u8_small; lia|done].
Qed.

Local Lemma fmt_page : page_ok adam P /\ (P ∉ rest) /\ nodes k !! P = None /\ P <> 0.
Proof.
  destruct Hshape as (Hpg & _). destruct Hpg as [Hnd Hfree Hnodes].
  rewrite Hfp in *. apply NoDup_cons in Hnd as [? ?].
  assert (page_ok adam P) as Hpage by (apply Hfree; left).
  split_and!; [done|done| |destruct Hpage; lia].
  destruct (nodes k !! P) as [m|] eqn:Hm; [|done].
  destruct (Hnodes _ _ Hm) as (_ & Hn & _). destruct Hn. left.
Qed.

Lemma fmt_node :
  new_node P size =
    mk_kmem_node 0 rs (P + ROUNDUP16 (KMEM_NODE_FIX + _calc_capa rs)) 0 0
                 (init_table (_calc_capa rs)).
Proof.
  destruct fmt_class as (Hc & Hu32 & Hu8 & Hcap). destruct fmt_page as ((? & ? & ? & ?) & _).
  unfold new_node. rewrite Hu32, Hu8. f_equal.
  destruct (region_fits _ Hc) as (? & _ & ?). unfold PGSIZE in *.
  apply u64_small. pose proof (capa_bounds _ Hc). destruct Hc as [[? ?] _].
  unfold KMEM_OBJ_MIN_SIZE, KMEM_OBJ_MAX_SIZE in *. pow2. nia.
Qed.

Lemma fmt_node_ok : node_ok P (new_node P size) /\
  fchain (table (new_node P size)) 0 (seqZ 0 (_calc_capa rs)).
Proof.
  destruct fmt_class as (Hc & Hu32 & Hu8 & Hcap). rewrite fmt_node.
  assert (fchain (init_table (_calc_capa rs)) 0 (seqZ 0 (_calc_capa rs))) as Hch.
  { pose proof (init_table_fchain (_calc_capa rs) ltac:(lia)
                  (Z.to_nat (_calc_capa rs)) 0 ltac:(lia) ltac:(lia)) as H.
    rewrite decide_False in H by lia. by rewrite Z2Nat.id in H by lia. }
  split; [|done]. split; simpl; [done|done|apply init_table_length; lia|].
  exists (seqZ 0 (_calc_capa rs)). split_and!; [done|apply NoDup_seqZ|].
  rewrite length_seqZ. lia.
Qed.

Lemma fmt_no_live b : b ∉ node_live (new_node P size).
Proof.
  destruct fmt_node_ok as [Hok Hch]. intros Hb.
  destruct (node_live_elim P _ _ b Hok Hch (NoDup_seqZ _ _) Hb) as (i & Hi & Hni & _).
  apply Hni. apply elem_of_seqZ. rewrite fmt_node in Hi. simpl in Hi. lia.
Qed.

Lemma fmt_live b : is_live k' b <-> is_live k b.
Proof.
  destruct fmt_page as (_ & _ & Hnone & _).
  unfold is_live, live_at, k', formatted. cbn [nodes set_allocs set_nodes]. split.
  - intros (Q & m & Hm & Hb). revert Hm. rewrite lookup_insert. case_decide as HQ.
    + intros [= <-]. by apply fmt_no_live in Hb.
    + eauto.
  - intros (Q & m & Hm & Hb). exists Q, m. rewrite lookup_insert_ne; [done|].
    intros <-. congruence.
Qed.

Lemma fmt_shape : kmem_shape adam sz k'.
Proof.
  destruct Hshape as (Hpg & Hdir & Hlk). destruct fmt_page as (Hpage & Hrest & Hnone & HP0).
  destruct fmt_node_ok as [Hok _].
  assert (obj_size (new_node P size) = rs) as Hns by (by rewrite fmt_node).
  split_and!.
  - destruct Hpg as [Hnd Hfree Hnodes]. rewrite Hfp in *. apply NoDup_cons in Hnd as [? ?].
    split; unfold k', formatted; cbn [freepages nodes set_allocs set_nodes set_freepages].
    + done.
    + intros p Hp. apply Hfree. by right.
    + intros Q m. rewrite lookup_insert. case_decide as HQ.
      * intros [= <-]. subst Q. done.
      * intros Hm. destruct (Hnodes _ _ Hm) as (? & Hni & ?). split_and!; [done| |done].
        intros ?. apply Hni. by right.
  - apply (dir_update adam sz (allocs k) (kmem_table k) A al); [done..|].
    by destruct (dir_allocs _ _ _ _ Hdir _ _ HA) as (_ & ? & _).
  - destruct Hlk as [Hclass Hlists Hlive].
    split; unfold k', formatted; cbn [allocs nodes set_allocs set_nodes set_freepages].
    + intros Q m. rewrite lookup_insert. case_decide as HQ.
      * intros [= <-]. eexists A, _. rewrite lookup_insert_eq. split; [done|]. cbn [a_obj_size].
        by rewrite Hns.
      * intros (B & b & Hb & Hs)%Hclass. destruct (decide (B = A)) as [->|HB].
        -- eexists A, _. rewrite lookup_insert_eq. split; [done|]. simpl. congruence.
        -- exists B, b. by rewrite lookup_insert_ne.
    + intros B b. rewrite lookup_insert. case_decide as HB.
      * intros [= <-]. cbn [a_list a_obj_size]. exists [P]. split_and!.
        -- split_and!; [done|done|]. exists 0. simpl. rewrite lookup_insert_eq.
           by rewrite fmt_node.
        -- apply NoDup_singleton.
        -- intros Q. rewrite list_elem_of_singleton, lookup_insert. split.
           ++ intros ->. rewrite decide_True by done. eexists. split; [done|].
              rewrite fmt_node. simpl. unfold TABLE_END. split; [done|lia].
           ++ case_decide as HQ; [done|]. intros (m & Hm & Hs & Hav). exfalso.
              destruct (Hlists _ _ HA) as (nl & Hnl & _ & Hmem).
              rewrite Hlist in Hnl. destruct nl as [|x nl]; [|by destruct Hnl as (? & ? & _)].
              eapply elem_of_nil. apply Hmem. eauto.
      * intros Hb.
        apply (lists_frame (nodes k) _ (a_list b) (a_obj_size b) rs);
          [| | |exact (Hlists B b Hb)].
        -- intros Heq. apply HB. by eapply (dir_unique adam sz _ _ Hdir A B al b).
        -- intros Q m Hm Hsm. rewrite lookup_insert_ne; [done|]. intros <-. congruence.
        -- intros Q m. rewrite lookup_insert. case_decide; [|done].
           intros [= <-]. done.
    + intros B b Hb.
      assert (exists b0, allocs k !! B = Some b0) as [b0 Hb0].
      { revert Hb. rewrite lookup_insert. case_decide; [subst; eauto|eauto]. }
      destruct (Hlive _ _ Hb0) as [?|?]; [by left|]. right. by apply fmt_live.
Qed.

Lemma fmt_frame :
  (forall B, a_obj_size <$> allocs k' !! B = a_obj_size <$> allocs k !! B) /\
  (forall Q m, obj_size m <> rs ->
     nodes k' !! Q = Some m <-> nodes k !! Q = Some m) /\
  (forall Q, Q <> P -> nodes k' !! Q = nodes k !! Q) /\
  base.size (nodes k') = S (base.size (nodes k)) /\ P <> 0.
Proof.
  destruct fmt_page as (_ & _ & Hnone & HP0).
  unfold k', formatted. cbn [allocs nodes set_allocs set_nodes set_freepages].
  split_and!.
  - intros B. rewrite lookup_insert. case_decide as HB; [|done]. subst B. by rewrite HA.
  - intros Q m Hm. rewrite lookup_insert. case_decide as HQ; [|done]. subst Q.
    rewrite Hnone. split; [|done]. intros [= <-]. rewrite fmt_node in Hm. done.
  - intros Q HQ. by rewrite lookup_insert_ne.
  - by apply map_size_insert_None.
  - done.
Qed.

End Formatted.

(** ** The critical section of kmalloc *)

(** With a node on the list, its first free slot is handed out. *)
Lemma kmalloc_locked_take adam sz k A al size :
  kmem_shape adam sz k -> allocs k !! A = Some al -> a_list al <> 0 ->
  (forall Q m, Q <> a_list al -> nodes k !! Q = Some m -> 1 <= cnt m) ->
  exists n a',
    nodes k !! a_list al = Some n /\ table n !! Z.to_nat (avail n) = Some a' /\
    kmalloc_locked A size k =
      Ret (slot_addr n (avail n)) (took A al (a_list al) n a' k) /\
    slot_addr n (avail n) <> 0 /\
    allocated adam sz (a_obj_size al) k (slot_addr n (avail n))
              (took A al (a_list al) n a' k).
Proof.
  intros Hshape HA HP Hcnt.
  destruct (list_head _ _ _ _ _ Hshape HA HP)
    as (n & nl' & a' & fl' & Hn & Hs & Hnl & Hnd & Hmem & Hav & Hav0 & Ha' & Hch & Hfl & Hc).
  exists n, a'. split_and!; [done|done| | |].
  - rewrite (kmalloc_locked_head A size k al n a'); [|done| |done..].
    + f_equal. destruct Hshape as (Hpg & _).
      destruct (pg_nodes _ _ Hpg _ _ Hn) as (Hpage & _ & Hok).
      apply (slot_bounds adam (a_list al) n (avail n) Hpage Hok).
      rewrite <- (nk_len _ _ Hok). apply lookup_lt_Some in Ha'. lia.
    + destruct Hshape as (_ & Hdir & _). by destruct (dir_allocs _ _ _ _ Hdir _ _ HA) as (_ & ? & _).
  - destruct Hshape as (Hpg & _).
    destruct (pg_nodes _ _ Hpg _ _ Hn) as (Hpage & _ & Hok).
    assert (0 <= avail n < _calc_capa (obj_size n)) as Hix.
    { rewrite <- (nk_len _ _ Hok). apply lookup_lt_Some in Ha'. lia. }
    destruct (slot_bounds adam (a_list al) n (avail n) Hpage Hok Hix) as (? & _).
    destruct Hpage as (? & _). lia.
  - destruct (took_frame k A al n a') as (Hfa & Hfn & Hsz); [done..|].
    split.
    + by eapply (took_shape adam sz k A al n (avail n) a' fl' nl').
    + intros Q m. by eapply (took_cnt_ok adam sz k A al n (avail n) a' fl').
    + by eapply (took_fresh adam sz k al n (avail n) a' fl').
    + by eapply (took_live adam sz k A al n (avail n) a' fl').
    + done.
    + done.
    + done.
    + done.
    + change (freepages (took A al (a_list al) n a' k)) with (freepages k). by rewrite Hsz.
    + change (freepages (took A al (a_list al) n a' k)) with (freepages k). lia.
    + destruct (took_at adam sz k A al n (avail n) a' fl') as (? & ? & ?); [done..|].
      eexists _, _. split_and!; [done| |done]. simpl. congruence.
Qed.

(** With an empty list and a free page, the page is formatted as a node and
    its first slot handed out; without a free page the call gives up. *)
Lemma kmalloc_locked_spec adam sz k A al size :
  kmem_shape adam sz k -> cnt_ok k -> allocs k !! A = Some al ->
  a_obj_size al = ROUNDUP16 size ->
  exists r k', kmalloc_locked A size k = Ret r k' /\
    ((r = 0 /\ k' = k /\ freepages k = []) \/
     (r <> 0 /\ allocated adam sz (a_obj_size al) k r k')).
Proof.
  intros Hshape Hcnt HA Hrs.
  destruct (decide (a_list al = 0)) as [Hl|Hl].
  - assert (a_lock al = false) as Hlock.
    { destruct Hshape as (_ & Hdir & _). by destruct (dir_allocs _ _ _ _ Hdir _ _ HA) as (_ & ? & _). }
    destruct (freepages k) as [|P rest] eqn:Hfp.
    { exists 0, k. split; [by apply (kmalloc_locked_no_page A size k al)|]. by left. }
    destruct (fmt_frame adam sz k A al P rest size) as (Hfa & Hfn & Hfo & Hfs & HP0); [done..|].
    pose proof (fmt_shape adam sz k A al P rest size Hshape HA Hl Hfp Hrs) as Hshape1.
    set (k1 := formatted A al P rest size k) in *.
    set (al1 := mk_kmem_allocator (a_lock al) (a_obj_size al) (u16 (npages al + 1))
                  (nobjs al) P (a_next al)).
    assert (allocs k1 !! A = Some al1) as HA1.
    { unfold k1, formatted. cbn [allocs set_allocs]. by rewrite lookup_insert_eq. }
    destruct (kmalloc_locked_take adam sz k1 A al1 size Hshape1 HA1)
      as (n & a' & Hn & Ha' & Heq & Hr & Hal); [done| |].
    { cbn [a_list al1]. intros Q m HQ. rewrite Hfo by done. apply Hcnt. }
    cbn [a_list a_obj_size al1] in *.
    eexists _, _. split; [rewrite (kmalloc_locked_fresh A size k al P rest) by done; exact Heq|].
    right. split; [done|]. destruct Hal as [al_shape al_cnt al_fresh al_live al_allocs al_table al_lock
      al_nodes al_pages al_page al_at]. split.
    + done.
    + done.
    + intros Hlive. apply al_fresh. by apply (fmt_live adam sz k A al P rest size).
    + intros b. rewrite al_live. apply or_iff_compat_l.
      by apply (fmt_live adam sz k A al P rest size).
    + intros B. by rewrite al_allocs.
    + by rewrite al_table.
    + by rewrite al_lock.
    + intros Q m Hm. rewrite al_nodes by done. by apply Hfn.
    + rewrite al_pages, Hfs. unfold k1, formatted. cbn [freepages set_allocs set_nodes set_freepages].
      rewrite Hfp. simpl. lia.
    + revert al_page. unfold k1 at 1, formatted. cbn [freepages set_allocs set_nodes set_freepages].
      rewrite Hfp. simpl. lia.
    + done.
  - destruct (kmalloc_locked_take adam sz k A al size Hshape HA Hl)
      as (n & a' & Hn & Ha' & Heq & Hr & Hal).
    { intros Q m _. apply Hcnt. }
    eexists _, _. split; [exact Heq|]. right. done.
Qed.

(** ** get_allocator *)

(** The shape does not look at [kmem_table_lock]. *)
Lemma shape_ext adam sz k k' :
  freepages k' = freepages k -> nodes k' = nodes k -> allocs k' = allocs k ->
  kmem_table k' = kmem_table k -> kmem_shape adam sz k -> kmem_shape adam sz k'.
Proof.
  intros Hf Hn Ha Ht ([Hnd Hfree Hnodes] & Hdir & [Hclass Hlists Hlive]).
  split_and!.
  - split; rewrite ?Hf, ?Hn; done.
  - by rewrite Ha, Ht.
  - split; rewrite ?Hn, ?Ha; [done|done|].
    intros B b Hb. destruct (Hlive _ _ Hb) as [?|?]; [by left|right].
    by apply (is_live_nodes k k').
Qed.

Lemma hash_bucket adam sz al tb rs :
  dir_ok adam sz al tb -> exists head, tb !! Z.to_nat (_hash rs) = Some head.
Proof.
  intros Hdir. apply lookup_lt_is_Some. rewrite (dir_len _ _ _ _ Hdir).
  unfold _hash, KMEM_TABLE_SIZE.
  pose proof (Z.mod_pos_bound rs 17 ltac:(lia)). lia.
Qed.

(** An instance that exists is found by the bucket walk, without taking
    [kmem_table_lock]. *)
Lemma get_allocator_found adam sz ma raw k A al :
  dir_ok adam sz (allocs k) (kmem_table k) -> allocs k !! A = Some al ->
  a_obj_size al = ROUNDUP16 raw -> get_allocator ma raw k = Ret A k.
Proof.
  intros Hdir HA Hrs. unfold get_allocator.
  destruct (hash_bucket _ _ _ _ (ROUNDUP16 raw) Hdir) as [head Hhead]. rewrite Hhead.
  destruct (dir_buckets _ _ _ _ Hdir _ _ Hhead) as (cl & Hch & Hnd & Hmem).
  rewrite (search_allocator_found (allocs k) (ROUNDUP16 raw) cl head _ A al); [| done | | |done..|].
  - destruct (dir_allocs _ _ _ _ Hdir _ _ HA) as (HA0 & _).
    by rewrite (proj2 (Z.eqb_neq A 0)).
  - pose proof (chain_length_allocs _ _ _ Hch Hnd). lia.
  - apply Hmem. exists al. by rewrite Hrs.
  - intros B b _ Hb Hs. eapply (dir_unique _ _ _ _ Hdir); [done..|]. congruence.
Qed.

(** When the class has no instance yet, one is made from an object of
    [kmem_adam]'s class, under [kmem_table_lock]. *)
Lemma get_allocator_missing adam sz ma raw k :
  dir_ok adam sz (allocs k) (kmem_table k) -> kmem_table_lock k = false ->
  (forall B b, allocs k !! B = Some b -> a_obj_size b <> ROUNDUP16 raw) ->
  get_allocator ma raw k =
    match ma (set_kmem_table_lock true k) with
    | Fail f => Fail f
    | Ret tmp k2 =>
      if tmp =? 0 then Ret 0 (set_kmem_table_lock false k2)
      else match kmem_table k2 !! Z.to_nat (_hash (ROUNDUP16 raw)) with
           | None => Fail Wild
           | Some head' =>
             Ret tmp (registered tmp (ROUNDUP16 raw) (Z.to_nat (_hash (ROUNDUP16 raw)))
                                 head' k2)
           end
    end.
Proof.
  intros Hdir Hlock Hnone. unfold get_allocator.
  destruct (hash_bucket _ _ _ _ (ROUNDUP16 raw) Hdir) as [head Hhead]. rewrite Hhead.
  destruct (dir_buckets _ _ _ _ Hdir _ _ Hhead) as (cl & Hch & Hnd & Hmem).
  rewrite (search_allocator_missing (allocs k) (ROUNDUP16 raw) cl head); [|done| |].
  - change (negb (0 =? 0)) with false. cbv iota. rewrite Hlock. cbv zeta.
    cbn [allocs set_kmem_table_lock].
    assert ((if head =? 0 then Some false
             else match allocs k !! head with
                  | Some a => Some (a_obj_size a =? ROUNDUP16 raw)
                  | None => None
                  end) = Some false) as ->.
    { destruct (Z.eqb_spec head 0) as [|Hh]; [done|].
      destruct cl as [|x cl]; [simpl in Hch; done|].
      unfold achain in Hch. simpl in Hch. destruct Hch as (<- & _ & r & Hr & _).
      destruct (allocs k !! head) as [a|] eqn:Ha; [|done].
      pose proof (Hnone _ _ Ha) as Hne. apply Z.eqb_neq in Hne. by rewrite Hne. }
    destruct (ma (set_kmem_table_lock true k)) as [tmp k2|]; [|done].
    destruct (tmp =? 0); [done|]. destruct (kmem_table k2 !! _); done.
  - pose proof (chain_length_allocs _ _ _ Hch Hnd). lia.
  - intros B b _ Hb. exact (Hnone _ _ Hb).
Qed.

(** The nested [kmalloc(sizeof(struct kmem_allocator))] finds [kmem_adam]
    and goes straight to the critical section. *)
Lemma malloc_allocator_eq adam sz k :
  KMEM_OBJ_MIN_SIZE <= sz <= KMEM_OBJ_MAX_SIZE ->
  dir_ok adam sz (allocs k) (kmem_table k) ->
  _malloc_allocator sz k = kmalloc_locked adam sz k.
Proof.
  intros Hsz Hdir. unfold _malloc_allocator. cbn [kmalloc_depth]. unfold kmalloc_with.
  unfold KMEM_OBJ_MIN_SIZE, KMEM_OBJ_MAX_SIZE in *.
  rewrite Z.gtb_ltb, (proj2 (Z.ltb_ge sz 32)) by lia.
  simpl negb. rewrite (proj2 (Z.ltb_ge 4048 sz)) by lia. simpl andb. cbv iota.
  destruct (dir_adam _ _ _ _ Hdir) as (a & Ha & Hs).
  rewrite (get_allocator_found adam sz _ sz k adam a Hdir Ha Hs).
  destruct (dir_allocs _ _ _ _ Hdir _ _ Ha) as (HA0 & _).
  by rewrite (proj2 (Z.eqb_neq adam 0)).
Qed.

(** ** A new allocator instance entered into its bucket *)

Section Registered.
Context (adam sz : Z) (k : kstate) (tmp rs head : Z).
Let hash := Z.to_nat (_hash rs).
Context (Hshape : kmem_shape adam sz k).
Context (Hlive : is_live k tmp) (Hnew : allocs k !! tmp = None).
Context (Hclass : size_class rs).
Context (Hnone : forall B b, allocs k !! B = Some b -> a_obj_size b <> rs).
Context (Hhead : kmem_table k !! hash = Some head).

Let k' := registered tmp rs hash head k.
Let a := mk_kmem_allocator false rs 0 0 0 head.

Local Lemma reg_allocs : allocs k' = <[tmp := a]> (allocs k).
Proof.
  unfold k', registered, a. cbn [allocs set_kmem_table_lock set_kmem_table set_allocs].
  rewrite u32_small; [done|]. destruct Hclass as [[? ?] _].
  unfold KMEM_OBJ_MIN_SIZE, KMEM_OBJ_MAX_SIZE in *. plia.
Qed.

Local Lemma reg_tmp : tmp <> 0 /\ tmp <> adam.
Proof.
  destruct Hshape as (Hpg & _). destruct Hlive as (P & HP).
  destruct (live_at_page _ _ _ _ Hpg HP) as (_ & _ & _ & _ & ? & ?). done.
Qed.

Local Lemma reg_old B b : allocs k !! B = Some b -> B <> tmp.
Proof. intros Hb ->. congruence. Qed.

Lemma reg_live b : is_live k' b <-> is_live k b.
Proof. by apply is_live_nodes. Qed.

Lemma reg_shape : kmem_shape adam sz k'.
Proof.
  destruct Hshape as (Hpg & Hdir & Hlk). destruct reg_tmp as [Htmp0 Hadam].
  split_and!.
  - destruct Hpg as [Hnd Hfree Hnodes]. by split.
  - rewrite reg_allocs.
    change (kmem_table k') with (<[hash := tmp]> (kmem_table k)).
    destruct Hdir as [Hal Hun Hbk Hlen Had]. split.
    + intros B b. rewrite lookup_insert. case_decide as HB; [|by apply Hal].
      intros [= <-]. subst B. done.
    + intros B B' b b'. rewrite !lookup_insert.
      case_decide as HB; case_decide as HB'; try congruence.
      * intros [= <-] Hb' Hs. simpl in Hs. symmetry in Hs. by apply Hnone in Hb'.
      * intros Hb [= <-] Hs. simpl in Hs. by apply Hnone in Hb.
      * apply Hun.
    + intros bk hd. destruct (decide (bk = hash)) as [->|Hbk'].
      * rewrite list_lookup_insert_eq by (by apply lookup_lt_Some in Hhead).
        intros [= <-]. destruct (Hbk _ _ Hhead) as (cl & Hch & Hnd & Hmem).
        assert (tmp ∉ cl) as Hni.
        { intros (b & Hb & _)%Hmem. congruence. }
        exists (tmp :: cl). split_and!.
        -- split_and!; [done|done|]. exists head. rewrite lookup_insert_eq. split; [done|].
           eapply cseg_ext; [|exact Hch]. intros x Hx. simpl.
           rewrite lookup_insert_ne; [done|]. intros <-. done.
        -- by apply NoDup_cons.
        -- intros B. rewrite elem_of_cons, lookup_insert, Hmem. split.
           ++ intros [->|(b & Hb & Hh)].
              ** rewrite decide_True by done. by exists a.
              ** rewrite decide_False by (intros <-; congruence). eauto.
           ++ case_decide as HB; [by left|]. intros ?. by right.
      * rewrite list_lookup_insert_ne by done. intros Hhd.
        destruct (Hbk _ _ Hhd) as (cl & Hch & Hnd & Hmem).
        exists cl. split_and!; [|done|].
        -- eapply cseg_ext; [|exact Hch]. intros x (b & Hb & _)%Hmem. simpl.
           rewrite lookup_insert_ne; [done|]. intros <-. congruence.
        -- intros B. rewrite Hmem, lookup_insert. case_decide as HB; [|done].
           subst B. rewrite Hnew. split; [by intros (? & ? & _)|].
           intros (? & [= <-] & Hh). simpl in Hh. done.
    + by rewrite length_insert.
    + destruct Had as (b & Hb & Hs). exists b. by rewrite lookup_insert_ne.
  - destruct Hlk as [Hcl Hlists Hlv]. split.
    + intros P n Hn. destruct (Hcl P n Hn) as (B & b & Hb & Hs).
      exists B, b. rewrite reg_allocs, lookup_insert_ne; [done|]. intros <-. congruence.
    + intros B b. rewrite reg_allocs, lookup_insert. case_decide as HB; [|by apply Hlists].
      intros [= <-]. exists []. split_and!; [done|apply NoDup_nil_2|].
      intros P. split; [by intros ?%elem_of_nil|].
      intros (n & Hn & Hs & _). exfalso. destruct (Hcl P n Hn) as (C & c & Hc & Hsc).
      apply (Hnone _ _ Hc). simpl in Hs. congruence.
    + intros B b. rewrite reg_allocs, lookup_insert. case_decide as HB.
      * intros _. right. subst B. by apply reg_live.
      * intros Hb. destruct (Hlv _ _ Hb) as [?|?]; [by left|right]. by apply reg_live.
Qed.

Lemma reg_frame :
  allocs k' !! tmp = Some a /\
  (forall B, B <> tmp -> allocs k' !! B = allocs k !! B) /\
  (forall b, client_live k' b <-> client_live k b /\ b <> tmp).
Proof.
  rewrite reg_allocs. split_and!.
  - by rewrite lookup_insert_eq.
  - intros B HB. by rewrite lookup_insert_ne.
  - intros b. unfold client_live. rewrite reg_live, reg_allocs, lookup_insert.
    case_decide as Hb.
    + subst b. split; [by intros [_ ?]|]. by intros [_ ?].
    + split; [by intros [? ?]|]. by intros [[? ?] _].
Qed.

End Registered.

Lemma lock_round_trip k :
  kmem_table_lock k = false ->
  set_kmem_table_lock false (set_kmem_table_lock true k) = k.
Proof. destruct k. simpl. by intros ->. Qed.

(** An address that is not live and is not [kmem_adam] is no instance. *)
Lemma not_live_no_alloc adam sz k r :
  kmem_shape adam sz k -> ~ is_live k r -> r <> adam -> allocs k !! r = None.
Proof.
  intros (_ & _ & Hlk) Hr Hadam. destruct (allocs k !! r) as [b|] eqn:Hb; [|done].
  destruct (lk_live _ _ Hlk _ _ Hb); done.
Qed.

Lemma live_not_adam adam sz k r : kmem_shape adam sz k -> is_live k r -> r <> adam /\ r <> 0.
Proof.
  intros (Hpg & _) (P & HP).
  by destruct (live_at_page _ _ _ _ Hpg HP) as (_ & _ & _ & _ & ? & ?).
Qed.

Lemma get_allocator_spec adam sz k raw :
  KMEM_OBJ_MIN_SIZE <= sz <= KMEM_OBJ_MAX_SIZE ->
  kmem_inv adam sz k -> size_class (ROUNDUP16 raw) ->
  exists A k0, get_allocator (_malloc_allocator sz) raw k = Ret A k0 /\
    looked_up adam sz (ROUNDUP16 raw) k A k0.
Proof.
  intros Hsz (Hlock & Hshape & Hcnt) Hclass.
  pose proof Hshape as (Hpg & Hdir & Hlk).
  destruct (decide (map_Exists (fun _ b => a_obj_size b = ROUNDUP16 raw) (allocs k)))
    as [(A & al & HA & Hs)|Hno].
  - exists A, k. split; [by apply (get_allocator_found adam sz _ raw k A al)|].
    destruct (dir_allocs _ _ _ _ Hdir _ _ HA) as (HA0 & _).
    split; try done.
    + intros _. eauto.
    + intros B b Hb Hsb. split; [done|].
      eapply (dir_unique _ _ _ _ Hdir); [done..|]. congruence.
    + lia.
  - assert (forall B b, allocs k !! B = Some b -> a_obj_size b <> ROUNDUP16 raw) as Hnone.
    { intros B b Hb Hsb. apply Hno. by exists B, b. }
    rewrite (get_allocator_missing adam sz _ raw k Hdir Hlock Hnone).
    set (k1 := set_kmem_table_lock true k).
    assert (kmem_shape adam sz k1) as Hshape1 by (by apply (shape_ext adam sz k k1)).
    rewrite (malloc_allocator_eq adam sz k1 Hsz) by apply Hdir.
    destruct (dir_adam _ _ _ _ Hdir) as (aa & Haa & Hsa).
    destruct (kmalloc_locked_spec adam sz k1 adam aa sz Hshape1 Hcnt Haa Hsa)
      as (r & k2 & -> & [(-> & -> & Hfp)|(Hr & Hal)]).
    + change (0 =? 0) with true. cbv iota. exists 0, k. unfold k1.
      rewrite lock_round_trip by done. split; [done|]. split; try done.
      * intros B b Hb Hsb. by destruct (Hnone _ _ Hb).
      * lia.
    + rewrite (proj2 (Z.eqb_neq r 0)) by done. destruct Hal as [al_shape al_cnt al_fresh al_live al_allocs al_table al_lock
      al_nodes al_pages al_page al_at].
      destruct (hash_bucket _ _ _ _ (ROUNDUP16 raw) Hdir) as [head Hhead].
      rewrite al_table. change (kmem_table k1) with (kmem_table k). rewrite Hhead.
      eexists _, _. split; [done|].
      assert (is_live k2 r) as Hlive2 by (apply al_live; by left).
      destruct (live_not_adam _ _ _ _ al_shape Hlive2) as [Hradam _].
      assert (allocs k2 !! r = None) as Hnew.
      { pose proof (al_allocs r) as Hr2.
        rewrite (not_live_no_alloc adam sz k1 r Hshape1 al_fresh Hradam) in Hr2.
        by destruct (allocs k2 !! r). }
      assert (forall B b, allocs k2 !! B = Some b -> a_obj_size b <> ROUNDUP16 raw) as Hnone2.
      { intros B b Hb. pose proof (al_allocs B) as HB. rewrite Hb in HB.
        change (allocs k1) with (allocs k) in HB.
        destruct (allocs k !! B) as [b0|] eqn:Hb0; [|done]. injection HB as ->.
        by apply (Hnone _ _ Hb0). }
      assert (kmem_table k2 !! Z.to_nat (_hash (ROUNDUP16 raw)) = Some head) as Hhead2
        by (by rewrite al_table).
      destruct (reg_frame k2 r (ROUNDUP16 raw) head Hclass) as (Hfa & Hfo & Hfc).
      split.
      * split_and!; [done|by apply reg_shape|]. intros P n. apply al_cnt.
      * intros _. eauto.
      * done.
      * intros B b Hb Hsb. by destruct (Hnone _ _ Hb).
      * intros b Hb. apply reg_live. apply al_live. right. by apply (is_live_nodes k k1).
      * intros b. rewrite Hfc. unfold client_live. rewrite al_live.
        pose proof (al_allocs b) as Hb. change (allocs k1) with (allocs k) in Hb.
        rewrite (is_live_nodes k k1) in al_fresh by done.
        rewrite (is_live_nodes k k1) by done. split.
        -- intros [[[?|?] Hn] ?]; [done|]. split; [done|]. rewrite Hn in Hb.
           by destruct (allocs k !! b).
        -- intros [? Hn]. split_and!; [by right| |by intros ->]. rewrite Hn in Hb.
           by destruct (allocs k2 !! b).
      * intros Q m Hm. rewrite <- Hsa in Hm. exact (al_nodes Q m Hm).
      * exact al_pages.
      * exact al_page.
Qed.

(** ** A slot put back on the free list of its node *)

Section PutBack.
Context (adam sz : Z) (k : kstate) (A : Z) (al : kmem_allocator).
Context (P : Z) (n : kmem_node) (ix : Z) (fl : list Z).
Context (Hshape : kmem_shape adam sz k).
Context (HA : allocs k !! A = Some al) (HP : nodes k !! P = Some n).
Context (Hsize : obj_size n = a_obj_size al).
Context (Hch : fchain (table n) (avail n) fl) (Hfl : NoDup fl).
Context (Hcnt : cnt n = _calc_capa (obj_size n) - Z.of_nat (length fl)).
Context (Hix : 0 <= ix < _calc_capa (obj_size n)) (Hni : ix ∉ fl).
Context (Hclient : allocs k !! slot_addr n ix = None).

Let full := TABLE_END =? avail n.
Let n' := mk_kmem_node (if full then a_list al else next n) (obj_size n) (obj_addr n) ix
            (u8 (cnt n - 1)) (<[Z.to_nat ix := avail n]> (table n)).
Let al' := mk_kmem_allocator false (a_obj_size al) (npages al) (u16 (nobjs al - 1))
             (if full then P else a_list al) (a_next al).
Let k' := put_back A al P n ix k.

Local Lemma pb_nodes : nodes k' = <[P := n']> (nodes k).
Proof. done. Qed.

Local Lemma pb_allocs : allocs k' = <[A := al']> (allocs k).
Proof. done. Qed.

Local Lemma pb_old : node_ok P n /\ page_ok adam P.
Proof.
  destruct Hshape as (Hpg & _). destruct (pg_nodes _ _ Hpg _ _ HP) as (? & _ & ?). done.
Qed.

Local Lemma pb_chain : fchain (table n') ix (ix :: fl) /\ NoDup (ix :: fl).
Proof.
  destruct pb_old as [Hok _]. pose proof (nk_len _ _ Hok) as Hlen.
  pose proof (capa_bounds _ (nk_class _ _ Hok)) as Hcap.
  split; [|by apply NoDup_cons]. simpl. split_and!; [done|unfold TABLE_END; lia|lia|].
  exists (avail n). split; [apply list_lookup_insert_eq; lia|].
  eapply fchain_ext; [|exact Hch]. intros i Hi. apply list_lookup_insert_ne.
  destruct (fchain_elem _ _ _ _ Hch Hi) as [? _]. intros Heq. apply Hni.
  assert (i = ix) as -> by lia. done.
Qed.

Lemma pb_node_ok : node_ok P n' /\ cnt n' = cnt n - 1 /\ 1 <= cnt n.
Proof.
  destruct pb_old as [Hok _]. destruct pb_chain as [Hc Hnd].
  pose proof (fchain_length _ _ _ Hc Hnd) as Hlen. simpl in Hlen.
  rewrite length_insert in Hlen. pose proof (nk_len _ _ Hok) as Hl.
  pose proof (capa_bounds _ (nk_class _ _ Hok)) as Hcap.
  assert (u8 (cnt n - 1) = cnt n - 1) as Hu by (apply u8_small; lia).
  split_and!; [|done|lia]. destruct Hok as [Hcl Had Hln _].
  split; simpl; [done|done|by rewrite length_insert|].
  exists (ix :: fl). split_and!; [apply Hc|done|]. rewrite Hu, Hcnt. simpl length. lia.
Qed.

Local Lemma pb_live_node b :
  b ∈ node_live n' <-> b ∈ node_live n /\ b <> slot_addr n ix.
Proof.
  destruct pb_old as [Hok _]. destruct pb_node_ok as (Hok' & _). destruct pb_chain as [Hc Hnd].
  assert (0 < obj_size n) as Hpos.
  { destruct (nk_class _ _ Hok) as [[? _] _]. unfold KMEM_OBJ_MIN_SIZE in *. lia. }
  split.
  - intros Hb. destruct (node_live_elim P n' (ix :: fl) b) as (j & Hj & Hnj & ->); [done..|].
    change (slot_addr n' j) with (slot_addr n j). split.
    + apply (node_live_intro P n fl j); [done..|]. intros ?. apply Hnj. by right.
    + intros Heq%slot_addr_inj; [|done]. apply Hnj. subst j. left.
  - intros [Hb Hne]. destruct (node_live_elim P n fl b) as (j & Hj & Hnj & ->); [done..|].
    change (slot_addr n j) with (slot_addr n' j).
    apply (node_live_intro P n' (ix :: fl) j); [done..|].
    intros [->|?]%elem_of_cons; done.
Qed.

Lemma pb_was_live : live_at k P (slot_addr n ix).
Proof.
  destruct pb_old as [Hok _]. exists n. split; [done|].
  by apply (node_live_intro P n fl ix).
Qed.

Lemma pb_live_at Q b :
  live_at k' Q b <-> live_at k Q b /\ b <> slot_addr n ix.
Proof.
  destruct Hshape as (Hpg & _). unfold live_at. rewrite pb_nodes, lookup_insert.
  case_decide as HQ.
  - subst Q. rewrite HP. split.
    + intros (m & [= <-] & (? & ?)%pb_live_node). eauto.
    + intros ((m & [= <-] & ?) & ?). exists n'. split; [done|]. by apply pb_live_node.
  - split; [|by intros [? ?]]. intros Hl. split; [done|]. intros ->.
    apply HQ. symmetry. apply (live_at_unique adam k Q P (slot_addr n ix)); [done..|].
    apply pb_was_live.
Qed.

Lemma pb_live b : is_live k' b <-> is_live k b /\ b <> slot_addr n ix.
Proof.
  unfold is_live. split.
  - intros (Q & (? & ?)%pb_live_at). eauto.
  - intros ((Q & ?) & ?). exists Q. by apply pb_live_at.
Qed.

Lemma pb_shape : kmem_shape adam sz k'.
Proof.
  destruct Hshape as (Hpg & Hdir & Hlk). destruct pb_node_ok as (Hok' & _).
  destruct pb_old as [Hok Hpage].
  pose proof (capa_bounds _ (nk_class _ _ Hok)) as Hcap.
  split_and!.
  - apply (pages_ok_insert adam (set_allocs _ k) P n n'); [|done..].
    destruct Hpg. by split.
  - apply (dir_update adam sz (allocs k) (kmem_table k) A al); done.
  - destruct Hlk as [Hclass Hlists Hlive]. split.
    + intros Q m. rewrite pb_nodes, lookup_insert. case_decide as HQ.
      * intros [= <-]. exists A, al'. rewrite pb_allocs, lookup_insert_eq.
        split; [done|]. simpl. congruence.
      * intros (B & b & Hb & Hs)%Hclass. rewrite pb_allocs.
        destruct (decide (B = A)) as [->|HB].
        -- exists A, al'. rewrite lookup_insert_eq. split; [done|]. simpl. congruence.
        -- exists B, b. by rewrite lookup_insert_ne.
    + intros B b. rewrite pb_allocs, lookup_insert. case_decide as HB.
      * intros [= <-]. cbn [a_list a_obj_size al']. rewrite pb_nodes.
        destruct (Hlists _ _ HA) as (nl & Hnl & Hnd & Hmem).
        assert (forall Q, Q <> P -> Q ∈ nl <->
                  exists m, <[P := n']> (nodes k) !! Q = Some m /\
                    obj_size m = a_obj_size al /\ avail m <> TABLE_END) as Hother.
        { intros Q HQ. rewrite lookup_insert_ne by done. apply Hmem. }
        assert (exists m, <[P := n']> (nodes k) !! P = Some m /\
                  obj_size m = a_obj_size al /\ avail m <> TABLE_END) as Hmine.
        { exists n'. rewrite lookup_insert_eq. split_and!; [done|done|].
          simpl. unfold TABLE_END. lia. }
        destruct (decide (TABLE_END = avail n)) as [Heq|Hne].
        -- assert (full = true) as Hfull by (by apply Z.eqb_eq).
           assert (next n' = a_list al) as Hnext by (simpl; by rewrite Hfull).
           rewrite Hfull.
           assert (P ∉ nl) as HPn.
           { intros (m & Hm & _ & Hav)%Hmem. rewrite HP in Hm. injection Hm as <-. done. }
           exists (P :: nl). split_and!.
           ++ split_and!; [done|destruct Hpage; lia|]. exists (a_list al).
              rewrite lookup_insert_eq. split; [simpl; by rewrite Hfull|].
              eapply cseg_ext; [|exact Hnl]. intros x Hx. simpl.
              rewrite lookup_insert_ne; [done|]. by intros <-.
           ++ by apply NoDup_cons.
           ++ intros Q. destruct (decide (Q = P)) as [->|HQ].
              ** split; [done|intros; left].
              ** rewrite elem_of_cons. rewrite (Hother Q HQ).
                 split; [by intros [?|?]|by right].
        -- assert (full = false) as Hfull by (by apply Z.eqb_neq).
           rewrite Hfull.
           exists nl. split_and!; [|done|].
           ++ eapply cseg_ext; [|exact Hnl]. intros x Hx. simpl.
              rewrite lookup_insert. case_decide as Hx'; [|done]. subst x. rewrite HP.
              simpl. by rewrite Hfull.
           ++ intros Q. destruct (decide (Q = P)) as [->|HQ].
              ** split; [done|].
                 intros _. apply Hmem. exists n. split_and!; [done..|congruence].
              ** by rewrite (Hother Q HQ).
      * intros Hb. rewrite pb_nodes.
        destruct (insert_node_other (nodes k) P n n' (a_obj_size al)) as [Hto Hfrom];
          [done..|].
        apply (lists_frame (nodes k) _ (a_list b) (a_obj_size b) (a_obj_size al));
          [|exact Hto|exact Hfrom|exact (Hlists B b Hb)].
        intros Heq. apply HB. by eapply (dir_unique adam sz _ _ Hdir A B al b).
    + intros B b. rewrite pb_allocs. intros Hb.
      assert (exists b0, allocs k !! B = Some b0) as [b0 Hb0].
      { revert Hb. rewrite lookup_insert. case_decide; [subst; eauto|eauto]. }
      destruct (Hlive _ _ Hb0) as [?|?]; [by left|]. right. apply pb_live.
      split; [done|]. intros ->. congruence.
Qed.

Lemma pb_frame :
  allocs k' !! A = Some al' /\ nodes k' !! P = Some n' /\
  (forall B, a_obj_size <$> allocs k' !! B = a_obj_size <$> allocs k !! B) /\
  (forall Q, Q <> P -> nodes k' !! Q = nodes k !! Q) /\
  base.size (nodes k') = base.size (nodes k).
Proof.
  rewrite pb_allocs, pb_nodes. split_and!.
  - by rewrite lookup_insert_eq.
  - by rewrite lookup_insert_eq.
  - intros B. rewrite lookup_insert. case_decide as HB; [|done]. subst B. by rewrite HA.
  - intros Q HQ. by rewrite lookup_insert_ne.
  - apply map_size_insert_Some. by rewrite HP.
Qed.

End PutBack.

(** ** A node without live objects dropped *)

(** The scan of kfree stops at the node and yields the cell before it. *)
Lemma find_pprev_spec nd P l2 : forall l1 fuel pp p,
  nlist nd p (l1 ++ P :: l2) -> P ∉ l1 -> (length l1 < fuel)%nat ->
  find_pprev fuel nd pp p P = inr (from_option Some pp (last l1)).
Proof.
  induction l1 as [|x l1 IH]; intros fuel pp p Hl Hni Hlen;
    (destruct fuel as [|fuel]; [simpl in Hlen; lia|]); simpl in Hl.
  - destruct Hl as (-> & HP0 & _). simpl.
    rewrite (proj2 (Z.eqb_neq P 0)) by done. by rewrite Z.eqb_refl.
  - destruct Hl as (-> & Hx0 & r & Hr & Hl). simpl.
    rewrite (proj2 (Z.eqb_neq x 0)) by done.
    assert (x <> P) as HxP by (intros Heq; apply Hni; rewrite Heq; left).
    rewrite (proj2 (Z.eqb_neq x P)) by done.
    destruct (nd !! x) as [t|]; [|done]. injection Hr as <-.
    rewrite (IH fuel (Some x) (next t)); [|done| |simpl in Hlen; lia].
    + destruct l1 as [|y l1]; [done|]. rewrite last_cons_cons.
      destruct (proj2 (last_is_Some (y :: l1))) as [z ->]; done.
    + intros ?. apply Hni. by right.
Qed.

Lemma set_next_id m : set_next (next m) m = m.
Proof. by destruct m. Qed.

Lemma node_ok_set_next P r m : node_ok P m -> node_ok P (set_next r m).
Proof. intros [? ? ? ?]. by split. Qed.

(** A node whose count is zero has every slot on its free list. *)
Lemma node_empty P n b : node_ok P n -> cnt n = 0 -> b ∉ node_live n.
Proof.
  intros Hok Hz Hb. destruct (nk_free _ _ Hok) as (fl & Hch & Hnd & Hcnt).
  destruct (node_live_elim P n fl b Hok Hch Hnd Hb) as (j & Hj & Hnj & _).
  pose proof (nk_len _ _ Hok) as Hlen.
  assert (fl ⊆+ seqZ 0 (_calc_capa (obj_size n))) as Hsub.
  { apply NoDup_submseteq; [done|]. intros x Hx. apply elem_of_seqZ.
    destruct (fchain_elem _ _ _ _ Hch Hx) as [? _]. lia. }
  apply submseteq_length_Permutation in Hsub.
  - apply Hnj. rewrite Hsub. apply elem_of_seqZ. lia.
  - rewrite length_seqZ. lia.
Qed.

Section Drop.
Context (adam sz : Z) (k : kstate) (A : Z) (al : kmem_allocator) (P : Z) (n : kmem_node).
Context (Hshape : kmem_shape adam sz k).
Context (HA : allocs k !! A = Some al) (HP : nodes k !! P = Some n).
Context (Hsize : obj_size n = a_obj_size al).
Context (Hzero : cnt n = 0) (Hav : avail n <> TABLE_END).

Let rs := a_obj_size al.
Let dropped (nds : gmap Z kmem_node) (lst' : Z) : kstate :=
  set_allocs
    (<[A := mk_kmem_allocator false (a_obj_size al) (u16 (npages al - 1))
              (nobjs al) lst' (a_next al)]> (allocs k))
    (freepage P (set_nodes (delete P nds) k)).

Section Generic.
Context (nds : gmap Z kmem_node) (lst' : Z) (l1 l2 : list Z).
Context (Hl : nlist (nodes k) (a_list al) (l1 ++ P :: l2)).
Context (Hnd : NoDup (l1 ++ P :: l2)).
Context (Hmem : forall Q, Q ∈ l1 ++ P :: l2 <->
  exists m, nodes k !! Q = Some m /\ obj_size m = rs /\ avail m <> TABLE_END).
Context (Hnds : forall Q, Q <> P -> exists g : kmem_node -> Z,
  nds !! Q = (fun m => set_next (g m) m) <$> nodes k !! Q /\
  forall m, nodes k !! Q = Some m -> obj_size m <> rs -> g m = next m).
Context (Hl' : nlist (delete P nds) lst' (l1 ++ l2)).

Let k' := dropped nds lst'.

Local Lemma dg_from Q m' :
  nodes k' !! Q = Some m' ->
  Q <> P /\ exists m r, nodes k !! Q = Some m /\ m' = set_next r m /\
                        (obj_size m <> rs -> m' = m).
Proof.
  unfold k', dropped, freepage. cbn [nodes set_allocs set_nodes set_freepages].
  rewrite lookup_delete. case_decide as HQ; [done|]. intros Hm. split; [done|].
  destruct (Hnds Q ltac:(done)) as (g & Hg & Hgn). rewrite Hg in Hm.
  destruct (nodes k !! Q) as [m|] eqn:Hq; [|done]. injection Hm as <-.
  exists m, (g m). split_and!; [done..|]. intros Hne. rewrite (Hgn m) by done.
  apply set_next_id.
Qed.

Local Lemma dg_to Q m :
  nodes k !! Q = Some m -> Q <> P ->
  exists r, nodes k' !! Q = Some (set_next r m) /\ (obj_size m <> rs -> set_next r m = m).
Proof.
  intros Hm HQ. unfold k', dropped, freepage. cbn [nodes set_allocs set_nodes set_freepages].
  rewrite lookup_delete_ne by done.
  destruct (Hnds Q HQ) as (g & Hg & Hgn). rewrite Hg, Hm. exists (g m). split; [done|].
  intros Hne. rewrite (Hgn m) by done. apply set_next_id.
Qed.

Lemma dg_live_at Q b : live_at k' Q b <-> live_at k Q b.
Proof.
  destruct Hshape as (Hpg & _). unfold live_at. split.
  - intros (m' & (HQ & m & r & Hm & -> & _)%dg_from & Hb). eauto.
  - intros (m & Hm & Hb). destruct (decide (Q = P)) as [->|HQ].
    + rewrite HP in Hm. injection Hm as <-.
      destruct (pg_nodes _ _ Hpg _ _ HP) as (_ & _ & Hok).
      by destruct (node_empty P n b Hok Hzero).
    + destruct (dg_to Q m Hm HQ) as (r & Hr & _). eauto.
Qed.

Lemma dg_live b : is_live k' b <-> is_live k b.
Proof. unfold is_live. split; intros (Q & HQ); exists Q; by apply dg_live_at. Qed.

Lemma dg_shape : kmem_shape adam sz k'.
Proof.
  destruct Hshape as (Hpg & Hdir & Hlk).
  destruct (pg_nodes _ _ Hpg _ _ HP) as (Hpage & HPfree & Hok).
  split_and!.
  - destruct Hpg as [Hnodup Hfree Hnodes]. split.
    + change (freepages k') with (P :: freepages k). by apply NoDup_cons.
    + change (freepages k') with (P :: freepages k).
      intros p [->|Hp]%elem_of_cons; [done|by apply Hfree].
    + intros Q m' (HQ & m & r & Hm & -> & _)%dg_from.
      destruct (Hnodes _ _ Hm) as (? & ? & ?). split_and!; [done| |by apply node_ok_set_next].
      change (freepages k') with (P :: freepages k). intros [?|?]%elem_of_cons; done.
  - apply (dir_update adam sz (allocs k) (kmem_table k) A al); done.
  - destruct Hlk as [Hclass Hlists Hlive]. split.
    + intros Q m' (HQ & m & r & Hm & -> & _)%dg_from.
      destruct (Hclass _ _ Hm) as (B & b & Hb & Hs).
      unfold k', dropped. cbn [allocs set_allocs]. destruct (decide (B = A)) as [->|HB].
      * eexists A, _. rewrite lookup_insert_eq. split; [done|]. simpl. congruence.
      * exists B, b. by rewrite lookup_insert_ne.
    + intros B b. unfold k', dropped at 1. cbn [allocs set_allocs].
      rewrite lookup_insert. case_decide as HB.
      * intros [= <-]. cbn [a_list a_obj_size]. exists (l1 ++ l2).
        apply NoDup_app in Hnd as (Hnd1 & Hdisj & Hnd2).
        apply NoDup_cons in Hnd2 as [HP2 Hnd2].
        split_and!.
        -- exact Hl'.
        -- apply NoDup_app. split_and!; [done| |done].
           intros x Hx1 Hx2. apply (Hdisj x Hx1). by right.
        -- intros Q. split.
           ++ intros HQ.
              assert (Q <> P) as HQP.
              { intros ->. apply elem_of_app in HQ as [HQ|HQ]; [|done].
                apply (Hdisj P HQ). left. }
              destruct (proj1 (Hmem Q)) as (m & Hm & Hs & Hm255).
              { rewrite elem_of_app, elem_of_cons. rewrite elem_of_app in HQ. tauto. }
              destruct (dg_to Q m Hm HQP) as (r & Hr & _). exists (set_next r m). done.
           ++ intros (m' & (HQ & m & r & Hm & -> & _)%dg_from & Hs & Hm255).
              assert (Q ∈ l1 ++ P :: l2) as HQl by (apply Hmem; eauto).
              rewrite elem_of_app, elem_of_cons in HQl. rewrite elem_of_app. tauto.
      * intros Hb.
        apply (lists_frame (nodes k) _ (a_list b) (a_obj_size b) rs);
          [| | |exact (Hlists B b Hb)].
        -- intros Heq. apply HB. by eapply (dir_unique adam sz _ _ Hdir A B al b).
        -- intros Q m Hm Hs. destruct (dg_to Q m Hm) as (r & Hr & Hid).
           { intros ->. rewrite HP in Hm. injection Hm as <-. done. }
           by rewrite <- Hid.
        -- intros Q m' (HQ & m & r & Hm & Heq & Hid)%dg_from Hs.
           rewrite Hid; [done|]. by rewrite Heq in Hs.
    + intros B b Hb.
      assert (exists b0, allocs k !! B = Some b0) as [b0 Hb0].
      { revert Hb. unfold k', dropped. cbn [allocs set_allocs].
        rewrite lookup_insert. case_decide; [subst; eauto|eauto]. }
      destruct (Hlive _ _ Hb0) as [?|?]; [by left|]. right. by apply dg_live.
Qed.

Lemma dg_frame :
  freepages k' = P :: freepages k /\ nodes k' !! P = None /\
  (forall B, a_obj_size <$> allocs k' !! B = a_obj_size <$> allocs k !! B) /\
  (forall Q m', nodes k' !! Q = Some m' ->
     Q <> P /\ exists m, nodes k !! Q = Some m /\ cnt m' = cnt m /\ obj_size m' = obj_size m) /\
  kmem_table k' = kmem_table k /\ kmem_table_lock k' = kmem_table_lock k.
Proof.
  split_and!; [done| | | |done|done].
  - unfold k', dropped, freepage. cbn [nodes set_allocs set_nodes set_freepages].
    apply lookup_delete_eq.
  - intros B. unfold k', dropped. cbn [allocs set_allocs]. rewrite lookup_insert.
    case_decide as HB; [|done]. subst B. by rewrite HA.
  - intros Q m' (HQ & m & r & Hm & -> & _)%dg_from. split; [done|]. by exists m.
Qed.

End Generic.

Local Lemma fmap_set_next_id (x : option kmem_node) :
  (fun m => set_next (next m) m) <$> x = x.
Proof. destruct x as [m|]; [|done]. simpl. by rewrite set_next_id. Qed.

Lemma drop_spec :
  exists k', drop_node A al P n k = Ret tt k' /\ kmem_shape adam sz k' /\
    (forall Q b, live_at k' Q b <-> live_at k Q b) /\
    freepages k' = P :: freepages k /\ nodes k' !! P = None /\
    (forall B, a_obj_size <$> allocs k' !! B = a_obj_size <$> allocs k !! B) /\
    (forall Q m', nodes k' !! Q = Some m' ->
       Q <> P /\ exists m, nodes k !! Q = Some m /\ cnt m' = cnt m /\
                           obj_size m' = obj_size m) /\
    kmem_table k' = kmem_table k /\ kmem_table_lock k' = kmem_table_lock k.
Proof.
  pose proof Hshape as (Hpg & Hdir & Hlk).
  destruct (lk_lists _ _ Hlk _ _ HA) as (nl & Hnl & Hnd & Hmem).
  assert (P ∈ nl) as HPnl by (apply Hmem; eauto).
  apply list_elem_of_split in HPnl as (l1 & l2 & ->).
  pose proof Hnd as (Hnd1 & Hdisj & Hnd2)%NoDup_app.
  apply NoDup_cons in Hnd2 as [HP2 Hnd2].
  assert (P ∉ l1) as HP1 by (intros ?; apply (Hdisj P); [done|left]).
  pose proof (chain_length_nodes _ _ _ Hnl Hnd) as Hlen. rewrite length_app in Hlen.
  simpl in Hlen.
  unfold drop_node.
  rewrite (find_pprev_spec (nodes k) P l2 l1 _ None (a_list al)); [|done|done|lia].
  pose proof Hnl as (m0 & Hseg1 & Hseg2)%cseg_app.
  simpl in Hseg2. destruct Hseg2 as (Hm0 & HP0 & r & Hr & Hseg2). subst m0.
  rewrite HP in Hr. injection Hr as <-.
  assert (nlist (nodes k) (next n) l2) as Hl2 by done.
  destruct (last l1) as [q|] eqn:Hlast; simpl from_option.
  - apply last_Some in Hlast as (l1' & ->).
    apply cseg_app in Hseg1 as (m1 & Hseg1 & Hq). simpl in Hq.
    destruct Hq as (-> & Hq0 & r & Hr & ->).
    apply NoDup_app in Hnd1 as (Hnd1 & Hdisj1 & _).
    assert (q <> P) as HqP by (intros ->; apply HP1, elem_of_app; right; left).
    set (nds := alter (set_next (next n)) q (nodes k)).
    assert (forall Q, Q <> P -> exists g : kmem_node -> Z,
              nds !! Q = (fun m => set_next (g m) m) <$> nodes k !! Q /\
              forall m, nodes k !! Q = Some m -> obj_size m <> rs -> g m = next m) as Hnds.
    { intros Q HQ. destruct (decide (Q = q)) as [->|HQq].
      - exists (fun _ => next n). split; [apply lookup_alter_eq|].
        intros m Hm Hs. exfalso.
        destruct (proj1 (Hmem q)) as (m' & Hm' & Hs' & _).
        { apply elem_of_app; left. apply elem_of_app; right; left. }
        rewrite Hm in Hm'. by injection Hm' as <-.
      - exists next. split; [|done]. unfold nds. rewrite lookup_alter_ne by done.
        by rewrite fmap_set_next_id. }
    assert (nlist (delete P nds) (a_list al) ((l1' ++ [q]) ++ l2)) as Hl'.
    { rewrite <- app_assoc. apply cseg_app. exists q. split.
      - eapply cseg_ext; [|exact Hseg1]. intros x Hx. simpl.
        assert (x <> P) by (intros ->; apply HP1, elem_of_app; by left).
        assert (x <> q) by (intros ->; apply (Hdisj1 q Hx); left).
        unfold nds. rewrite lookup_delete_ne, lookup_alter_ne by done. done.
      - simpl. split_and!; [done..|]. exists (next n). split.
        + unfold nds. rewrite lookup_delete_ne, lookup_alter_eq by done.
          destruct (nodes k !! q); [done|done].
        + eapply cseg_ext; [|exact Hl2]. intros x Hx. simpl.
          assert (x <> P) by (by intros ->).
          assert (x <> q).
          { intros ->. apply (Hdisj q); [apply elem_of_app; right; left|by right]. }
          unfold nds. rewrite lookup_delete_ne, lookup_alter_ne by done. done. }
    exists (dropped nds (a_list al)). split; [done|].
    destruct (dg_frame nds (a_list al) Hnds) as (? & ? & ? & ? & ? & ?).
    split_and!; try done.
    + by apply (dg_shape nds (a_list al) (l1' ++ [q]) l2).
    + by apply dg_live_at.
  - apply last_None in Hlast as ->. simpl in Hseg1.
    assert (forall Q, Q <> P -> exists g : kmem_node -> Z,
              nodes k !! Q = (fun m => set_next (g m) m) <$> nodes k !! Q /\
              forall m, nodes k !! Q = Some m -> obj_size m <> rs -> g m = next m) as Hnds.
    { intros Q HQ. exists next. split; [|done]. by rewrite fmap_set_next_id. }
    assert (nlist (delete P (nodes k)) (next n) ([] ++ l2)) as Hl'.
    { simpl. eapply cseg_ext; [|exact Hl2]. intros x Hx. simpl.
      rewrite lookup_delete_ne; [done|]. by intros ->. }
    exists (dropped (nodes k) (next n)). split; [done|].
    destruct (dg_frame (nodes k) (next n) Hnds) as (? & ? & ? & ? & ? & ?).
    split_and!; try done.
    + by apply (dg_shape (nodes k) (next n) [] l2).
    + by apply dg_live_at.
Qed.

End Drop.

(** A node whose count is not zero has a slot that is not on its free
    list. *)
Lemma node_has_live P n : node_ok P n -> 1 <= cnt n -> exists b, b ∈ node_live n.
Proof.
  intros Hok Hc. destruct (nk_free _ _ Hok) as (fl & Hch & Hnd & Hcnt).
  destruct (decide (Forall (fun j => j ∈ fl) (seqZ 0 (_calc_capa (obj_size n)))))
    as [Hall|Hnot].
  - assert (seqZ 0 (_calc_capa (obj_size n)) ⊆+ fl) as Hsub.
    { apply NoDup_submseteq; [apply NoDup_seqZ|]. by apply Forall_forall. }
    apply submseteq_length in Hsub. rewrite length_seqZ in Hsub. lia.
  - apply not_Forall_Exists in Hnot; [|apply _].
    apply Exists_exists in Hnot as (j & Hj%elem_of_seqZ & Hnj).
    exists (slot_addr n j). apply (node_live_intro P n fl j); [done..|lia|done].
Qed.

(** ** kfree *)

Lemma kfree_spec adam sz k a :
  kmem_inv adam sz k -> client_live k a ->
  exists k', kfree sz a k = Ret tt k' /\ kmem_inv adam sz k' /\
    (forall Q b, live_at k' Q b <-> live_at k Q b /\ b <> a) /\
    (forall B, a_obj_size <$> allocs k' !! B = a_obj_size <$> allocs k !! B) /\
    ((forall b, live_at k (PGROUNDDOWN a) b -> b = a) ->
       freepages k' = PGROUNDDOWN a :: freepages k) /\
    ((exists b, live_at k (PGROUNDDOWN a) b /\ b <> a) -> freepages k' = freepages k) /\
    (forall Q m', nodes k' !! Q = Some m' ->
       exists m, nodes k !! Q = Some m /\ obj_size m' = obj_size m).
Proof.
  intros (Hlock & Hshape & Hcnt) [(P & Hlive) Hclient].
  pose proof Hshape as (Hpg & Hdir & Hlk).
  destruct (live_at_page _ _ _ _ Hpg Hlive) as (_ & _ & _ & HPa & _). rewrite HPa.
  pose proof Hlive as (n & HP & Ha).
  destruct (pg_nodes _ _ Hpg _ _ HP) as (Hpage & _ & Hok).
  destruct (nk_free _ _ Hok) as (fl & Hch & Hnd & Hc).
  destruct (node_live_elim P n fl a Hok Hch Hnd Ha) as (ix & Hix & Hni & ->).
  destruct (lk_class _ _ Hlk _ _ HP) as (A & al & HA & Hs).
  destruct (dir_allocs _ _ _ _ Hdir _ _ HA) as (_ & Hlk0 & _).
  pose proof (nk_class _ _ Hok) as Hcl. pose proof (nk_len _ _ Hok) as Hlen.
  destruct (slot_bounds adam P n ix Hpage Hok Hix) as (_ & _ & _ & _ & _ & _ & Hidx).
  unfold kfree. rewrite HPa, HP.
  rewrite (proj2 (Z.eqb_neq (obj_size n) 0))
    by (destruct Hcl as [[? _] _]; unfold KMEM_OBJ_MIN_SIZE in *; lia).
  rewrite Hidx.
  rewrite (get_allocator_found adam sz _ (obj_size n) k A al Hdir HA)
    by (by rewrite (ROUNDUP16_id _ Hcl)).
  rewrite (kfree_locked_eq A P ix k al n HA Hlk0 HP) by lia. cbv zeta.
  destruct (pb_node_ok adam sz k al P n ix fl Hshape HP Hch Hnd Hc Hix Hni) as (Hok1 & Hc1 & Hc0).
  pose proof (pb_shape adam sz k A al P n ix fl Hshape HA HP (eq_sym Hs) Hch Hnd Hc Hix Hni Hclient)
    as Hshape1.
  pose proof (pb_live_at adam sz k A al P n ix fl Hshape HP Hch Hnd Hc Hix Hni) as Hlive1.
  destruct (pb_frame k A al P n ix HA HP) as (HA1 & HP1 & Hfa & Hfo & _).
  cbn [cnt] in Hc1. rewrite Hc1.
  set (k1 := put_back A al P n ix k) in *.
  destruct (Z.eqb_spec 0 (cnt n - 1)) as [Hz|Hnz].
  - rewrite HA1, HP1.
    match goal with |- context [drop_node A ?al1 P ?n1 k1] =>
      destruct (drop_spec adam sz k1 A al1 P n1 Hshape1 HA1 HP1)
        as (k' & -> & Hshape' & Hlive' & Hfp' & HPn' & Hfa' & Hfn' & Htb' & Hlk')
    end.
    { simpl. congruence. }
    { simpl. lia. }
    { simpl. pose proof (capa_bounds _ Hcl). unfold TABLE_END. lia. }
    exists k'. split; [done|]. split_and!.
    + split_and!; [by rewrite Hlk'|done|].
      intros Q m' (HQ & m & Hm & Hcm & _)%Hfn'. rewrite Hfo in Hm by done.
      rewrite Hcm. by apply (Hcnt Q).
    + intros Q b. rewrite Hlive'. apply Hlive1.
    + intros B. by rewrite Hfa'.
    + intros _. done.
    + intros (b & Hb & Hne). exfalso.
      assert (live_at k1 P b) as (m & Hm & Hbm) by (by apply Hlive1).
      rewrite HP1 in Hm. injection Hm as <-.
      apply (node_empty P _ b Hok1); [simpl; lia|done].
    + intros Q m' (HQ & m & Hm & _ & Hsm)%Hfn'. rewrite Hfo in Hm by done. eauto.
  - exists k1. split; [done|]. split_and!.
    + split_and!; [done|done|]. intros Q m. destruct (decide (Q = P)) as [->|HQ].
      * rewrite HP1. intros [= <-]. simpl. lia.
      * rewrite Hfo by done. apply Hcnt.
    + done.
    + done.
    + intros Hall. exfalso.
      destruct (node_has_live P _ Hok1) as (b & Hb); [simpl; lia|].
      assert (live_at k1 P b) as [Hb1 Hne]%Hlive1 by (eexists; eauto).
      by apply Hne, Hall.
    + done.
    + intros Q m. destruct (decide (Q = P)) as [->|HQ].
      * rewrite HP1. intros [= <-]. eauto.
      * rewrite Hfo by done. eauto.
Qed.

(** ** kmalloc *)

Lemma kmalloc_spec adam sz k size :
  KMEM_OBJ_MIN_SIZE <= sz <= KMEM_OBJ_MAX_SIZE -> kmem_inv adam sz k ->
  exists r k', kmalloc sz size k = Ret r k' /\ kmem_inv adam sz k' /\
    (forall b, is_live k b -> is_live k' b) /\
    (forall b, client_live k' b <-> (r <> 0 /\ b = r) \/ client_live k b) /\
    (r <> 0 ->
       ~ is_live k r /\ size <= KMEM_OBJ_MAX_SIZE /\
       exists P n, nodes k' !! P = Some n /\ r ∈ node_live n /\
         obj_size n =
           ROUNDUP16 (if KMEM_OBJ_MIN_SIZE >? size then KMEM_OBJ_MIN_SIZE else size)).
Proof.
  intros Hsz Hinv. unfold kmalloc, kmalloc_with.
  set (size' := if KMEM_OBJ_MIN_SIZE >? size then KMEM_OBJ_MIN_SIZE else size).
  assert (negb (KMEM_OBJ_MIN_SIZE >? size) && (KMEM_OBJ_MAX_SIZE <? size') = true \/
          (negb (KMEM_OBJ_MIN_SIZE >? size) && (KMEM_OBJ_MAX_SIZE <? size') = false /\
           KMEM_OBJ_MIN_SIZE <= size' <= KMEM_OBJ_MAX_SIZE /\ size <= KMEM_OBJ_MAX_SIZE))
    as [->|(-> & Hsize' & Hsize)].
  { unfold size', KMEM_OBJ_MIN_SIZE, KMEM_OBJ_MAX_SIZE. rewrite Z.gtb_ltb.
    destruct (Z.ltb_spec size 32); simpl; [right; lia|].
    destruct (Z.ltb_spec 4048 size); [by left|right; lia]. }
  { exists 0, k. split_and!; [done..| |done]. intros b. split; [by right|].
    by intros [[? _]|?]. }
  destruct (get_allocator_spec adam sz k size' Hsz Hinv (ROUNDUP16_class _ Hsize'))
    as (A & k0 & -> & Hlu).
  destruct Hlu as [lu_inv lu_alloc lu_null lu_found lu_live lu_client lu_nodes
    lu_pages lu_page]. destruct lu_inv as (Hlock0 & Hshape0 & Hcnt0).
  destruct (Z.eqb_spec A 0) as [HA0|HA0].
  { destruct (lu_null HA0) as [-> _]. exists 0, k. split_and!; [done..| |done].
    intros b. split; [by right|]. by intros [[? _]|?]. }
  destruct (lu_alloc HA0) as (al & HA & Hs).
  destruct (kmalloc_locked_spec adam sz k0 A al size' Hshape0 Hcnt0 HA Hs)
    as (r & k' & -> & [(-> & -> & _)|(Hr & Hal)]).
  { exists 0, k0. split_and!; [done|done|done| |done].
    intros b. rewrite lu_client. split; [by right|]. by intros [[? _]|?]. }
  exists r, k'. destruct Hal as [al_shape al_cnt al_fresh al_live al_allocs al_table al_lock
      al_nodes al_pages al_page al_at]. split_and!; [done| |..].
  - split_and!; [by rewrite al_lock|done|done].
  - intros b Hb. apply al_live. right. by apply lu_live.
  - assert (is_live k' r) as Hr' by (apply al_live; by left).
    destruct (live_not_adam _ _ _ _ al_shape Hr') as [Hradam _].
    pose proof (not_live_no_alloc adam sz k0 r Hshape0 al_fresh Hradam) as Hrnone.
    intros b. rewrite <- lu_client. unfold client_live. rewrite al_live.
    pose proof (al_allocs b) as Hb. split.
    + intros [[->|?] Hn]; [by left|right]. split; [done|]. rewrite Hn in Hb.
      by destruct (allocs k0 !! b).
    + intros [[_ ->]|[? Hn]].
      * split; [by left|]. pose proof (al_allocs r) as Hr2. rewrite Hrnone in Hr2.
        by destruct (allocs k' !! r).
      * split; [by right|]. rewrite Hn in Hb. by destruct (allocs k' !! b).
  - intros _. split_and!; [|done|].
    + intros Hl. by apply al_fresh, lu_live.
    + destruct al_at as (P & n & Hn & Hsn & Hrn). exists P, n. split_and!; [done..|].
      by rewrite Hsn, Hs.
Qed.

(** ** The states between two calls *)

Lemma kmallocinit_inv adam sz pages :
  KMEM_OBJ_MIN_SIZE <= sz <= KMEM_OBJ_MAX_SIZE -> adam <> 0 ->
  NoDup pages -> (forall p, p ∈ pages -> page_ok adam p) ->
  kmem_inv adam sz (kmallocinit adam sz pages).
Proof.
  intros Hsz Hadam Hnd Hpages.
  pose proof (ROUNDUP16_class _ Hsz) as Hcl.
  assert (u32 (ROUNDUP16 sz) = ROUNDUP16 sz) as Hu.
  { apply u32_small. destruct Hcl as [[? ?] _].
    unfold KMEM_OBJ_MIN_SIZE, KMEM_OBJ_MAX_SIZE in *. plia. }
  unfold kmallocinit. cbn [a_obj_size]. rewrite Hu.
  change (Z.to_nat KMEM_TABLE_SIZE) with 17%nat.
  set (aa := mk_kmem_allocator false (ROUNDUP16 sz) 0 0 0 0).
  set (h := Z.to_nat (_hash (ROUNDUP16 sz))).
  assert (h < 17)%nat as Hh.
  { unfold h, _hash, KMEM_TABLE_SIZE.
    pose proof (Z.mod_pos_bound (ROUNDUP16 sz) 17 ltac:(lia)). lia. }
  split_and!; [done| |(intros P n Hn; simpl in Hn; by rewrite lookup_empty in Hn)].
  split_and!.
  - split; simpl; [done|done|]. (intros P n Hn; simpl in Hn; by rewrite lookup_empty in Hn).
  - split; cbn [allocs kmem_table].
    + intros A a [<- <-]%lookup_singleton_Some. done.
    + intros A A' a a' [<- <-]%lookup_singleton_Some [<- <-]%lookup_singleton_Some. done.
    + intros b head. destruct (decide (b = h)) as [->|Hb].
      * rewrite list_lookup_insert_eq by (rewrite length_replicate; simpl; lia).
        intros [= <-]. exists [adam]. split_and!.
        -- split_and!; [done|done|]. exists 0. by rewrite lookup_singleton_eq.
        -- apply NoDup_singleton.
        -- intros A. rewrite list_elem_of_singleton. split.
           ++ intros ->. exists aa. by rewrite lookup_singleton_eq.
           ++ by intros (a & [<- <-]%lookup_singleton_Some & _).
      * rewrite list_lookup_insert_ne by done. intros [-> _]%lookup_replicate.
        exists []. split_and!; [done|apply NoDup_nil_2|].
        intros A. split; [by intros ?%elem_of_nil|].
        intros (a & [<- <-]%lookup_singleton_Some & Hha). done.
    + by rewrite length_insert, length_replicate.
    + exists aa. by rewrite lookup_singleton_eq.
  - split; cbn [allocs nodes].
    + (intros P n Hn; simpl in Hn; by rewrite lookup_empty in Hn).
    + intros A a [<- <-]%lookup_singleton_Some. exists []. split_and!; [done|apply NoDup_nil_2|].
      intros P. split; [by intros ?%elem_of_nil|]. intros (n & Hn & _). by rewrite lookup_empty in Hn.
    + intros A a [<- <-]%lookup_singleton_Some. by left.
Qed.

Lemma allocpage_inv adam sz k :
  kmem_inv adam sz k -> kmem_inv adam sz (snd (allocpage k)).
Proof.
  intros (Hlock & Hshape & Hcnt). unfold allocpage.
  destruct (freepages k) as [|p rest] eqn:Hfp; [done|]. simpl.
  split_and!; [done| |done].
  destruct Hshape as ([Hnd Hfree Hnodes] & Hdir & [Hclass Hlists Hlive]).
  rewrite Hfp in *. apply NoDup_cons in Hnd as [? ?].
  split_and!; [split; simpl|done|split; [done|done|]].
  - done.
  - intros q Hq. apply Hfree. by right.
  - intros P n Hn. destruct (Hnodes _ _ Hn) as (? & Hni & ?). split_and!; [done| |done].
    intros ?. apply Hni. by right.
  - intros B b Hb. destruct (Hlive _ _ Hb) as [?|?]; [by left|by right].
Qed.

Lemma freepage_inv adam sz k p :
  kmem_inv adam sz k -> page_ok adam p -> p ∉ freepages k -> nodes k !! p = None ->
  kmem_inv adam sz (freepage p k).
Proof.
  intros (Hlock & Hshape & Hcnt) Hp Hfree Hnode.
  split_and!; [done| |done].
  destruct Hshape as ([Hnd Hfr Hnodes] & Hdir & [Hclass Hlists Hlive]).
  split_and!; [split; simpl|done|split; [done|done|]].
  - by apply NoDup_cons.
  - intros q [->|Hq]%elem_of_cons; [done|by apply Hfr].
  - intros P n Hn. destruct (Hnodes _ _ Hn) as (? & Hni & ?). split_and!; [done| |done].
    intros [->|?]%elem_of_cons; [congruence|done].
  - intros B b Hb. destruct (Hlive _ _ Hb) as [?|?]; [by left|by right].
Qed.

(** Every reachable state is well formed. *)
Lemma reachable_inv adam sz k :
  KMEM_OBJ_MIN_SIZE <= sz <= KMEM_OBJ_MAX_SIZE -> adam <> 0 ->
  reachable adam sz k -> kmem_inv adam sz k.
Proof.
  intros Hsz Hadam Hreach. induction Hreach
    as [pages Hnd Hpages|k size r k' _ IH _ Hk|k a k' _ IH Ha Hk|k _ IH|k p _ IH Hp Hfr Hnode].
  - by apply kmallocinit_inv.
  - destruct (kmalloc_spec adam sz k size Hsz IH) as (r' & k'' & Heq & Hinv & _).
    rewrite Heq in Hk. by injection Hk as <- <-.
  - destruct (kfree_spec adam sz k a IH Ha) as (k'' & Heq & Hinv & _).
    rewrite Heq in Hk. by injection Hk as <-.
  - by apply allocpage_inv.
  - by apply freepage_inv.
Qed.

(** The example pages are pages, and the example machine is reachable. *)
Lemma example_reachable n : 0 <= n <= 1024 -> reachable example_adam 48 (example_kstate n).
Proof.
  intros Hn. apply reach_init.
  - unfold example_pages. apply NoDup_fmap_2; [|apply NoDup_seqZ].
    intros i j. unfold PGSIZE. lia.
  - intros p (i & -> & Hi%elem_of_seqZ)%list_elem_of_fmap.
    unfold page_ok, example_adam, PGSIZE. split_and!; [lia| |plia|lia].
    replace (2147483648 + 4096 * i) with ((524288 + i) * 4096) by lia.
    apply Z.mod_mul. lia.
Qed.

(** C7.  In every reachable state, for every size [s] up to
    KMEM_OBJ_MAX_SIZE, kmalloc returns; a pointer it returns is 16-byte
    aligned, was not live before the call (so it differs from every object
    that is live, of whatever size class, and those stay live), and is a
    live object of the node at the page the pointer rounds down to: it lies
    in that node's object region with room for [s] bytes, the region ends
    inside the page, and no other node's object region contains it. *)
Theorem kmalloc_object_placement adam sz k s :
  KMEM_OBJ_MIN_SIZE <= sz <= KMEM_OBJ_MAX_SIZE -> adam <> 0 ->
  reachable adam sz k -> 0 <= s <= KMEM_OBJ_MAX_SIZE ->
  exists r k', kmalloc sz s k = Ret r k' /\
    (r <> 0 ->
       r mod 16 = 0 /\
       ~ is_live k r /\ (forall b, is_live k b -> b <> r /\ is_live k' b) /\
       exists n, nodes k' !! PGROUNDDOWN r = Some n /\ r ∈ node_live n /\
         s <= obj_size n /\
         obj_addr n <= r /\
         r + obj_size n <= obj_addr n + _calc_capa (obj_size n) * obj_size n /\
         obj_addr n + _calc_capa (obj_size n) * obj_size n <= PGROUNDDOWN r + PGSIZE /\
         forall Q m, nodes k' !! Q = Some m ->
           obj_addr m <= r < obj_addr m + _calc_capa (obj_size m) * obj_size m ->
           Q = PGROUNDDOWN r).
Proof.
  intros Hsz Hadam Hreach Hs.
  pose proof (reachable_inv adam sz k Hsz Hadam Hreach) as Hinv.
  destruct (kmalloc_spec adam sz k s Hsz Hinv) as (r & k' & Heq & Hinv' & Hmono & _ & Hres).
  exists r, k'. split; [done|]. intros Hr.
  destruct (Hres Hr) as (Hfresh & _ & P & n & Hn & Hrn & Hsn).
  destruct Hinv' as (_ & Hshape' & _). pose proof Hshape' as (Hpg' & _).
  assert (live_at k' P r) as Hlive by (exists n; done).
  destruct (live_at_page _ _ _ _ Hpg' Hlive) as (_ & _ & Hal & HP & _).
  destruct (pg_nodes _ _ Hpg' _ _ Hn) as (Hpage & _ & Hok).
  destruct (nk_free _ _ Hok) as (fl & Hch & Hnd & _).
  destruct (node_live_elim P n fl r Hok Hch Hnd Hrn) as (i & Hi & _ & Hri).
  destruct (slot_bounds adam P n i Hpage Hok Hi) as (_ & Hend & _).
  pose proof (nk_class _ _ Hok) as Hcl.
  destruct (region_fits _ Hcl) as (_ & _ & Hfit).
  pose proof (nk_addr _ _ Hok) as Haddr.
  assert (0 < obj_size n) as Hpos.
  { destruct Hcl as [[? _] _]. unfold KMEM_OBJ_MIN_SIZE in *. lia. }
  split_and!; [done|done| |].
  - intros b Hb. split; [by intros ->|by apply Hmono].
  - rewrite HP. exists n. split_and!; [done|done| | | | |].
    + rewrite Hsn. unfold KMEM_OBJ_MIN_SIZE, KMEM_OBJ_MAX_SIZE in *.
      destruct (Z.gtb_spec 32 s).
      * destruct (ROUNDUP16_bounds 32) as [? _]; [plia|]. lia.
      * destruct (ROUNDUP16_bounds s) as [? _]; [plia|]. lia.
    + rewrite Hri. unfold slot_addr. nia.
    + rewrite Hri. unfold slot_addr. nia.
    + rewrite Haddr. lia.
    + intros Q m Hm Hin.
      destruct (pg_nodes _ _ Hpg' _ _ Hm) as (HpageQ & _ & HokQ).
      destruct (region_fits _ (nk_class _ _ HokQ)) as (HR & _ & HfitQ).
      rewrite (nk_addr _ _ HokQ) in Hin. rewrite <- HP.
      destruct HpageQ as (? & ? & ? & _).
      symmetry. apply PGROUNDDOWN_within; [done|]. lia.
Qed.

Lemma kmalloc_object_placement_witness :
  exists r k', kmalloc 48 100 (example_kstate 3) = Ret r k' /\
    (r <> 0 ->
       r mod 16 = 0 /\
       ~ is_live (example_kstate 3) r /\
       (forall b, is_live (example_kstate 3) b -> b <> r /\ is_live k' b) /\
       exists n, nodes k' !! PGROUNDDOWN r = Some n /\ r ∈ node_live n /\
         100 <= obj_size n /\
         obj_addr n <= r /\
         r + obj_size n <= obj_addr n + _calc_capa (obj_size n) * obj_size n /\
         obj_addr n + _calc_capa (obj_size n) * obj_size n <= PGROUNDDOWN r + PGSIZE /\
         forall Q m, nodes k' !! Q = Some m ->
           obj_addr m <= r < obj_addr m + _calc_capa (obj_size m) * obj_size m ->
           Q = PGROUNDDOWN r).
Proof.
  apply (kmalloc_object_placement example_adam 48 (example_kstate 3) 100).
  - unfold KMEM_OBJ_MIN_SIZE, KMEM_OBJ_MAX_SIZE. lia.
  - unfold example_adam. lia.
  - apply example_reachable. lia.
  - unfold KMEM_OBJ_MAX_SIZE. lia.
Defined.

(** ** Scenario A: two objects of 32 bytes, the first freed and handed out again *)

Lemma kmalloc_in_range sz size k :
  KMEM_OBJ_MIN_SIZE <= size <= KMEM_OBJ_MAX_SIZE ->
  kmalloc sz size k =
    match get_allocator (_malloc_allocator sz) size k with
    | Fail f => Fail f
    | Ret alloc k0 => if alloc =? 0 then Ret 0 k0 else kmalloc_locked alloc size k0
    end.
Proof.
  unfold KMEM_OBJ_MIN_SIZE, KMEM_OBJ_MAX_SIZE. intros Hs.
  unfold kmalloc, kmalloc_with, KMEM_OBJ_MIN_SIZE, KMEM_OBJ_MAX_SIZE.
  rewrite Z.gtb_ltb, (proj2 (Z.ltb_ge size 32)) by lia. simpl negb.
  by rewrite (proj2 (Z.ltb_ge 4048 size)) by lia.
Qed.

Section ScenarioA.
Context (adam sz A P : Z).
Context (Hpage : page_ok adam P).

(** The node of 32-byte objects at page [P], with free-list head [av],
    count [c] and table [t], on the list of the instance [A]. *)
Let at_node (k : kstate) (av c : Z) (t : list Z) : Prop :=
  dir_ok adam sz (allocs k) (kmem_table k) /\
  (exists al, allocs k !! A = Some al /\ a_list al = P /\ a_obj_size al = 32) /\
  nodes k !! P = Some (mk_kmem_node 0 32 (P + 160) av c t).

Local Lemma scen_addr i : 0 <= i < 123 ->
  u64 (P + 160 + i * 32) = P + 160 + i * 32 /\ PGROUNDDOWN (P + 160 + i * 32) = P /\
  P + 160 + i * 32 <> 0.
Proof.
  destruct Hpage as (? & ? & ? & _). unfold PGSIZE in *. intros Hi. split_and!.
  - apply u64_small. plia.
  - apply PGROUNDDOWN_within; unfold PGSIZE; [done|lia].
  - lia.
Qed.

Lemma scen_take_locked k av c t a' :
  at_node k av c t -> t !! Z.to_nat av = Some a' -> a' <> TABLE_END -> 0 <= av < 123 ->
  exists k', kmalloc_locked A 32 k = Ret (P + 160 + av * 32) k' /\ at_node k' a' (u8 (c + 1)) t.
Proof.
  intros (Hdir & (al & HA & Hl & Hs) & Hn) Ha' Hne Hav.
  destruct (dir_allocs _ _ _ _ Hdir _ _ HA) as (_ & Hlock & _).
  destruct Hpage as (HP0 & _).
  rewrite (kmalloc_locked_head A 32 k al (mk_kmem_node 0 32 (P + 160) av c t) a' HA Hlock);
    [|lia|by rewrite Hl|done].
  unfold slot_addr. cbn [obj_addr avail obj_size].
  destruct (scen_addr av Hav) as (-> & _). eexists. split; [done|].
  unfold at_node, took. cbn [allocs nodes kmem_table set_allocs set_nodes next].
  rewrite (proj2 (Z.eqb_neq TABLE_END a')) by done. split_and!.
  - apply (dir_update adam sz (allocs k) (kmem_table k) A al); done.
  - eexists. rewrite lookup_insert_eq. split; [done|]. by rewrite Hl.
  - rewrite Hl. by rewrite lookup_insert_eq.
Qed.

Lemma scen_take k av c t a' :
  at_node k av c t -> t !! Z.to_nat av = Some a' -> a' <> TABLE_END -> 0 <= av < 123 ->
  exists k', kmalloc sz 32 k = Ret (P + 160 + av * 32) k' /\ at_node k' a' (u8 (c + 1)) t.
Proof.
  intros Hat Ha' Hne Hav. pose proof Hat as (Hdir & (al & HA & Hl & Hs) & Hn).
  rewrite kmalloc_in_range by (unfold KMEM_OBJ_MIN_SIZE, KMEM_OBJ_MAX_SIZE; lia).
  rewrite (get_allocator_found adam sz _ 32 k A al Hdir HA) by done.
  destruct (dir_allocs _ _ _ _ Hdir _ _ HA) as (HA0 & _).
  rewrite (proj2 (Z.eqb_neq A 0)) by done. by apply scen_take_locked.
Qed.

Lemma scen_free k av c t :
  at_node k av c t -> av <> TABLE_END -> 1 < c <= 255 -> (0 < length t)%nat ->
  exists k', kfree sz (P + 160) k = Ret tt k' /\
             at_node k' 0 (u8 (c - 1)) (<[0%nat := av]> t).
Proof.
  intros (Hdir & (al & HA & Hl & Hs) & Hn) Hav Hc Ht.
  destruct (dir_allocs _ _ _ _ Hdir _ _ HA) as (_ & Hlock & _).
  destruct (scen_addr 0 ltac:(lia)) as (_ & HPa & _). rewrite Z.add_0_r in HPa.
  unfold kfree. rewrite HPa, Hn. cbn [obj_size obj_addr].
  change (32 =? 0) with false. cbv iota. rewrite Z.sub_diag.
  change (u8 (u64 0 / 32)) with 0.
  rewrite (get_allocator_found adam sz _ 32 k A al Hdir HA) by done.
  rewrite (kfree_locked_eq A P 0 k al (mk_kmem_node 0 32 (P + 160) av c t) HA Hlock Hn)
    by (simpl; lia).
  cbv zeta. cbn [cnt].
  assert (u8 (c - 1) = c - 1) as Hu by (apply u8_small; lia).
  rewrite Hu, (proj2 (Z.eqb_neq 0 (c - 1))) by lia.
  eexists. split; [done|].
  unfold at_node, put_back. cbn [allocs nodes kmem_table set_allocs set_nodes next avail obj_size
                        obj_addr table cnt].
  rewrite (proj2 (Z.eqb_neq TABLE_END av)) by done. split_and!.
  - apply (dir_update adam sz (allocs k) (kmem_table k) A al); done.
  - eexists. rewrite lookup_insert_eq. split; [done|]. by rewrite Hl.
  - rewrite lookup_insert_eq. by rewrite Hu.
Qed.

(** The first object comes from a fresh page. *)
Lemma scen_first k0 al rest :
  kmem_shape adam sz k0 -> allocs k0 !! A = Some al -> a_obj_size al = 32 ->
  a_list al = 0 -> freepages k0 = P :: rest ->
  exists k1, kmalloc_locked A 32 k0 = Ret (P + 160) k1 /\ at_node k1 1 1 (init_table 123).
Proof.
  intros Hshape HA Hs Hl Hfp. pose proof Hshape as (Hpg & Hdir & Hlk).
  destruct (dir_allocs _ _ _ _ Hdir _ _ HA) as (_ & Hlock & _).
  destruct Hpage as (HP0 & _).
  rewrite (kmalloc_locked_fresh A 32 k0 al P rest HA Hlock Hl Hfp) by lia.
  pose proof (fmt_node adam sz k0 A al P rest 32 Hshape HA Hfp) as Hnode.
  rewrite Hs in Hnode. specialize (Hnode eq_refl).
  change (_calc_capa 32) with 123 in Hnode.
  change (ROUNDUP16 (KMEM_NODE_FIX + 123)) with 160 in Hnode.
  destruct (scen_take_locked (formatted A al P rest 32 k0) 0 0 (init_table 123) 1)
    as (k1 & Heq & Hat); [|done|done|lia|].
  - unfold at_node, formatted. cbn [allocs nodes kmem_table set_allocs set_nodes set_freepages].
    split_and!.
    + apply (dir_update adam sz (allocs k0) (kmem_table k0) A al); done.
    + eexists. rewrite lookup_insert_eq. done.
    + rewrite lookup_insert_eq. by rewrite Hnode.
  - exists k1. rewrite Z.add_0_r in Heq. done.
Qed.

End ScenarioA.

(** C5.  In a reachable state without a slab node for 32-byte objects,
    kmalloc(32) returns (an address, when two pages are free); if the
    address is not NULL, a second kmalloc(32) returns another address in
    the same page, and after kfree of the first a third kmalloc(32) returns
    the first address again. *)
Theorem kmalloc_scenario_A adam sz k :
  KMEM_OBJ_MIN_SIZE <= sz <= KMEM_OBJ_MAX_SIZE -> adam <> 0 ->
  reachable adam sz k ->
  (forall P n, nodes k !! P = Some n -> obj_size n <> 32) ->
  exists a k1, kmalloc sz 32 k = Ret a k1 /\
    ((2 <= length (freepages k))%nat -> a <> 0) /\
    (a <> 0 ->
     exists b k2 k3 k4,
       kmalloc sz 32 k1 = Ret b k2 /\ b <> 0 /\ b <> a /\
       PGROUNDDOWN b = PGROUNDDOWN a /\
       kfree sz a k2 = Ret tt k3 /\ kmalloc sz 32 k3 = Ret a k4).
Proof.
  intros Hsz Hadam Hreach Hnone.
  pose proof (reachable_inv adam sz k Hsz Hadam Hreach) as Hinv.
  rewrite kmalloc_in_range by (unfold KMEM_OBJ_MIN_SIZE, KMEM_OBJ_MAX_SIZE; lia).
  destruct (get_allocator_spec adam sz k 32 Hsz Hinv) as (A & k0 & -> & Hlu).
  { apply ROUNDUP16_class. unfold KMEM_OBJ_MIN_SIZE, KMEM_OBJ_MAX_SIZE. lia. }
  destruct Hlu as [lu_inv lu_alloc lu_null lu_found lu_live lu_client lu_nodes
    lu_pages lu_page]. destruct lu_inv as (Hlock0 & Hshape0 & Hcnt0).
  destruct (Z.eqb_spec A 0) as [HA0|HA0].
  { destruct (lu_null HA0) as [_ Hfp]. exists 0, k0. rewrite Hfp. simpl.
    split_and!; [done|lia|done]. }
  destruct (lu_alloc HA0) as (al & HA & Hs). change (ROUNDUP16 32) with 32 in Hs.
  assert (forall Q m, nodes k0 !! Q = Some m -> obj_size m <> 32) as Hnone0.
  { destruct Hinv as (_ & (_ & Hdir & _) & _).
    destruct (dir_adam _ _ _ _ Hdir) as (aa & Haa & Hsa).
    destruct (decide (ROUNDUP16 sz = 32)) as [Heq|Hne].
    - destruct (lu_found adam aa Haa) as [-> _]; [by rewrite Hsa|done].
    - intros Q m Hm Hs32. apply (Hnone Q m); [|done]. apply lu_nodes; [|done]. congruence. }
  assert (a_list al = 0) as Hl.
  { destruct (decide (a_list al = 0)) as [|Hl]; [done|].
    destruct (list_head _ _ _ _ _ Hshape0 HA Hl) as (n & _ & _ & _ & Hn & Hsn & _).
    destruct (Hnone0 _ _ Hn). congruence. }
  destruct (freepages k0) as [|P rest] eqn:Hfp.
  { exists 0, k0. split_and!; [|simpl in lu_page; lia|done].
    apply (kmalloc_locked_no_page A 32 k0 al); [done| |done..].
    destruct Hshape0 as (_ & Hdir & _). by destruct (dir_allocs _ _ _ _ Hdir _ _ HA) as (_ & ? & _). }
  assert (page_ok adam P) as Hpage.
  { destruct Hshape0 as (Hpg & _). apply (pg_free _ _ Hpg). rewrite Hfp. left. }
  destruct (scen_first adam sz A P Hpage k0 al rest Hshape0 HA Hs Hl Hfp) as (k1 & -> & Hat1).
  pose proof Hpage as (HP0 & HPal & HP64 & _). unfold PGSIZE in *.
  exists (P + 160), k1. split_and!; [done|lia|]. intros _.
  destruct (scen_take adam sz A P Hpage k1 1 1 (init_table 123) 2 Hat1)
    as (k2 & Hb & Hat2); [done|done|lia|].
  destruct (scen_free adam sz A P Hpage k2 2 (u8 (1 + 1)) (init_table 123) Hat2)
    as (k3 & Hf & Hat3); [done|done|simpl; lia|].
  destruct (scen_take adam sz A P Hpage k3 0 (u8 (u8 (1 + 1) - 1))
              (<[0%nat := 2]> (init_table 123)) 2 Hat3)
    as (k4 & Ha & Hat4); [done|done|lia|].
  exists (P + 160 + 1 * 32), k2, k3, k4. split_and!; [done|lia|lia| |done|].
  - rewrite !PGROUNDDOWN_within with (P := P); unfold PGSIZE; (done || lia).
  - rewrite Ha. f_equal. lia.
Qed.

Lemma kmalloc_scenario_A_witness :
  exists a k1, kmalloc 48 32 (example_kstate 3) = Ret a k1 /\
    ((2 <= length (freepages (example_kstate 3)))%nat -> a <> 0) /\
    (a <> 0 ->
     exists b k2 k3 k4,
       kmalloc 48 32 k1 = Ret b k2 /\ b <> 0 /\ b <> a /\
       PGROUNDDOWN b = PGROUNDDOWN a /\
       kfree 48 a k2 = Ret tt k3 /\ kmalloc 48 32 k3 = Ret a k4).
Proof.
  apply (kmalloc_scenario_A example_adam 48 (example_kstate 3)).
  - unfold KMEM_OBJ_MIN_SIZE, KMEM_OBJ_MAX_SIZE. lia.
  - unfold example_adam. lia.
  - apply example_reachable. lia.
  - intros P n Hn. simpl in Hn. by rewrite lookup_empty in Hn.
Defined.

(** ** Freeing all objects of a set of nodes *)

Lemma kfree_each_spec adam sz : forall objs k Ps,
  kmem_inv adam sz k -> NoDup objs -> NoDup Ps ->
  (forall P, P ∈ Ps -> exists b, live_at k P b) ->
  (forall a, a ∈ objs <-> exists P, P ∈ Ps /\ live_at k P a) ->
  (forall a, a ∈ objs -> allocs k !! a = None) ->
  exists k', kfree_each sz objs k = Ret tt k' /\ kmem_inv adam sz k' /\
             freepages k' ≡ₚ Ps ++ freepages k.
Proof.
  induction objs as [|a objs IH]; intros k Ps Hinv Hnd HndP Hlive Hobjs Hclient.
  - destruct Ps as [|P Ps].
    + exists k. done.
    + destruct (Hlive P) as (b & Hb); [left|].
      assert (b ∈ []) as ?%elem_of_nil by (apply Hobjs; exists P; split; [left|done]). done.
  - apply NoDup_cons in Hnd as [Hni Hnd].
    destruct (proj1 (Hobjs a)) as (P & HP & Ha); [left|].
    assert (client_live k a) as Hcl.
    { split; [by exists P|]. apply Hclient. left. }
    pose proof Hinv as (_ & (Hpg & _) & _).
    destruct (live_at_page _ _ _ _ Hpg Ha) as (_ & _ & _ & HPa & _).
    destruct (kfree_spec adam sz k a Hinv Hcl)
      as (k1 & Heq & Hinv1 & Hlive1 & Hallocs1 & Hlast & Hmore & _).
    rewrite HPa in Hlast, Hmore. simpl. rewrite Heq.
    assert (forall Q b, live_at k Q b -> b = a -> Q = P) as Hhome.
    { intros Q b Hb ->. by apply (live_at_unique adam k Q P a). }
    assert (forall b, b ∈ objs -> allocs k1 !! b = None) as Hclient1.
    { intros b Hb. pose proof (Hallocs1 b) as Hab.
      rewrite (Hclient b) in Hab by (by right). by destruct (allocs k1 !! b). }
    pose proof Ha as (n & Hn & _).
    destruct (decide (Forall (fun b => b = a) (node_live n))) as [Hall|Hnot].
    + assert (forall b, live_at k P b -> b = a) as Hall'.
      { intros b (m & Hm & Hb). rewrite Hn in Hm. injection Hm as <-.
        by apply (proj1 (Forall_forall _ _) Hall). }
      specialize (Hlast Hall').
      apply list_elem_of_split in HP as (l1 & l2 & ->).
      assert ((P ∉ l1 ++ l2) /\ NoDup (l1 ++ l2)) as [HPn HndP'].
      { apply NoDup_app in HndP as (? & Hd & [? ?]%NoDup_cons). split.
        - intros [?|?]%elem_of_app; [|done]. apply (Hd P); [done|left].
        - apply NoDup_app. split_and!; [done| |done]. intros x ? ?. apply (Hd x); [done|by right]. }
      assert (forall Q, Q ∈ l1 ++ l2 -> Q ∈ l1 ++ P :: l2) as Hsub.
      { intros Q. rewrite !elem_of_app, elem_of_cons. tauto. }
      destruct (IH k1 (l1 ++ l2) Hinv1 Hnd HndP') as (k' & Heq' & Hinv' & Hperm).
      * intros Q HQ. destruct (Hlive Q (Hsub Q HQ)) as (b & Hb). exists b.
        apply Hlive1. split; [done|]. intros ->. apply HPn.
        by rewrite <- (Hhome Q a Hb eq_refl).
      * intros b. split.
        -- intros Hb. destruct (proj1 (Hobjs b)) as (Q & HQ & HbQ); [by right|].
           assert (b <> a) as Hne by (by intros ->).
           exists Q. split; [|by apply Hlive1].
           rewrite elem_of_app, elem_of_cons in HQ. rewrite elem_of_app.
           destruct HQ as [?|[->|?]]; [by left| |by right].
           by destruct Hne, (Hall' b).
        -- intros (Q & HQ & [HbQ Hne]%Hlive1).
           assert (b ∈ a :: objs) as [?|?]%elem_of_cons; [|done..].
           apply Hobjs. exists Q. split; [by apply Hsub|done].
      * done.
      * exists k'. split_and!; [done..|]. rewrite Hperm, Hlast.
        rewrite <- !app_assoc. simpl. by rewrite Permutation_middle.
    + apply not_Forall_Exists in Hnot; [|apply _].
      apply Exists_exists in Hnot as (c & Hc & Hca). simpl in Hca.
      assert (freepages k1 = freepages k) as Hfp1.
      { apply Hmore. exists c. split; [by exists n|done]. }
      destruct (IH k1 Ps Hinv1 Hnd HndP) as (k' & Heq' & Hinv' & Hperm).
      * intros Q HQ. destruct (decide (Q = P)) as [->|HQP].
        -- exists c. apply Hlive1. split; [by exists n|done].
        -- destruct (Hlive Q HQ) as (b & Hb). exists b. apply Hlive1. split; [done|].
           intros ->. by apply HQP, (Hhome Q a).
      * intros b. split.
        -- intros Hb. destruct (proj1 (Hobjs b)) as (Q & HQ & HbQ); [by right|].
           exists Q. split; [done|]. apply Hlive1. split; [done|]. by intros ->.
        -- intros (Q & HQ & [HbQ Hne]%Hlive1).
           assert (b ∈ a :: objs) as [?|?]%elem_of_cons; [|done..].
           apply Hobjs. by exists Q.
      * done.
      * exists k'. split_and!; [done..|]. by rewrite Hperm, Hfp1.
Qed.

(** The first allocation of a size class does not give its pages back:
    with three free pages, kmalloc(4048) takes a page for the node that
    holds the new allocator instance and a page for the object's node,
    which the one object fills; after kfree of the object two pages are
    free. *)
Lemma kfree_page_count_not_restored :
  exists a k1 n k2,
    kmalloc 48 4048 (example_kstate 3) = Ret a k1 /\
    nodes k1 !! PGROUNDDOWN a = Some n /\
    obj_size n = 4048 /\ cnt n = _calc_capa (obj_size n) /\ node_live n = [a] /\
    kfree 48 a k1 = Ret tt k2 /\
    length (freepages (example_kstate 3)) = 3%nat /\
    length (freepages k1) = 1%nat /\
    length (freepages k2) = 2%nat.
Proof.
  eexists _, _, _, _. split_and!.
  - vm_compute. reflexivity.
  - vm_compute. reflexivity.
  - reflexivity.
  - reflexivity.
  - vm_compute. reflexivity.
  - vm_compute. reflexivity.
  - reflexivity.
  - reflexivity.
  - reflexivity.
Qed.

Lemma reachable_after size k :
  reachable example_adam 48 k -> 0 <= size < 2 ^ 32 ->
  reachable example_adam 48 (example_after size k).
Proof.
  intros Hreach Hsize.
  assert (kmem_inv example_adam 48 k) as Hinv.
  { apply reachable_inv; [unfold KMEM_OBJ_MIN_SIZE, KMEM_OBJ_MAX_SIZE; lia|done|done]. }
  destruct (kmalloc_spec example_adam 48 k size) as (r & k' & Heq & _); [|done|].
  { unfold KMEM_OBJ_MIN_SIZE, KMEM_OBJ_MAX_SIZE; lia. }
  unfold example_after. rewrite Heq. by apply (reach_kmalloc _ _ k size r k').
Qed.

Lemma elem_of_pair (x a b : Z) : x ∈ [a; b] -> x = a \/ x = b.
Proof. intros [->|[->|?%elem_of_nil]%elem_of_cons]%elem_of_cons; auto. done. Qed.

(** Two full nodes of 4048-byte objects on the example machine. *)
(** ** The nesting of kmalloc and get_allocator *)

Lemma kmalloc_depth_adam adam sz d k :
  KMEM_OBJ_MIN_SIZE <= sz <= KMEM_OBJ_MAX_SIZE ->
  dir_ok adam sz (allocs k) (kmem_table k) ->
  kmalloc_depth sz (S d) sz k = kmalloc_locked adam sz k.
Proof.
  intros Hsz Hdir. cbn [kmalloc_depth]. unfold kmalloc_with.
  unfold KMEM_OBJ_MIN_SIZE, KMEM_OBJ_MAX_SIZE in *.
  rewrite Z.gtb_ltb, (proj2 (Z.ltb_ge sz 32)) by lia.
  simpl negb. rewrite (proj2 (Z.ltb_ge 4048 sz)) by lia. simpl andb. cbv iota.
  destruct (dir_adam _ _ _ _ Hdir) as (a & Ha & Hs).
  rewrite (get_allocator_found adam sz _ sz k adam a Hdir Ha Hs).
  destruct (dir_allocs _ _ _ _ Hdir _ _ Ha) as (HA0 & _).
  by rewrite (proj2 (Z.eqb_neq adam 0)).
Qed.

(** Between two calls the nesting never goes deeper than one
    [_malloc_allocator()]: a deeper bound changes nothing. *)
Lemma kmalloc_depth_enough adam sz d size k :
  KMEM_OBJ_MIN_SIZE <= sz <= KMEM_OBJ_MAX_SIZE -> kmem_inv adam sz k ->
  kmalloc_depth sz (S (S d)) size k = kmalloc sz size k.
Proof.
  intros Hsz (Hlock & (_ & Hdir & _) & _).
  assert (forall raw, get_allocator (kmalloc_depth sz (S d) sz) raw k =
                      get_allocator (_malloc_allocator sz) raw k) as Hget.
  { intros raw.
    destruct (decide (map_Exists (fun _ b => a_obj_size b = ROUNDUP16 raw) (allocs k)))
      as [(A & al & HA & Hs)|Hno].
    - by rewrite !(get_allocator_found adam sz _ raw k A al Hdir HA Hs).
    - assert (forall B b, allocs k !! B = Some b -> a_obj_size b <> ROUNDUP16 raw) as Hnone.
      { intros B b Hb Hsb. apply Hno. by exists B, b. }
      rewrite !(get_allocator_missing adam sz _ raw k Hdir Hlock Hnone).
      rewrite (kmalloc_depth_adam adam sz d) by done.
      by rewrite (malloc_allocator_eq adam sz) by done. }
  unfold kmalloc. cbn [kmalloc_depth]. unfold kmalloc_with. by rewrite Hget.
Qed.

(** * Further properties of the slab allocator *)

(** The count of a node is the number of its live objects, and the head of
    its free list is [TABLE_END] exactly when the node is full. *)
Lemma node_count P n :
  node_ok P n ->
  Z.of_nat (length (node_live n)) = cnt n /\
  (avail n = TABLE_END <-> cnt n = _calc_capa (obj_size n)) /\
  0 <= cnt n <= _calc_capa (obj_size n).
Proof.
  intros Hok. destruct (nk_free _ _ Hok) as (fl & Hch & Hnd & Hcnt).
  pose proof (nk_len _ _ Hok) as Hlen.
  pose proof (fchain_length _ _ _ Hch Hnd) as Hfl.
  split; [|split].
  - unfold node_live, live_slots, free_slots. rewrite length_fmap.
    rewrite (free_list_fchain _ fl) by done.
    set (S := seqZ 0 (Z.of_nat (length (table n)))).
    assert (filter (fun i => i ∈ fl) S ≡ₚ fl) as Hperm.
    { apply NoDup_Permutation; [apply NoDup_filter, NoDup_seqZ|done|].
      intros x. rewrite list_elem_of_filter. unfold S. rewrite elem_of_seqZ. split; [tauto|].
      intros Hx. split; [done|]. destruct (fchain_elem _ _ _ _ Hch Hx). lia. }
    pose proof (filter_app_complement (fun i => i ∈ fl) S) as Hall.
    apply Permutation_length in Hall. rewrite length_app, Hperm in Hall.
    assert (length S = length (table n)) as HS by (unfold S; rewrite length_seqZ; lia).
    rewrite HS in Hall.
    change (fun x => ~ x ∈ fl) with (fun x => x ∉ fl) in Hall. lia.
  - rewrite Hcnt. destruct fl as [|i fl']; simpl in Hch.
    + split; [simpl; lia|done].
    + destruct Hch as (-> & Hne & _). split; [done|]. simpl length. lia.
  - lia.
Qed.

(** X1 — Every state the allocator can reach is well formed: the table
    lock is free; no page is both free and a slab node; there is one
    allocator instance per size class in use, [kmem_adam] serving the
    class of [sizeof(struct kmem_allocator)], and get_allocator finds each
    instance without changing anything; every node belongs to the instance
    of its class, its count is the number of its live objects and is at
    least one, and the head of its free list is [TABLE_END] exactly when
    all its slots are taken. *)
Theorem reachable_well_formed adam sz k :
  KMEM_OBJ_MIN_SIZE <= sz <= KMEM_OBJ_MAX_SIZE -> adam <> 0 ->
  reachable adam sz k ->
  kmem_table_lock k = false /\
  NoDup (freepages k) /\
  (forall A A' a a', allocs k !! A = Some a -> allocs k !! A' = Some a' ->
     a_obj_size a = a_obj_size a' -> A = A') /\
  (exists a, allocs k !! adam = Some a /\ a_obj_size a = ROUNDUP16 sz) /\
  (forall A a, allocs k !! A = Some a ->
     a_lock a = false /\ size_class (a_obj_size a) /\
     get_allocator (_malloc_allocator sz) (a_obj_size a) k = Ret A k) /\
  (forall P n, nodes k !! P = Some n ->
     P mod PGSIZE = 0 /\ (P ∉ freepages k) /\
     (exists A a, allocs k !! A = Some a /\ a_obj_size a = obj_size n) /\
     Z.of_nat (length (node_live n)) = cnt n /\
     1 <= cnt n <= _calc_capa (obj_size n) /\
     (avail n = TABLE_END <-> cnt n = _calc_capa (obj_size n))).
Proof.
  intros Hsz Hadam Hreach.
  destruct (reachable_inv adam sz k Hsz Hadam Hreach) as (Hlock & (Hpg & Hdir & Hlk) & Hcnt).
  split_and!.
  - done.
  - apply (pg_nodup _ _ Hpg).
  - apply (dir_unique _ _ _ _ Hdir).
  - apply (dir_adam _ _ _ _ Hdir).
  - intros A a HA. destruct (dir_allocs _ _ _ _ Hdir _ _ HA) as (_ & ? & Hcl).
    split_and!; [done|done|].
    apply (get_allocator_found adam sz _ _ k A a Hdir HA). by rewrite (ROUNDUP16_id _ Hcl).
  - intros P n Hn. destruct (pg_nodes _ _ Hpg _ _ Hn) as ((_ & ? & _) & ? & Hok).
    destruct (node_count P n Hok) as (? & ? & ?). pose proof (Hcnt _ _ Hn).
    split_and!; [done|done|by apply (lk_class _ _ Hlk P)|done|lia|lia|done].
Qed.

Lemma reachable_well_formed_witness :
  let k := example_after 100 (example_kstate 3) in
  kmem_table_lock k = false /\
  NoDup (freepages k) /\
  (forall A A' a a', allocs k !! A = Some a -> allocs k !! A' = Some a' ->
     a_obj_size a = a_obj_size a' -> A = A') /\
  (exists a, allocs k !! example_adam = Some a /\ a_obj_size a = ROUNDUP16 48) /\
  (forall A a, allocs k !! A = Some a ->
     a_lock a = false /\ size_class (a_obj_size a) /\
     get_allocator (_malloc_allocator 48) (a_obj_size a) k = Ret A k) /\
  (forall P n, nodes k !! P = Some n ->
     P mod PGSIZE = 0 /\ (P ∉ freepages k) /\
     (exists A a, allocs k !! A = Some a /\ a_obj_size a = obj_size n) /\
     Z.of_nat (length (node_live n)) = cnt n /\
     1 <= cnt n <= _calc_capa (obj_size n) /\
     (avail n = TABLE_END <-> cnt n = _calc_capa (obj_size n))).
Proof.
  apply (reachable_well_formed example_adam 48 (example_after 100 (example_kstate 3))).
  - unfold KMEM_OBJ_MIN_SIZE, KMEM_OBJ_MAX_SIZE. lia.
  - unfold example_adam. lia.
  - apply reachable_after; [apply example_reachable; lia|plia].
Defined.

(** X2 — kfree of an object a caller holds succeeds.  Afterwards exactly
    that object is gone: every other live object is still a live object of
    the same node, no allocator instance is added or removed, and the page
    of the object's node goes back to the page allocator if and only if the
    object was the last live one of its node. *)
Theorem kfree_live_object adam sz k a :
  KMEM_OBJ_MIN_SIZE <= sz <= KMEM_OBJ_MAX_SIZE -> adam <> 0 ->
  reachable adam sz k -> client_live k a ->
  exists k', kfree sz a k = Ret tt k' /\
    reachable adam sz k' /\
    (forall Q b, live_at k' Q b <-> live_at k Q b /\ b <> a) /\
    (forall B, a_obj_size <$> allocs k' !! B = a_obj_size <$> allocs k !! B) /\
    ((forall b, live_at k (PGROUNDDOWN a) b -> b = a) ->
       freepages k' = PGROUNDDOWN a :: freepages k /\ nodes k' !! PGROUNDDOWN a = None) /\
    ((exists b, live_at k (PGROUNDDOWN a) b /\ b <> a) ->
       freepages k' = freepages k /\ is_Some (nodes k' !! PGROUNDDOWN a)).
Proof.
  intros Hsz Hadam Hreach Ha.
  pose proof (reachable_inv adam sz k Hsz Hadam Hreach) as Hinv.
  destruct (kfree_spec adam sz k a Hinv Ha)
    as (k' & Heq & Hinv' & Hlive & Hallocs & Hlast & Hmore & _).
  exists k'. split_and!; [done|by apply (reach_kfree adam sz k a k')|done|done| |].
  - intros Hall. specialize (Hlast Hall). split; [done|].
    destruct (nodes k' !! PGROUNDDOWN a) as [n|] eqn:Hn; [|done]. exfalso.
    destruct Hinv' as (_ & (Hpg' & _) & _).
    destruct (pg_nodes _ _ Hpg' _ _ Hn) as (_ & Hni & _). apply Hni. rewrite Hlast. left.
  - intros (b & Hb & Hne). split; [apply Hmore; eauto|].
    assert (live_at k' (PGROUNDDOWN a) b) as (n & Hn & _) by (by apply Hlive).
    eauto.
Qed.

Lemma kfree_live_object_witness :
  let k := example_full_nodes in
  let a := 2147487776 in
  exists k', kfree 48 a k = Ret tt k' /\
    reachable example_adam 48 k' /\
    (forall Q b, live_at k' Q b <-> live_at k Q b /\ b <> a) /\
    (forall B, a_obj_size <$> allocs k' !! B = a_obj_size <$> allocs k !! B) /\
    ((forall b, live_at k (PGROUNDDOWN a) b -> b = a) ->
       freepages k' = PGROUNDDOWN a :: freepages k /\ nodes k' !! PGROUNDDOWN a = None) /\
    ((exists b, live_at k (PGROUNDDOWN a) b /\ b <> a) ->
       freepages k' = freepages k /\ is_Some (nodes k' !! PGROUNDDOWN a)).
Proof.
  apply (kfree_live_object example_adam 48 example_full_nodes 2147487776).
  - unfold KMEM_OBJ_MIN_SIZE, KMEM_OBJ_MAX_SIZE. lia.
  - unfold example_adam. lia.
  - apply reachable_after; [apply reachable_after; [apply example_reachable|]|]; plia.
  - split; [|vm_compute; reflexivity]. apply live_check_live. vm_compute. reflexivity.
Defined.

(** ** Pages taken by kmalloc *)

Lemma kmalloc_locked_pages adam sz k A al size r k' :
  kmem_shape adam sz k -> cnt_ok k -> allocs k !! A = Some al ->
  a_obj_size al = ROUNDUP16 size -> kmalloc_locked A size k = Ret r k' ->
  (r = 0 /\ k' = k /\ freepages k = []) \/
  (r <> 0 /\ (freepages k' = freepages k \/ exists P, freepages k = P :: freepages k')).
Proof.
  intros Hshape Hcnt HA Hrs Heq.
  assert (a_lock al = false) as Hlock.
  { destruct Hshape as (_ & Hdir & _). by destruct (dir_allocs _ _ _ _ Hdir _ _ HA) as (_ & ? & _). }
  destruct (decide (a_list al = 0)) as [Hl|Hl].
  - destruct (freepages k) as [|P rest] eqn:Hfp.
    { rewrite (kmalloc_locked_no_page A size k al) in Heq by done.
      injection Heq as <- <-. by left. }
    destruct (fmt_frame adam sz k A al P rest size) as (_ & _ & Hfo & _ & HP0); [done..|].
    pose proof (fmt_shape adam sz k A al P rest size Hshape HA Hl Hfp Hrs) as Hshape1.
    rewrite (kmalloc_locked_fresh A size k al P rest) in Heq by done.
    set (k1 := formatted A al P rest size k) in *.
    set (al1 := mk_kmem_allocator (a_lock al) (a_obj_size al) (u16 (npages al + 1))
                  (nobjs al) P (a_next al)).
    assert (allocs k1 !! A = Some al1) as HA1.
    { unfold k1, formatted. cbn [allocs set_allocs]. by rewrite lookup_insert_eq. }
    destruct (kmalloc_locked_take adam sz k1 A al1 size Hshape1 HA1)
      as (n & a' & _ & _ & Heq1 & Hr & _); [done| |].
    { cbn [a_list al1]. intros Q m HQ. rewrite Hfo by done. apply Hcnt. }
    rewrite Heq1 in Heq. injection Heq as <- <-. right. split; [done|]. right.
    by exists P.
  - destruct (kmalloc_locked_take adam sz k A al size Hshape HA Hl)
      as (n & a' & _ & _ & Heq1 & Hr & _).
    { intros Q m _. apply Hcnt. }
    rewrite Heq1 in Heq. injection Heq as <- <-. right. split; [done|]. by left.
Qed.

Lemma get_allocator_pages adam sz k raw A k0 :
  KMEM_OBJ_MIN_SIZE <= sz <= KMEM_OBJ_MAX_SIZE -> kmem_inv adam sz k ->
  get_allocator (_malloc_allocator sz) raw k = Ret A k0 ->
  freepages k0 = freepages k \/ exists P, freepages k = P :: freepages k0.
Proof.
  intros Hsz (Hlock & Hshape & Hcnt) Heq. pose proof Hshape as (_ & Hdir & _).
  destruct (decide (map_Exists (fun _ b => a_obj_size b = ROUNDUP16 raw) (allocs k)))
    as [(B & al & HB & Hs)|Hno].
  - rewrite (get_allocator_found adam sz _ raw k B al Hdir HB Hs) in Heq.
    injection Heq as <- <-. by left.
  - assert (forall B b, allocs k !! B = Some b -> a_obj_size b <> ROUNDUP16 raw) as Hnone.
    { intros B b Hb Hsb. apply Hno. by exists B, b. }
    rewrite (get_allocator_missing adam sz _ raw k Hdir Hlock Hnone) in Heq.
    set (k1 := set_kmem_table_lock true k) in *.
    assert (kmem_shape adam sz k1) as Hshape1 by (by apply (shape_ext adam sz k k1)).
    rewrite (malloc_allocator_eq adam sz k1 Hsz) in Heq by apply Hdir.
    destruct (dir_adam _ _ _ _ Hdir) as (aa & Haa & Hsa).
    destruct (kmalloc_locked adam sz k1) as [r k2|] eqn:Hk; [|done].
    destruct (kmalloc_locked_pages adam sz k1 adam aa sz r k2 Hshape1 Hcnt Haa Hsa Hk)
      as [(-> & -> & _)|(Hr & Hfp)].
    + change (0 =? 0) with true in Heq. injection Heq as <- <-. by left.
    + rewrite (proj2 (Z.eqb_neq r 0)) in Heq by done.
      destruct (kmem_table k2 !! _); [|done]. injection Heq as <- <-. exact Hfp.
Qed.

(** X3 — In a reachable state kmalloc returns, having taken at most two
    pages, and those from the head of the page allocator's free list (one
    for a new allocator instance's node, one for the object's node).  It
    returns [NULL] only for a size above the maximum or when fewer than two
    pages are free; when it returns [NULL] the objects callers hold are
    what they were. *)
Theorem kmalloc_page_use adam sz k size :
  KMEM_OBJ_MIN_SIZE <= sz <= KMEM_OBJ_MAX_SIZE -> adam <> 0 ->
  reachable adam sz k ->
  exists r k', kmalloc sz size k = Ret r k' /\
    (exists taken, freepages k = taken ++ freepages k' /\ (length taken <= 2)%nat) /\
    (r = 0 -> KMEM_OBJ_MAX_SIZE < size \/ (length (freepages k) <= 1)%nat) /\
    (r = 0 -> forall b, client_live k' b <-> client_live k b).
Proof.
  intros Hsz Hadam Hreach.
  pose proof (reachable_inv adam sz k Hsz Hadam Hreach) as Hinv.
  destruct (kmalloc_spec adam sz k size Hsz Hinv) as (r & k' & Heq & _ & _ & Hclient & _).
  exists r, k'. split; [done|].
  assert (forall b, r = 0 -> client_live k' b <-> client_live k b) as Hnull.
  { intros b ->. rewrite Hclient. split; [|by right]. by intros [[? _]|?]. }
  revert Heq. unfold kmalloc, kmalloc_with.
  set (size' := if KMEM_OBJ_MIN_SIZE >? size then KMEM_OBJ_MIN_SIZE else size).
  assert (negb (KMEM_OBJ_MIN_SIZE >? size) && (KMEM_OBJ_MAX_SIZE <? size') = true /\
            KMEM_OBJ_MAX_SIZE < size \/
          (negb (KMEM_OBJ_MIN_SIZE >? size) && (KMEM_OBJ_MAX_SIZE <? size') = false /\
           KMEM_OBJ_MIN_SIZE <= size' <= KMEM_OBJ_MAX_SIZE))
    as [(-> & Hbig)|(-> & Hsize')].
  { unfold size', KMEM_OBJ_MIN_SIZE, KMEM_OBJ_MAX_SIZE. rewrite Z.gtb_ltb.
    destruct (Z.ltb_spec size 32); simpl; [right; lia|].
    destruct (Z.ltb_spec 4048 size); [left; lia|right; lia]. }
  { intros [= <- <-]. split_and!; [exists []; split; [done|simpl; lia]|by left|by intros _ b; apply Hnull]. }
  destruct (get_allocator_spec adam sz k size' Hsz Hinv (ROUNDUP16_class _ Hsize'))
    as (A & k0 & Hget & Hlu).
  rewrite Hget.
  pose proof (get_allocator_pages adam sz k size' A k0 Hsz Hinv Hget) as Hp0.
  destruct Hlu as [lu_inv lu_alloc lu_null lu_found lu_live lu_client lu_nodes
    lu_pages lu_page].
  destruct lu_inv as (Hlock0 & Hshape0 & Hcnt0).
  destruct (Z.eqb_spec A 0) as [HA0|HA0].
  { destruct (lu_null HA0) as [-> Hfp]. intros [= <- <-].
    split_and!; [exists []; split; [done|simpl; lia]|right; rewrite Hfp; simpl; lia|by intros _ b; apply Hnull]. }
  destruct (lu_alloc HA0) as (al & HA & Hs). intros Heq.
  destruct (kmalloc_locked_pages adam sz k0 A al size' r k' Hshape0 Hcnt0 HA Hs Heq)
    as [(-> & -> & Hfp0)|(Hr & Hp1)].
  - split_and!; [| |by intros _ b; apply Hnull].
    + destruct Hp0 as [Hp0|(P & Hp0)]; [exists []|exists [P]]; rewrite Hp0; simpl; split; (done || lia).
    + intros _. right. destruct Hp0 as [Hp0|(P & Hp0)]; [rewrite <- Hp0, Hfp0|rewrite Hp0, Hfp0];
        simpl; lia.
  - split_and!; [|done|done].
    destruct Hp0 as [Hp0|(P & Hp0)], Hp1 as [Hp1|(Q & Hp1)].
    + exists []. rewrite Hp1, Hp0. simpl. split; [done|lia].
    + exists [Q]. rewrite <- Hp0, Hp1. simpl. split; [done|lia].
    + exists [P]. rewrite Hp0, Hp1. simpl. split; [done|lia].
    + exists [P; Q]. rewrite Hp0, Hp1. simpl. split; [done|lia].
Qed.

Lemma kmalloc_page_use_witness :
  let k := example_kstate 3 in
  exists r k', kmalloc 48 100 k = Ret r k' /\
    (exists taken, freepages k = taken ++ freepages k' /\ (length taken <= 2)%nat) /\
    (r = 0 -> KMEM_OBJ_MAX_SIZE < 100 \/ (length (freepages k) <= 1)%nat) /\
    (r = 0 -> forall b, client_live k' b <-> client_live k b).
Proof.
  apply (kmalloc_page_use example_adam 48 (example_kstate 3) 100).
  - unfold KMEM_OBJ_MIN_SIZE, KMEM_OBJ_MAX_SIZE. lia.
  - unfold example_adam. lia.
  - apply example_reachable. lia.
Defined.

(** X4 — get_allocator in a reachable state, asked for a size kmalloc
    accepts: it returns; the result is [NULL] only if the class had no
    instance and no page was free, and then nothing has changed; otherwise
    the result is the instance of the size's class, the table lock is free
    again, the objects callers hold are what they were, and asking again
    returns the same instance without changing anything.  If the class had
    an instance before the call, that one is returned and nothing changes. *)
Theorem get_allocator_instance adam sz k raw :
  KMEM_OBJ_MIN_SIZE <= sz <= KMEM_OBJ_MAX_SIZE -> adam <> 0 ->
  reachable adam sz k -> KMEM_OBJ_MIN_SIZE <= raw <= KMEM_OBJ_MAX_SIZE ->
  exists A k0, get_allocator (_malloc_allocator sz) raw k = Ret A k0 /\
    kmem_table_lock k0 = false /\
    (A = 0 -> k0 = k /\ freepages k = []) /\
    (A <> 0 ->
       (exists al, allocs k0 !! A = Some al /\ a_obj_size al = ROUNDUP16 raw) /\
       get_allocator (_malloc_allocator sz) raw k0 = Ret A k0) /\
    (forall B b, allocs k !! B = Some b -> a_obj_size b = ROUNDUP16 raw ->
       A = B /\ k0 = k) /\
    (forall B b, allocs k !! B = Some b -> exists b', allocs k0 !! B = Some b') /\
    (forall b, client_live k0 b <-> client_live k b).
Proof.
  intros Hsz Hadam Hreach Hraw.
  pose proof (reachable_inv adam sz k Hsz Hadam Hreach) as Hinv.
  destruct (get_allocator_spec adam sz k raw Hsz Hinv (ROUNDUP16_class _ Hraw))
    as (A & k0 & Hget & Hlu).
  destruct Hlu as [lu_inv lu_alloc lu_null lu_found lu_live lu_client lu_nodes
    lu_pages lu_page].
  exists A, k0. destruct lu_inv as (Hlock0 & Hshape0 & Hcnt0).
  split_and!; [done|done|done| | |  |done].
  - intros HA0. destruct (lu_alloc HA0) as (al & HA & Hs). split; [eauto|].
    destruct Hshape0 as (_ & Hdir0 & _).
    by apply (get_allocator_found adam sz _ raw k0 A al).
  - intros B b Hb Hsb. by destruct (lu_found B b Hb Hsb) as [-> ->].
  - intros B b Hb. destruct Hinv as (_ & (_ & _ & Hlk) & _).
    destruct (lk_live _ _ Hlk _ _ Hb) as [->|Hlive].
    + destruct Hshape0 as (_ & Hdir0 & _). destruct (dir_adam _ _ _ _ Hdir0) as (a & ? & _). eauto.
    + destruct (allocs k0 !! B) as [b'|] eqn:Hb0; [eauto|]. exfalso.
      assert (client_live k0 B) as [_ Hn]%lu_client by (split; [by apply lu_live|done]).
      congruence.
Qed.

Lemma get_allocator_instance_witness :
  let k := example_kstate 3 in
  exists A k0, get_allocator (_malloc_allocator 48) 100 k = Ret A k0 /\
    kmem_table_lock k0 = false /\
    (A = 0 -> k0 = k /\ freepages k = []) /\
    (A <> 0 ->
       (exists al, allocs k0 !! A = Some al /\ a_obj_size al = ROUNDUP16 100) /\
       get_allocator (_malloc_allocator 48) 100 k0 = Ret A k0) /\
    (forall B b, allocs k !! B = Some b -> a_obj_size b = ROUNDUP16 100 ->
       A = B /\ k0 = k) /\
    (forall B b, allocs k !! B = Some b -> exists b', allocs k0 !! B = Some b') /\
    (forall b, client_live k0 b <-> client_live k b).
Proof.
  apply (get_allocator_instance example_adam 48 (example_kstate 3) 100).
  - unfold KMEM_OBJ_MIN_SIZE, KMEM_OBJ_MAX_SIZE. lia.
  - unfold example_adam. lia.
  - apply example_reachable. lia.
  - unfold KMEM_OBJ_MIN_SIZE, KMEM_OBJ_MAX_SIZE. lia.
Defined.

(** X5 — kmalloc and get_allocator call each other, and the nesting stops
    after one level: inside get_allocator's critical section, with
    [kmem_table_lock] held, [_malloc_allocator()] finds [kmem_adam] in the
    table and goes straight to kmalloc's own critical section on it, so it
    never asks for [kmem_table_lock] a second time.  A bound on the nesting
    larger than the one [kmalloc] is defined with gives the same result. *)
Theorem malloc_allocator_does_not_nest adam sz k d size :
  KMEM_OBJ_MIN_SIZE <= sz <= KMEM_OBJ_MAX_SIZE -> adam <> 0 ->
  reachable adam sz k ->
  _malloc_allocator sz (set_kmem_table_lock true k) =
    kmalloc_locked adam sz (set_kmem_table_lock true k) /\
  (exists r k', _malloc_allocator sz (set_kmem_table_lock true k) = Ret r k' /\
                kmem_table_lock k' = true) /\
  kmalloc_depth sz (S (S d)) size k = kmalloc sz size k.
Proof.
  intros Hsz Hadam Hreach.
  pose proof (reachable_inv adam sz k Hsz Hadam Hreach) as Hinv.
  pose proof Hinv as (Hlock & Hshape & Hcnt). pose proof Hshape as (_ & Hdir & _).
  set (k1 := set_kmem_table_lock true k).
  assert (_malloc_allocator sz k1 = kmalloc_locked adam sz k1) as Heq
    by (by apply (malloc_allocator_eq adam sz k1)).
  split_and!; [done| |by apply (kmalloc_depth_enough adam)].
  rewrite Heq.
  assert (kmem_shape adam sz k1) as Hshape1 by (by apply (shape_ext adam sz k k1)).
  destruct (dir_adam _ _ _ _ Hdir) as (aa & Haa & Hsa).
  destruct (kmalloc_locked_spec adam sz k1 adam aa sz Hshape1 Hcnt Haa Hsa)
    as (r & k2 & -> & [(-> & -> & _)|(_ & Hal)]).
  - by exists 0, k1.
  - exists r, k2. split; [done|]. by rewrite (al_lock _ _ _ _ _ _ Hal).
Qed.

Lemma malloc_allocator_does_not_nest_witness :
  let k := example_kstate 3 in
  _malloc_allocator 48 (set_kmem_table_lock true k) =
    kmalloc_locked example_adam 48 (set_kmem_table_lock true k) /\
  (exists r k', _malloc_allocator 48 (set_kmem_table_lock true k) = Ret r k' /\
                kmem_table_lock k' = true) /\
  kmalloc_depth 48 5 200 k = kmalloc 48 200 k.
Proof.
  apply (malloc_allocator_does_not_nest example_adam 48 (example_kstate 3) 3 200).
  - unfold KMEM_OBJ_MIN_SIZE, KMEM_OBJ_MAX_SIZE. lia.
  - unfold example_adam. lia.
  - apply example_reachable. lia.
Defined.

(** The classes for which the page could hold one object more than
    [_calc_capa] allows, found by going through the 252 classes. *)
Lemma one_more_object rs :
  size_class rs ->
  let more := _calc_capa rs + 1 in
  let total := ROUNDUP16 (KMEM_NODE_FIX + more) + more * rs in
  (total <= PGSIZE <-> rs ∈ [48; 112; 2032]) /\
  (total <= PGSIZE -> total = PGSIZE).
Proof.
  intros [[Hlo Hhi] Hmod]. unfold KMEM_OBJ_MIN_SIZE, KMEM_OBJ_MAX_SIZE in *.
  assert (Forall (fun j =>
            let rs := 16 * j in
            let more := _calc_capa rs + 1 in
            let total := ROUNDUP16 (KMEM_NODE_FIX + more) + more * rs in
            (if total <=? PGSIZE
             then (total =? PGSIZE) && bool_decide (rs ∈ [48; 112; 2032])
             else negb (bool_decide (rs ∈ [48; 112; 2032]))) = true)
          (seqZ 2 252)) as Hall.
  { apply (bool_decide_unpack _). vm_compute. exact I. }
  assert (16 * (rs / 16) = rs) as Hrs.
  { pose proof (Z.div_mod rs 16 ltac:(lia)). lia. }
  rewrite Forall_forall in Hall. specialize (Hall (rs / 16)).
  cbv zeta in Hall. rewrite Hrs in Hall. cbv zeta.
  assert (rs / 16 ∈ seqZ 2 252) as Hin by (apply elem_of_seqZ; lia).
  specialize (Hall Hin).
  destruct (Z.leb_spec (ROUNDUP16 (KMEM_NODE_FIX + (_calc_capa rs + 1)) +
                        (_calc_capa rs + 1) * rs) PGSIZE) as [Hle|Hgt].
  - apply andb_true_iff in Hall as [Heq%Z.eqb_eq Hl%bool_decide_eq_true].
    split; [split; [done|]|]; intros _; done.
  - apply negb_true_iff, bool_decide_eq_false in Hall.
    split; [split; [lia|done]|lia].
Qed.

(** X7 — The layout of a slab node, for every size kmalloc accepts: the
    rounded size is a multiple of 16 that holds the size; the capacity
    computed by [_calc_capa] is between 1 and 123, so it fits the [uint8]
    it is kept in and [TABLE_END] is never the index of a slot; the header
    with its table of one byte per slot ends before the first object; and
    the objects end inside the page.  The capacity is the largest number
    of objects that, with one table byte each, fit into the page less the
    rounded fixed part of the header.  That is not always the most the
    page could hold: for the classes 48, 112 and 2032, and for no
    other, one more object with its table byte would fit, and would fill
    the page to its last byte. *)
Theorem slab_node_layout size :
  KMEM_OBJ_MIN_SIZE <= size <= KMEM_OBJ_MAX_SIZE ->
  let rs := ROUNDUP16 size in
  let capa := _calc_capa rs in
  let first := ROUNDUP16 (KMEM_NODE_FIX + capa) in
  let more := ROUNDUP16 (KMEM_NODE_FIX + (capa + 1)) + (capa + 1) * rs in
  size <= rs < size + 16 /\ rs mod 16 = 0 /\ u32 rs = rs /\
  1 <= capa <= 123 /\ u8 capa = capa /\ capa < TABLE_END /\
  KMEM_NODE_FIX + capa <= first /\ first mod 16 = 0 /\
  first + capa * rs <= PGSIZE /\
  PGSIZE - ROUNDUP16 KMEM_NODE_FIX < (capa + 1) * (rs + 1) /\
  (forall c, c * (rs + 1) <= PGSIZE - ROUNDUP16 KMEM_NODE_FIX -> c <= capa) /\
  capa * (rs + 1) <= PGSIZE - ROUNDUP16 KMEM_NODE_FIX /\
  (more <= PGSIZE <-> rs ∈ [48; 112; 2032]) /\
  (more <= PGSIZE -> more = PGSIZE).
Proof.
  intros Hsize. cbv zeta. pose proof (ROUNDUP16_class _ Hsize) as Hcl.
  pose proof (capa_bounds _ Hcl) as Hcap. destruct (region_fits _ Hcl) as (_ & H16 & Hfit).
  destruct (one_more_object _ Hcl) as [Hmore Htight].
  unfold KMEM_OBJ_MIN_SIZE, KMEM_OBJ_MAX_SIZE in Hsize.
  destruct (ROUNDUP16_bounds size) as [Hb Hm]; [plia|].
  destruct (ROUNDUP16_bounds (KMEM_NODE_FIX + _calc_capa (ROUNDUP16 size))) as [Hb2 _].
  { unfold KMEM_NODE_FIX. plia. }
  assert (PGSIZE - ROUNDUP16 KMEM_NODE_FIX = 4064) as Hbudget.
  { rewrite ROUNDUP16_fix. reflexivity. }
  pose proof (Z.div_mod 4064 (ROUNDUP16 size + 1) ltac:(lia)) as Hdm.
  pose proof (Z.mod_pos_bound 4064 (ROUNDUP16 size + 1) ltac:(lia)) as Hmb.
  pose proof (calc_capa_eq (ROUNDUP16 size)) as Hce.
  split_and!; try done; try lia.
  - apply u32_small. plia.
  - apply u8_small. lia.
  - unfold TABLE_END. lia.
  - intros c Hc. rewrite Hbudget in Hc. rewrite Hce. nia.
Qed.

Lemma slab_node_layout_witness :
  let rs := ROUNDUP16 100 in
  let capa := _calc_capa rs in
  let first := ROUNDUP16 (KMEM_NODE_FIX + capa) in
  let more := ROUNDUP16 (KMEM_NODE_FIX + (capa + 1)) + (capa + 1) * rs in
  100 <= rs < 100 + 16 /\ rs mod 16 = 0 /\ u32 rs = rs /\
  1 <= capa <= 123 /\ u8 capa = capa /\ capa < TABLE_END /\
  KMEM_NODE_FIX + capa <= first /\ first mod 16 = 0 /\
  first + capa * rs <= PGSIZE /\
  PGSIZE - ROUNDUP16 KMEM_NODE_FIX < (capa + 1) * (rs + 1) /\
  (forall c, c * (rs + 1) <= PGSIZE - ROUNDUP16 KMEM_NODE_FIX -> c <= capa) /\
  capa * (rs + 1) <= PGSIZE - ROUNDUP16 KMEM_NODE_FIX /\
  (more <= PGSIZE <-> rs ∈ [48; 112; 2032]) /\
  (more <= PGSIZE -> more = PGSIZE).
Proof.
  apply (slab_node_layout 100). unfold KMEM_OBJ_MIN_SIZE, KMEM_OBJ_MAX_SIZE. lia.
Defined.

(** ** A double free *)

(** The first object of 32 bytes in a state without a node for them: it is
    the first slot of a fresh node. *)
Lemma scen_start adam sz k a k1 :
  KMEM_OBJ_MIN_SIZE <= sz <= KMEM_OBJ_MAX_SIZE -> adam <> 0 ->
  reachable adam sz k ->
  (forall P n, nodes k !! P = Some n -> obj_size n <> 32) ->
  kmalloc sz 32 k = Ret a k1 -> a <> 0 ->
  exists A P, page_ok adam P /\ a = P + 160 /\
    dir_ok adam sz (allocs k1) (kmem_table k1) /\
    (exists al, allocs k1 !! A = Some al /\ a_list al = P /\ a_obj_size al = 32) /\
    nodes k1 !! P = Some (mk_kmem_node 0 32 (P + 160) 1 1 (init_table 123)).
Proof.
  intros Hsz Hadam Hreach Hnone Heq Ha.
  pose proof (reachable_inv adam sz k Hsz Hadam Hreach) as Hinv.
  rewrite kmalloc_in_range in Heq by (unfold KMEM_OBJ_MIN_SIZE, KMEM_OBJ_MAX_SIZE; lia).
  destruct (get_allocator_spec adam sz k 32 Hsz Hinv) as (A & k0 & Hget & Hlu).
  { apply ROUNDUP16_class. unfold KMEM_OBJ_MIN_SIZE, KMEM_OBJ_MAX_SIZE. lia. }
  rewrite Hget in Heq.
  destruct Hlu as [lu_inv lu_alloc lu_null lu_found lu_live lu_client lu_nodes
    lu_pages lu_page].
  destruct lu_inv as (Hlock0 & Hshape0 & Hcnt0).
  destruct (Z.eqb_spec A 0) as [HA0|HA0]; [by injection Heq as <- <-|].
  destruct (lu_alloc HA0) as (al & HA & Hs). change (ROUNDUP16 32) with 32 in Hs.
  assert (forall Q m, nodes k0 !! Q = Some m -> obj_size m <> 32) as Hnone0.
  { destruct Hinv as (_ & (_ & Hdir & _) & _).
    destruct (dir_adam _ _ _ _ Hdir) as (aa & Haa & Hsa).
    destruct (decide (ROUNDUP16 sz = 32)) as [Heq32|Hne].
    - destruct (lu_found adam aa Haa) as [-> _]; [by rewrite Hsa|done].
    - intros Q m Hm Hs32. apply (Hnone Q m); [|done]. apply lu_nodes; [|done]. congruence. }
  assert (a_list al = 0) as Hl.
  { destruct (decide (a_list al = 0)) as [|Hl]; [done|].
    destruct (list_head _ _ _ _ _ Hshape0 HA Hl) as (n & _ & _ & _ & Hn & Hsn & _).
    destruct (Hnone0 _ _ Hn). congruence. }
  destruct (freepages k0) as [|P rest] eqn:Hfp.
  { rewrite (kmalloc_locked_no_page A 32 k0 al) in Heq; [by injection Heq as <- <-|done| |done..].
    destruct Hshape0 as (_ & Hdir & _). by destruct (dir_allocs _ _ _ _ Hdir _ _ HA) as (_ & ? & _). }
  assert (page_ok adam P) as Hpage.
  { destruct Hshape0 as (Hpg & _). apply (pg_free _ _ Hpg). rewrite Hfp. left. }
  destruct (scen_first adam sz A P Hpage k0 al rest Hshape0 HA Hs Hl Hfp) as (k1' & Hk & Hat).
  rewrite Hk in Heq. injection Heq as <- <-. exists A, P. by destruct Hat as (? & ? & ?).
Qed.

(** The node after an object has been freed twice: the freed slot is the
    head of the free list and its own successor, so it is handed out again
    and again. *)
Lemma scen_stuck adam sz A P c t (Hpage : page_ok adam P) : forall n k,
  dir_ok adam sz (allocs k) (kmem_table k) /\
  (exists al, allocs k !! A = Some al /\ a_list al = P /\ a_obj_size al = 32) /\
  nodes k !! P = Some (mk_kmem_node 0 32 (P + 160) 0 c t) ->
  t !! 0%nat = Some 0 ->
  exists k', kmalloc_each sz 32 n k = Ret (replicate n (P + 160)) k'.
Proof.
  intros n. revert c. induction n as [|n IH]; intros c k Hat Ht; simpl; [eauto|].
  destruct (scen_take adam sz A P Hpage k 0 c t 0 Hat Ht) as (k1 & -> & Hat1);
    [unfold TABLE_END; lia|lia|].
  destruct (IH _ k1 Hat1 Ht) as (k' & ->). exists k'. do 2 f_equal. lia.
Qed.

(** X6 — kfree does not notice a double free.  Take a reachable state
    without a node of 32-byte objects and three objects [a], [b], [c]
    from kmalloc(32).  kfree([a]) may then be called twice, both calls
    returning normally, and from then on every kmalloc(32) returns [a]:
    any number of callers are given the same object, while [b] and [c]
    are different from it. *)
Theorem kfree_twice_goes_unnoticed adam sz k a k1 n :
  KMEM_OBJ_MIN_SIZE <= sz <= KMEM_OBJ_MAX_SIZE -> adam <> 0 ->
  reachable adam sz k ->
  (forall P m, nodes k !! P = Some m -> obj_size m <> 32) ->
  kmalloc sz 32 k = Ret a k1 -> a <> 0 ->
  exists b c k3 k4 k5 k6,
    kmalloc_each sz 32 2 k1 = Ret [b; c] k3 /\
    a <> b /\ a <> c /\ b <> c /\ b <> 0 /\ c <> 0 /\
    kfree sz a k3 = Ret tt k4 /\
    kfree sz a k4 = Ret tt k5 /\
    kmalloc_each sz 32 n k5 = Ret (replicate n a) k6.
Proof.
  intros Hsz Hadam Hreach Hnone Heq Ha.
  destruct (scen_start adam sz k a k1 Hsz Hadam Hreach Hnone Heq Ha)
    as (A & P & Hpage & -> & Hat1).
  destruct (scen_take adam sz A P Hpage k1 1 1 (init_table 123) 2 Hat1)
    as (k2 & Hb & Hat2); [done|done|lia|].
  destruct (scen_take adam sz A P Hpage k2 2 (u8 (1 + 1)) (init_table 123) 3 Hat2)
    as (k3 & Hc & Hat3); [done|done|lia|].
  destruct (scen_free adam sz A P Hpage k3 3 (u8 (u8 (1 + 1) + 1)) (init_table 123) Hat3)
    as (k4 & Hf1 & Hat4); [done|done|simpl; lia|].
  destruct (scen_free adam sz A P Hpage k4 0 (u8 (u8 (u8 (1 + 1) + 1) - 1))
              (<[0%nat := 3]> (init_table 123)) Hat4)
    as (k5 & Hf2 & Hat5); [done|done|simpl; lia|].
  destruct (scen_stuck adam sz A P _ _ Hpage n k5 Hat5) as (k6 & Hn); [done|].
  pose proof Hpage as (HP0 & _).
  exists (P + 160 + 1 * 32), (P + 160 + 2 * 32), k3, k4, k5, k6.
  split_and!; [|lia..|done|done|done].
  simpl. by rewrite Hb, Hc.
Qed.

Lemma kfree_twice_goes_unnoticed_witness :
  exists b c k3 k4 k5 k6,
    kmalloc_each 48 32 2 (example_after 32 (example_kstate 3)) = Ret [b; c] k3 /\
    2147487904 <> b /\ 2147487904 <> c /\ b <> c /\ b <> 0 /\ c <> 0 /\
    kfree 48 2147487904 k3 = Ret tt k4 /\
    kfree 48 2147487904 k4 = Ret tt k5 /\
    kmalloc_each 48 32 4 k5 = Ret (replicate 4 2147487904) k6.
Proof.
  apply (kfree_twice_goes_unnoticed example_adam 48 (example_kstate 3) 2147487904
           (example_after 32 (example_kstate 3)) 4).
  - unfold KMEM_OBJ_MIN_SIZE, KMEM_OBJ_MAX_SIZE. lia.
  - unfold example_adam. lia.
  - apply example_reachable. lia.
  - intros P m Hm. simpl in Hm. by rewrite lookup_empty in Hm.
  - vm_compute. reflexivity.
  - lia.
Defined.

(** ** Filling a fresh node *)

Section Fill.
Context (adam sz A P size : Z).
Context (Hsize : KMEM_OBJ_MIN_SIZE <= size <= KMEM_OBJ_MAX_SIZE).

Let rs := ROUNDUP16 size.
Let capa := _calc_capa rs.
Let first := P + ROUNDUP16 (KMEM_NODE_FIX + capa).

(** The node at [P] is the head of the list of [A] and has handed out its
    slots below [j] and no other. *)
Let filling (k : kstate) (j : Z) : Prop :=
  kmem_shape adam sz k /\
  (forall Q m, Q <> P -> nodes k !! Q = Some m -> 1 <= cnt m) /\
  (exists al, allocs k !! A = Some al /\ a_list al = P /\ a_obj_size al = rs) /\
  nodes k !! P = Some (mk_kmem_node 0 rs first j j (init_table capa)).

(** All slots of the node at [P] are taken, and it is off the list. *)
Let filled (k : kstate) : Prop :=
  kmem_inv adam sz k /\
  (exists al, allocs k !! A = Some al /\ a_list al = 0 /\ a_obj_size al = rs) /\
  nodes k !! P = Some (mk_kmem_node 0 rs first TABLE_END capa (init_table capa)).

Local Lemma fill_class : size_class rs /\ 1 <= capa <= 123.
Proof.
  pose proof (ROUNDUP16_class _ Hsize) as Hcl. split; [done|]. by apply capa_bounds.
Qed.

Local Lemma fill_take_locked k j :
  filling k j -> 0 <= j < capa ->
  exists k', kmalloc_locked A size k = Ret (first + j * rs) k' /\
    freepages k' = freepages k /\ kmem_table_lock k' = kmem_table_lock k /\
    (j < capa - 1 -> filling k' (j + 1)) /\
    (j = capa - 1 -> kmem_table_lock k = false -> filled k').
Proof.
  intros (Hshape & Hcnt & (al & HA & Hl & Hs) & Hn) Hj.
  destruct fill_class as [Hcl Hcap].
  pose proof Hshape as (Hpg & Hdir & _).
  destruct (pg_nodes _ _ Hpg _ _ Hn) as ((HP0 & _) & _ & _).
  destruct (kmalloc_locked_take adam sz k A al size Hshape HA)
    as (n & a' & Hn' & Ha' & Heq & _ & Hal); [lia|by rewrite Hl|].
  rewrite Hl, Hn in Hn'. injection Hn' as <-. cbn [avail table obj_size obj_addr] in *.
  rewrite (init_table_lookup capa j) in Ha' by lia. injection Ha' as <-.
  rewrite Heq, Hl. unfold slot_addr. cbn [avail table obj_size obj_addr].
  eexists. split; [done|]. split; [done|]. split; [done|].
  destruct Hal as [al_shape al_cnt _ _ _ _ al_lock _ _ _ _]. rewrite Hl in al_shape, al_cnt, al_lock.
  assert (u8 (j + 1) = j + 1) as Hu by (apply u8_small; lia).
  split.
  - intros Hlt. rewrite decide_False in * by lia.
    split_and!; [done|by intros Q m _; apply al_cnt| |].
    + unfold took. cbn [allocs set_allocs]. eexists. rewrite lookup_insert_eq.
      split; [done|]. cbn [a_list a_obj_size].
      rewrite (proj2 (Z.eqb_neq TABLE_END (j + 1))) by (unfold TABLE_END; lia). done.
    + unfold took. cbn [nodes set_allocs set_nodes next obj_size obj_addr cnt table].
      rewrite lookup_insert_eq. by rewrite Hu.
  - intros -> Hlock. rewrite decide_True in * by lia.
    split_and!; [split_and!; [by rewrite al_lock|done|done]| |].
    + unfold took. cbn [allocs set_allocs]. eexists. rewrite lookup_insert_eq.
      split; [done|]. done.
    + unfold took. cbn [nodes set_allocs set_nodes next obj_size obj_addr cnt table].
      rewrite lookup_insert_eq. rewrite Hu. do 2 f_equal. lia.
Qed.

Local Lemma fill_take k j :
  filling k j -> 0 <= j < capa -> kmem_table_lock k = false ->
  exists k', kmalloc sz size k = Ret (first + j * rs) k' /\
    freepages k' = freepages k /\ kmem_table_lock k' = false /\
    (j < capa - 1 -> filling k' (j + 1)) /\ (j = capa - 1 -> filled k').
Proof.
  intros Hf Hj Hlock. pose proof Hf as (Hshape & _ & (al & HA & _ & Hs) & _).
  pose proof Hshape as (_ & Hdir & _).
  rewrite kmalloc_in_range by done.
  rewrite (get_allocator_found adam sz _ size k A al Hdir HA) by done.
  destruct (dir_allocs _ _ _ _ Hdir _ _ HA) as (HA0 & _).
  rewrite (proj2 (Z.eqb_neq A 0)) by done.
  destruct (fill_take_locked k j Hf Hj) as (k' & ? & ? & Hl' & ? & ?).
  exists k'. split_and!; [done|done|congruence|done|auto].
Qed.

Local Lemma fill_run : forall (m : nat) j k,
  filling k j -> 0 <= j -> j + Z.of_nat m <= capa -> kmem_table_lock k = false ->
  exists k', kmalloc_each sz size m k =
               Ret ((fun i => first + i * rs) <$> seqZ j (Z.of_nat m)) k' /\
    freepages k' = freepages k /\
    (j + Z.of_nat m = capa -> (0 < m)%nat -> filled k').
Proof.
  induction m as [|m IH]; intros j k Hf Hj Hm Hlock.
  - exists k. split_and!; [done|done|lia].
  - cbn [kmalloc_each].
    destruct (fill_take k j Hf ltac:(lia) Hlock) as (k1 & -> & Hfp1 & Hlock1 & Hnext & Hlast).
    rewrite seqZ_cons by lia. rewrite fmap_cons.
    replace (Z.pred (Z.of_nat (S m))) with (Z.of_nat m) by lia.
    destruct m as [|m'].
    + exists k1. split_and!; [done|done|]. intros ? _. apply Hlast. lia.
    + destruct (IH (Z.succ j) k1) as (k' & -> & Hfp' & Hfull); [|lia|lia|done|].
      { replace (Z.succ j) with (j + 1) by lia. apply Hnext. lia. }
      exists k'. split_and!; [done|congruence|]. intros ? _. apply Hfull; lia.
Qed.

Lemma fill_fresh k al rest (m : nat) :
  kmem_inv adam sz k -> allocs k !! A = Some al -> a_obj_size al = rs ->
  a_list al = 0 -> freepages k = P :: rest -> (0 < m)%nat -> Z.of_nat m <= capa ->
  exists k', kmalloc_each sz size m k =
               Ret ((fun i => first + i * rs) <$> seqZ 0 (Z.of_nat m)) k' /\
    freepages k' = rest /\
    (Z.of_nat m = capa -> filled k').
Proof.
  intros (Hlock & Hshape & Hcnt) HA Hs Hl Hfp Hm0 Hm.
  destruct fill_class as [Hcl Hcap]. pose proof Hshape as (_ & Hdir & _).
  destruct (dir_allocs _ _ _ _ Hdir _ _ HA) as (HA0 & Hlk & _).
  destruct (fmt_frame adam sz k A al P rest size) as (_ & _ & Hfo & _ & HP0); [done..|].
  pose proof (fmt_shape adam sz k A al P rest size Hshape HA Hl Hfp Hs) as Hshape1.
  pose proof (fmt_node adam sz k A al P rest size Hshape HA Hfp Hs) as Hnode.
  rewrite Hs in Hnode. fold capa first in Hnode.
  set (k0 := formatted A al P rest size k) in *.
  assert (filling k0 0) as Hf0.
  { split_and!; [done| | |].
    - intros Q q HQ. rewrite Hfo by done. apply Hcnt.
    - unfold k0, formatted. cbn [allocs set_allocs]. eexists. rewrite lookup_insert_eq. done.
    - unfold k0, formatted. cbn [nodes set_allocs set_nodes]. rewrite lookup_insert_eq.
      by rewrite Hnode. }
  destruct m as [|m]; [lia|]. cbn [kmalloc_each].
  rewrite kmalloc_in_range by done.
  rewrite (get_allocator_found adam sz _ size k A al Hdir HA) by done.
  rewrite (proj2 (Z.eqb_neq A 0)) by done.
  rewrite (kmalloc_locked_fresh A size k al P rest) by done. fold k0.
  destruct (fill_take_locked k0 0 Hf0 ltac:(lia)) as (k1 & -> & Hfp1 & Hlock1 & Hnext & Hlast).
  rewrite seqZ_cons by lia. rewrite fmap_cons.
  replace (Z.pred (Z.of_nat (S m))) with (Z.of_nat m) by lia.
  destruct m as [|m'].
  - exists k1. split_and!; [done|done|]. intros ?. apply Hlast; [lia|done].
  - destruct (fill_run (S m') 1 k1) as (k' & -> & Hfp' & Hfull); [|lia|lia| |].
    { apply Hnext. lia. }
    { by rewrite Hlock1. }
    exists k'. split_and!; [done|by rewrite Hfp', Hfp1|]. intros ?. apply Hfull; lia.
Qed.

End Fill.

(** X8 — A fresh node is filled in address order.  In a reachable state
    where the instance of a size's class has no node with a free slot and
    a page [P] is at the head of the free pages, the next [m] calls of
    kmalloc for that size (up to the capacity of a node) take the one page
    [P] and return its slots one after the other: the first object region
    address, then one rounded size further each time.  When [m] is the
    capacity, the node is full afterwards ([avail] is [TABLE_END], the
    count is the capacity) and the instance's list is empty again. *)
Theorem kmalloc_fills_fresh_node adam sz k A al P rest size (m : nat) :
  KMEM_OBJ_MIN_SIZE <= sz <= KMEM_OBJ_MAX_SIZE -> adam <> 0 ->
  reachable adam sz k ->
  KMEM_OBJ_MIN_SIZE <= size <= KMEM_OBJ_MAX_SIZE ->
  allocs k !! A = Some al -> a_obj_size al = ROUNDUP16 size -> a_list al = 0 ->
  freepages k = P :: rest ->
  (0 < m)%nat -> Z.of_nat m <= _calc_capa (ROUNDUP16 size) ->
  let rs := ROUNDUP16 size in
  let capa := _calc_capa rs in
  let first := P + ROUNDUP16 (KMEM_NODE_FIX + capa) in
  exists k',
    kmalloc_each sz size m k =
      Ret ((fun i => first + i * rs) <$> seqZ 0 (Z.of_nat m)) k' /\
    freepages k' = rest /\
    (Z.of_nat m = capa ->
       (exists al', allocs k' !! A = Some al' /\ a_list al' = 0) /\
       (exists n, nodes k' !! P = Some n /\ avail n = TABLE_END /\ cnt n = capa)).
Proof.
  intros Hsz Hadam Hreach Hsize HA Hs Hl Hfp Hm0 Hm. cbv zeta.
  pose proof (reachable_inv adam sz k Hsz Hadam Hreach) as Hinv.
  destruct (fill_fresh adam sz A P size Hsize k al rest m Hinv HA Hs Hl Hfp Hm0 Hm)
    as (k' & Heq & Hfp' & Hfull).
  exists k'. split_and!; [done|done|]. intros Hcap.
  destruct (Hfull Hcap) as (_ & (al' & ? & ? & _) & Hn). split; [eauto|].
  eexists. split; [exact Hn|done].
Qed.

Lemma kmalloc_fills_fresh_node_witness :
  let rs := ROUNDUP16 48 in
  let capa := _calc_capa rs in
  let first := 2147483648 + ROUNDUP16 (KMEM_NODE_FIX + capa) in
  exists k',
    kmalloc_each 48 48 3 (example_kstate 3) =
      Ret ((fun i => first + i * rs) <$> seqZ 0 (Z.of_nat 3)) k' /\
    freepages k' = [2147487744; 2147491840] /\
    (Z.of_nat 3 = capa ->
       (exists al', allocs k' !! example_adam = Some al' /\ a_list al' = 0) /\
       (exists n, nodes k' !! 2147483648 = Some n /\ avail n = TABLE_END /\ cnt n = capa)).
Proof.
  apply (kmalloc_fills_fresh_node example_adam 48 (example_kstate 3) example_adam
           (mk_kmem_allocator false 48 0 0 0 0) 2147483648 [2147487744; 2147491840] 48 3).
  - unfold KMEM_OBJ_MIN_SIZE, KMEM_OBJ_MAX_SIZE. lia.
  - unfold example_adam. lia.
  - apply example_reachable. lia.
  - unfold KMEM_OBJ_MIN_SIZE, KMEM_OBJ_MAX_SIZE. lia.
  - vm_compute. reflexivity.
  - reflexivity.
  - reflexivity.
  - vm_compute. reflexivity.
  - lia.
  - vm_compute. intros ?. discriminate.
Defined.

(** * Further properties of the process table *)

(** ** procnum *)

Lemma procnum_fold (ps : list proc_t) : forall acc,
  0 <= acc -> acc + Z.of_nat (length ps) < 2 ^ 31 ->
  foldl (fun num p => if decide (state p = UNUSED) then num else s32 (num + 1)) acc ps =
    acc + Z.of_nat (length (filter (fun p => state p <> UNUSED) ps)).
Proof.
  induction ps as [|p ps IH]; intros acc Hacc Hlen; simpl; [lia|].
  rewrite filter_cons. simpl in Hlen.
  destruct (decide (state p = UNUSED)) as [Hs|Hs].
  - rewrite decide_False by (by intros ?). rewrite IH by lia. done.
  - rewrite decide_True by done. rewrite s32_small by lia. rewrite IH by lia.
    simpl length. lia.
Qed.

Lemma filter_none {A} (P : A -> Prop) `{forall x, Decision (P x)} (l : list A) :
  length (filter P l) = 0%nat <-> Forall (fun x => ~ P x) l.
Proof.
  induction l as [|x l IH]; [by split; [constructor|]|].
  rewrite filter_cons, Forall_cons. destruct (decide (P x)); simpl; [|tauto].
  split; [lia|tauto].
Qed.

Lemma filter_all {A} (P : A -> Prop) `{forall x, Decision (P x)} (l : list A) :
  length (filter P l) = length l <-> Forall P l.
Proof.
  induction l as [|x l IH]; [by split; [constructor|]|].
  rewrite filter_cons, Forall_cons. pose proof (length_filter P l).
  destruct (decide (P x)); simpl; [|split; [lia|tauto]].
  rewrite <- IH. split; [intros; split; [done|lia]|intros [_ ?]; lia].
Qed.

(** One slot rewritten: the count moves by what the slot was and is. *)
Lemma filter_insert_length {A} (P : A -> Prop) `{forall x, Decision (P x)}
    (l : list A) i x y :
  l !! i = Some x ->
  (length (filter P (<[i := y]> l)) + (if decide (P x) then 1 else 0) =
   length (filter P l) + (if decide (P y) then 1 else 0))%nat.
Proof.
  intros Hi. rewrite insert_take_drop by (by eapply lookup_lt_Some).
  rewrite <- (take_drop_middle l i x Hi) at 3.
  rewrite !filter_app, !filter_cons, !length_app.
  destruct (decide (P x)), (decide (P y)); simpl; lia.
Qed.

Lemma procnum_eq w ps :
  Z.of_nat (length ps) < 2 ^ 31 ->
  procnum (set_proc ps w) = Z.of_nat (length (filter (fun p => state p <> UNUSED) ps)).
Proof.
  intros Hps. unfold procnum. cbn [proc set_proc]. rewrite procnum_fold by lia.
  pose proof (length_filter (fun p => state p <> UNUSED) ps).
  rewrite u64_small by plia. lia.
Qed.

Lemma procnum_eq' w :
  Z.of_nat (length (proc w)) < 2 ^ 31 ->
  procnum w = Z.of_nat (length (filter (fun p => state p <> UNUSED) (proc w))).
Proof. intros Hlen. rewrite <- (procnum_eq w (proc w) Hlen). by destruct w. Qed.

(** X9 — procnum returns the number of slots whose state is not UNUSED
    (for a table of fewer than 2^31 slots, so that the [int] counter does
    not overflow): a number between 0 and the size of the table, 0 exactly
    when every slot is UNUSED and the size of the table exactly when none
    is.  It reads the states without taking any lock, so it returns
    whatever locks are held. *)
Theorem procnum_counts (w : kernel) :
  Z.of_nat (length (proc w)) < 2 ^ 31 ->
  procnum w = Z.of_nat (length (filter (fun p => state p <> UNUSED) (proc w))) /\
  0 <= procnum w <= Z.of_nat (length (proc w)) /\
  (procnum w = 0 <-> Forall (fun p => state p = UNUSED) (proc w)) /\
  (procnum w = Z.of_nat (length (proc w)) <->
     Forall (fun p => state p <> UNUSED) (proc w)) /\
  (forall f, (forall p, state (f p) = state p) ->
     procnum (set_proc (f <$> proc w) w) = procnum w).
Proof.
  intros Hlen.
  pose proof (procnum_eq w) as Hnum. pose proof (procnum_eq' w Hlen) as Heq.
  pose proof (length_filter (fun p => state p <> UNUSED) (proc w)) as Hle.
  split_and!; [done|lia|lia| | |].
  - rewrite Heq. change 0 with (Z.of_nat 0). rewrite Nat2Z.inj_iff, filter_none.
    rewrite !Forall_forall. split; intros Hall p Hp; specialize (Hall p Hp).
    + by destruct (decide (state p = UNUSED)).
    + by intros ?.
  - rewrite Heq, Nat2Z.inj_iff. apply filter_all.
  - intros f Hsame. rewrite Hnum by (by rewrite length_fmap). rewrite Heq. f_equal.
    clear -Hsame. induction (proc w) as [|p ps IH]; [done|].
    rewrite fmap_cons, !filter_cons, Hsame.
    destruct (decide (state p <> UNUSED)); simpl; by rewrite IH.
Qed.

Lemma procnum_counts_witness :
  procnum example_staged =
    Z.of_nat (length (filter (fun p => state p <> UNUSED) (proc example_staged))) /\
  0 <= procnum example_staged <= Z.of_nat (length (proc example_staged)) /\
  (procnum example_staged = 0 <->
     Forall (fun p => state p = UNUSED) (proc example_staged)) /\
  (procnum example_staged = Z.of_nat (length (proc example_staged)) <->
     Forall (fun p => state p <> UNUSED) (proc example_staged)) /\
  (forall f, (forall p, state (f p) = state p) ->
     procnum (set_proc (f <$> proc example_staged) example_staged) =
       procnum example_staged).
Proof.
  apply (procnum_counts example_staged). simpl. lia.
Defined.

(** ** The slot scan of allocproc *)

Lemma find_unused_full ps : forall i0,
  Forall (fun q => state q <> UNUSED /\ lock q = false) ps ->
  find_unused ps i0 = inr None.
Proof.
  induction ps as [|q ps IH]; intros i0 Hall; simpl; [done|].
  apply Forall_cons in Hall as [[Hs Hl] Hall]. rewrite Hl.
  rewrite decide_False by done. by apply IH.
Qed.

Lemma find_unused_locked ps : forall i0 j q,
  ps !! j = Some q -> lock q = true ->
  (forall j' q', (j' < j)%nat -> ps !! j' = Some q' ->
     state q' <> UNUSED /\ lock q' = false) ->
  find_unused ps i0 = inl Hang.
Proof.
  induction ps as [|p ps IH]; intros i0 j q Hj Hl Hbefore; [done|].
  destruct j as [|j]; simpl in *.
  - injection Hj as ->. by rewrite Hl.
  - destruct (Hbefore 0%nat p ltac:(lia) eq_refl) as [Hs Hlp]. rewrite Hlp.
    rewrite decide_False by done. apply (IH _ j q); [done..|].
    intros j' q' Hlt. apply (Hbefore (S j')). lia.
Qed.

(** The scan finds the same slot again when only the fields it does not
    read have changed. *)
Lemma find_unused_insert ps : forall i0 j p p',
  find_unused ps i0 = inr (Some ((i0 + j)%nat, p)) -> ps !! j = Some p ->
  state p' = UNUSED -> lock p' = false ->
  find_unused (<[j := p']> ps) i0 = inr (Some ((i0 + j)%nat, p')).
Proof.
  induction ps as [|q ps IH]; intros i0 j p p' Hf Hj Hs Hl; [done|].
  destruct j as [|j]; simpl in *.
  - rewrite Hl. rewrite decide_True by done. do 3 f_equal. lia.
  - destruct (lock q); [done|]. destruct (decide (state q = UNUSED)).
    + injection Hf as Hf _. lia.
    + replace (i0 + S j)%nat with (S i0 + j)%nat in * by lia. by apply (IH _ _ p).
Qed.

Lemma list_alter_as_insert {A} (f : A -> A) (l : list A) i x :
  l !! i = Some x -> alter f i l = <[i := f x]> l.
Proof.
  intros Hi. apply list_eq. intros j. destruct (decide (j = i)) as [->|Hne].
  - rewrite list_lookup_alter_eq, list_lookup_insert_eq by (by eapply lookup_lt_Some).
    by rewrite Hi.
  - by rewrite list_lookup_alter_ne, list_lookup_insert_ne.
Qed.

Section AllocFacts.
Variable sz : Z.
Variable NOFILE : Z.
Variable SIGSET_LEN : nat.
Variable forkret : Z.
Variable kvmcreate : kstate -> Z * kstate.
Variable vma_list_init : Z -> kstate -> Z * kstate.
Variable freewalk : Z -> kstate -> kstate.
Variable uvmfree : proc_t -> kstate -> kstate.
Variable sigaction_free : Z -> kstate -> kstate.
Variable sigframefree : Z -> kstate -> kstate.

Abbreviation allocproc' := (allocproc sz NOFILE SIGSET_LEN forkret kvmcreate vma_list_init
                         freewalk uvmfree sigaction_free sigframefree).
Abbreviation allocproc_publish' := (allocproc_publish sz NOFILE SIGSET_LEN forkret kvmcreate
                         vma_list_init freewalk uvmfree sigaction_free sigframefree).

(** X10 — procnum and allocproc.  With no slot lock held, a table that
    procnum reports as full makes allocproc return [NULL] and change
    nothing.  A slot that allocproc hands out is not counted by procnum:
    the count after a successful allocproc is the count before, and it
    goes up by one only when the caller has set the slot's state. *)
Theorem procnum_allocproc (w : kernel) :
  Z.of_nat (length (proc w)) < 2 ^ 31 ->
  (Forall (fun p => lock p = false) (proc w) ->
   procnum w = Z.of_nat (length (proc w)) -> allocproc' w = Ret None w) /\
  (forall i w', allocproc' w = Ret (Some i) w' ->
     procnum w' = procnum w /\ procnum w < Z.of_nat (length (proc w))) /\
  (forall i w', allocproc_publish' w = Ret (Some i) w' -> procnum w' = procnum w + 1).
Proof.
  intros Hlen. pose proof (procnum_eq' w Hlen) as Heq.
  assert (forall i w', allocproc' w = Ret (Some i) w' ->
            exists p pF, proc w !! i = Some p /\ state p = UNUSED /\
              proc w' = <[i := pF]> (proc w) /\ state pF = UNUSED) as Hinv.
  { intros i w' (p & pF & Hf & Hproc & _ & Hs & _)%allocproc_Some_inv.
    apply find_unused_Some in Hf as (j & -> & Hj & Hsp & _). exists p, pF. done. }
  split_and!.
  - intros Hlocks Hfull. apply allocproc_no_slot, find_unused_full.
    rewrite Heq, Nat2Z.inj_iff in Hfull. apply filter_all in Hfull.
    rewrite Forall_forall in *. intros q Hq. split; [by apply Hfull|by apply Hlocks].
  - intros i w' (p & pF & Hi & Hsp & Hproc & HsF)%Hinv.
    rewrite (procnum_eq' w') by (by rewrite Hproc, length_insert). rewrite Heq, Hproc.
    pose proof (filter_insert_length (fun p => state p <> UNUSED) (proc w) i p pF Hi) as Hc.
    rewrite !decide_False in Hc by (by intros ?). split; [lia|].
    apply Nat2Z.inj_lt. apply (length_filter_lt _ _ p); [by eapply list_elem_of_lookup_2|].
    by intros ?.
  - intros i w' H. unfold allocproc_publish in H.
    apply bind_inv in H as (r & w1 & Ha & H). destruct r as [i'|]; [|done].
    apply bind_inv in H as ([] & w2 & Hp & H). injection H as <- <-.
    injection Hp as <-. apply Hinv in Ha as (p & pF & Hi & Hsp & Hproc & HsF).
    set (f := fun p : proc_t => set_lock false (set_state RUNNABLE p)).
    assert (proc (set_proc (alter f i' (proc w1)) w1) = <[i' := f pF]> (proc w)) as Hproc'.
    { cbn [proc set_proc]. rewrite Hproc.
      rewrite (list_alter_as_insert f _ i' pF)
        by (apply list_lookup_insert_eq; by eapply lookup_lt_Some).
      by rewrite list_insert_insert_eq. }
    rewrite procnum_eq' by (by rewrite Hproc', length_insert). rewrite Heq, Hproc'.
    pose proof (filter_insert_length (fun p => state p <> UNUSED) (proc w) i' p (f pF) Hi)
      as Hc.
    rewrite decide_False in Hc by (by intros ?). rewrite decide_True in Hc by done. lia.
Qed.

(** X11 — allocproc takes the lock of every slot it looks at.  If a slot
    is locked and no slot before it is UNUSED, allocproc does not return:
    it spins on that lock, whatever the slots behind it are. *)
Theorem allocproc_spins_on_held_lock (w : kernel) (j : nat) (q : proc_t) :
  proc w !! j = Some q -> lock q = true ->
  (forall j' q', (j' < j)%nat -> proc w !! j' = Some q' ->
     state q' <> UNUSED /\ lock q' = false) ->
  allocproc' w = Fail Hang.
Proof.
  intros Hj Hl Hbefore. apply allocproc_locked_slot.
  by apply (find_unused_locked (proc w) 0 j q).
Qed.

(** X13 — an allocproc that fails for lack of memory has used up a pid.
    When an UNUSED slot is found and no page is free for the trapframe,
    allocproc returns [NULL] with [nextpid] advanced; the slot is UNUSED
    and unlocked again but keeps the pid in its [pid] field, and the next
    call finds the same slot and gives it the following pid. *)
Theorem allocproc_failure_uses_pid (w : kernel) (i : nat) (p : proc_t) :
  find_unused (proc w) 0 = inr (Some (i, p)) -> pid_lock w = false ->
  freepages (km w) = [] ->
  exists w' p',
    allocproc' w = Ret None w' /\
    nextpid w' = s32 (nextpid w + 1) /\ km w' = km w /\
    proc w' = <[i := p']> (proc w) /\
    state p' = UNUSED /\ lock p' = false /\ pid p' = nextpid w /\
    filelimit p' = NOFILE /\ trapframe p' = 0 /\
    find_unused (proc w') 0 = inr (Some (i, p')).
Proof.
  intros Hf Hl Hfp.
  rewrite (allocproc_trapframe_failure sz NOFILE SIGSET_LEN forkret kvmcreate vma_list_init
             freewalk uvmfree sigaction_free sigframefree w i p Hf Hl Hfp).
  pose proof Hf as (j & Hij & Hj & Hs & Hlp & _)%find_unused_Some. simpl in Hij. subst j.
  eexists _, _. split; [done|]. cbn [nextpid km proc set_proc set_nextpid].
  split_and!; [done|done|done|done|done|done|done|done|].
  apply (find_unused_insert (proc w) 0 i p); done.
Qed.

End AllocFacts.

Lemma procnum_allocproc_witness :
  procnum (example_kernel 12) = 0 /\
  forall i w', example_allocproc (example_kernel 12) = Ret (Some i) w' ->
    procnum w' = procnum (example_kernel 12) /\
    procnum (example_kernel 12) < Z.of_nat (length (proc (example_kernel 12))).
Proof.
  split; [vm_compute; reflexivity|].
  refine (proj1 (proj2 (procnum_allocproc 48 16 2 4242 example_kvmcreate
           example_vma_list_init example_freewalk example_uvmfree example_sigfree
           example_sigfree (example_kernel 12) _))).
  vm_compute. reflexivity.
Defined.

Lemma allocproc_spins_on_held_lock_witness :
  example_allocproc
    (set_proc [set_state RUNNABLE example_proc; set_lock true example_proc; example_proc]
       (example_kernel 12)) = Fail Hang.
Proof.
  apply (allocproc_spins_on_held_lock 48 16 2 4242 example_kvmcreate example_vma_list_init
           example_freewalk example_uvmfree example_sigfree example_sigfree _ 1%nat
           (set_lock true example_proc)).
  - vm_compute. reflexivity.
  - vm_compute. reflexivity.
  - intros j' q' Hlt Hq. destruct j' as [|j']; [|lia].
    injection Hq as <-. split; [discriminate|reflexivity].
Defined.

Lemma allocproc_failure_uses_pid_witness :
  exists w' p',
    example_allocproc (example_kernel 0) = Ret None w' /\
    nextpid w' = s32 (nextpid (example_kernel 0) + 1) /\ km w' = km (example_kernel 0) /\
    proc w' = <[0%nat := p']> (proc (example_kernel 0)) /\
    state p' = UNUSED /\ lock p' = false /\ pid p' = nextpid (example_kernel 0) /\
    filelimit p' = 16 /\ trapframe p' = 0 /\
    find_unused (proc w') 0 = inr (Some (0%nat, p')).
Proof.
  apply (allocproc_failure_uses_pid 48 16 2 4242 example_kvmcreate example_vma_list_init
           example_freewalk example_uvmfree example_sigfree example_sigfree
           (example_kernel 0) 0%nat example_proc).
  - vm_compute. reflexivity.
  - vm_compute. reflexivity.
  - vm_compute. reflexivity.
Defined.

(** ** What allocproc leaves alone *)

Lemma same_but_km_refl w : same_but_km w w.
Proof. exists (km w). by destruct w. Qed.

Lemma same_but_km_trans w1 w2 w3 :
  same_but_km w1 w2 -> same_but_km w2 w3 -> same_but_km w1 w3.
Proof. intros [k ->] [k' ->]. by exists k'. Qed.

Lemma same_but_km_lift {A} (f : kstate -> outcome kstate A) w a w' :
  lift f w = Ret a w' -> same_but_km w w'.
Proof. unfold lift. destruct (f (km w)) as [? k|]; [|done]. intros [= <- <-]. by exists k. Qed.

Lemma same_but_km_call f w a w' : call f w = Ret a w' -> same_but_km w w'.
Proof. intros [= <- <-]. by eexists. Qed.

Section Frame.
Variable sz : Z.
Variable NOFILE : Z.
Variable SIGSET_LEN : nat.
Variable forkret : Z.
Variable kvmcreate : kstate -> Z * kstate.
Variable vma_list_init : Z -> kstate -> Z * kstate.
Variable freewalk : Z -> kstate -> kstate.
Variable uvmfree : proc_t -> kstate -> kstate.
Variable sigaction_free : Z -> kstate -> kstate.
Variable sigframefree : Z -> kstate -> kstate.

Abbreviation allocproc' := (allocproc sz NOFILE SIGSET_LEN forkret kvmcreate vma_list_init
                         freewalk uvmfree sigaction_free sigframefree).
Abbreviation freeproc' := (freeproc sz uvmfree sigaction_free sigframefree).
Abbreviation unwind' := (unwind sz uvmfree sigaction_free sigframefree).

Lemma same_but_km_when b (m : M unit) w a w' :
  (forall a w', m w = Ret a w' -> same_but_km w w') ->
  when b m w = Ret a w' -> same_but_km w w'.
Proof. destruct b; simpl; [eauto|]. intros _ [= <- <-]. apply same_but_km_refl. Qed.

(** freeproc works on the slot it is given and on the allocator. *)
Lemma freeproc_same_but_km p w p' w' : freeproc' p w = Ret p' w' -> same_but_km w w'.
Proof.
  unfold freeproc. intros H.
  apply bind_inv in H as (? & w1 & H1 & H). cbv zeta in H.
  apply bind_inv in H as (? & w2 & H2 & H). cbv zeta in H.
  apply bind_inv in H as (? & w3 & H3 & H).
  apply bind_inv in H as (? & w4 & H4 & H). cbv zeta in H.
  apply bind_inv in H as (? & w5 & H5 & H).
  apply bind_inv in H as (? & w6 & H6 & H).
  injection H as <- <-.
  apply same_but_km_when in H1; [|eauto using @same_but_km_lift].
  apply same_but_km_when in H2; [|eauto using @same_but_km_lift].
  apply same_but_km_when in H3; [|eauto using same_but_km_call].
  apply same_but_km_when in H4; [|eauto using same_but_km_call].
  apply same_but_km_call in H5, H6.
  eauto 10 using same_but_km_trans.
Qed.

Lemma unwind_frame i p w r w' :
  unwind' i p w = Ret r w' ->
  r = None /\ exists k, w' = set_proc (<[i := set_lock false (freed p)]> (proc w)) (set_km k w).
Proof.
  unfold unwind. intros H.
  apply bind_inv in H as (p' & w1 & H1 & H).
  pose proof (freeproc_result _ _ _ _ _ _ _ _ H1) as ->.
  apply freeproc_same_but_km in H1 as [k ->].
  injection H as <- <-. split; [done|]. by exists k.
Qed.

(** The shapes of the state after an allocproc that found slot [i]. *)
Lemma allocproc_slot_frame w i p r w' :
  find_unused (proc w) 0 = inr (Some (i, p)) -> allocproc' w = Ret r w' ->
  exists q k m,
    w' = set_proc (<[i := q]> (proc w))
           (set_mem m (set_km k (set_nextpid (s32 (nextpid w + 1)) w))) /\
    pid_lock w = false /\ state q = UNUSED /\
    (r = None /\ lock q = false /\ m = mem w \/ r = Some i /\ lock q = true).
Proof.
  intros Hf H. destruct (pid_lock w) eqn:Hl.
  { by rewrite (allocproc_pid_locked _ _ _ _ _ _ _ _ _ _ w i p) in H. }
  rewrite (allocproc_eq _ _ _ _ _ _ _ _ _ _ w i p Hf Hl) in H. cbv zeta in H.
  pose proof Hf as (j & _ & _ & Hs & _)%find_unused_Some.
  assert (forall k' ps, set_proc ps (set_km k' (set_nextpid (s32 (nextpid w + 1))
            (set_proc (<[i:=set_lock true p]> (proc w)) w))) =
          set_proc ps (set_mem (mem w) (set_km k' (set_nextpid (s32 (nextpid w + 1)) w))))
    as Hw by done.
  destruct (allocpage (km w)) as [tf k1]. destruct (tf =? 0).
  { injection H as <- <-. eexists _, k1, (mem w). split; [apply Hw|].
    split; [done|]. split; [done|]. by left. }
  destruct (allocpage k1) as [ks k2]. destruct (kvmcreate k2) as [pt k3].
  destruct (pt =? 0).
  { apply unwind_frame in H as [-> [k ->]]. eexists _, k, (mem w).
    split; [cbn [proc set_proc set_km set_nextpid]; by rewrite list_insert_insert_eq|].
    split; [done|split; [done|by left]]. }
  destruct (vma_list_init pt k3) as [v k4]. destruct (v =? 0).
  { apply unwind_frame in H as [-> [k ->]]. eexists _, k, (mem w).
    split; [cbn [proc set_proc set_km set_nextpid]; by rewrite list_insert_insert_eq|].
    split; [done|split; [done|by left]]. }
  destruct (kmalloc sz (u32 (NOFILE * 8)) k4) as [o k5|]; [|done].
  destruct (o =? 0); [done|]. injection H as <- <-.
  destruct (slot_built NOFILE SIGSET_LEN forkret (nextpid w) tf ks pt v o p)
    as (Hlk & Hst & _).
  eexists _, k5, _. split; [done|]. split; [done|]. split; [by rewrite Hst|]. by right.
Qed.

(** X12 — what allocproc leaves alone.  Whenever allocproc returns, with a
    slot or with [NULL], no slot has changed its state and no slot other
    than the first UNUSED one has changed at all; every lock is as it was
    except that of a returned slot, which is held.  [nextpid] has moved on
    by one exactly when an UNUSED slot was found, even if the call then
    failed; memory contents are untouched when [NULL] is returned. *)
Theorem allocproc_frame (w : kernel) (r : option nat) (w' : kernel) :
  allocproc' w = Ret r w' ->
  state <$> proc w' = state <$> proc w /\
  (forall j, r <> Some j -> lock <$> proc w' !! j = lock <$> proc w !! j) /\
  (forall i, r = Some i ->
     lock <$> proc w !! i = Some false /\ lock <$> proc w' !! i = Some true) /\
  (forall j, (forall p, find_unused (proc w) 0 <> inr (Some (j, p))) ->
     proc w' !! j = proc w !! j) /\
  nextpid w' = (if find_unused (proc w) 0 is inr (Some _)
                then s32 (nextpid w + 1) else nextpid w) /\
  (r = None -> mem w' = mem w) /\
  pid_lock w' = pid_lock w /\ runproc w' = runproc w /\ cpu w' = cpu w.
Proof.
  intros H. destruct (find_unused (proc w) 0) as [f|[[i p]|]] eqn:Hf.
  - unfold allocproc, mbind, M_bind, get in H. by rewrite Hf in H.
  - destruct (allocproc_slot_frame w i p r w' Hf H) as (q & k & m & -> & Hl & Hs & Hr).
    apply find_unused_Some in Hf as (j & Hij & Hj & Hsp & Hlp & _).
    simpl in Hij. subst j. cbn [proc nextpid mem pid_lock runproc cpu set_proc set_mem
      set_km set_nextpid].
    assert (i < length (proc w))%nat as Hlt by (by eapply lookup_lt_Some).
    split_and!; [| | | |done| |done..].
    + rewrite list_fmap_insert, Hs, <- Hsp. apply list_insert_id.
      by rewrite list_lookup_fmap, Hj.
    + intros j Hne. destruct (decide (j = i)) as [->|Hji].
      * destruct Hr as [(_ & Hq & _)|[-> _]]; [|done].
        rewrite list_lookup_insert_eq, Hj by done. simpl. by rewrite Hlp, Hq.
      * by rewrite list_lookup_insert_ne.
    + intros i' ->. destruct Hr as [[? _]|[[= ->] Hq]]; [done|].
      rewrite list_lookup_insert_eq, Hj by done. simpl. by rewrite Hlp, Hq.
    + intros j Hne. rewrite list_lookup_insert_ne; [done|]. intros <-. by apply (Hne p).
    + intros Hn. destruct Hr as [(_ & _ & ->)|[-> _]]; done.
  - rewrite (allocproc_no_slot _ _ _ _ _ _ _ _ _ _ w Hf) in H. injection H as <- <-.
    split_and!; try done.
Qed.

End Frame.

Lemma allocproc_frame_witness :
  match example_allocproc (example_kernel 12) with
  | Ret r w' =>
    r = Some 0%nat /\ state <$> proc w' = state <$> proc (example_kernel 12) /\
    nextpid w' = 2
  | Fail _ => False
  end.
Proof.
  assert (ret_val (example_allocproc (example_kernel 12)) = Some (Some 0%nat)) as Hr
    by (vm_compute; reflexivity).
  destruct (example_allocproc (example_kernel 12)) as [r w'|f] eqn:H; [|discriminate].
  injection Hr as ->.
  destruct (allocproc_frame 48 16 2 4242 example_kvmcreate example_vma_list_init
              example_freewalk example_uvmfree example_sigfree example_sigfree
              (example_kernel 12) (Some 0%nat) w' H) as (Hs & _ & _ & _ & Hn & _).
  split; [reflexivity|]. split; [exact Hs|]. exact Hn.
Defined.

(** ** The scheduler loop *)

Section SchedLoop.
Variables (kernel_pagetable : Z) (MAKE_SATP : Z -> Z).
Variable swtch : nat -> M unit.

Abbreviation body := (scheduler_body kernel_pagetable MAKE_SATP swtch).
Abbreviation loop := (scheduler_loop kernel_pagetable MAKE_SATP swtch (mret tt)).

(** With nothing staged a pass only enables interrupts and waits. *)
Lemma scheduler_body_idle w :
  runproc w = None ->
  body w = Ret Idle (set_cpu (mk_cpu (c_proc (cpu w)) (satp (cpu w)) true) w).
Proof.
  intros Hr. unfold scheduler_body.
  by rewrite (bind_Ret _ _ _ _ _ (scheduler_enter_idle MAKE_SATP w Hr)).
Qed.

Lemma scheduler_loop_idle n : forall w,
  runproc w = None ->
  loop n w =
    Ret (replicate n Idle)
        (if n is O then w
         else set_cpu (mk_cpu (c_proc (cpu w)) (satp (cpu w)) true) w).
Proof.
  induction n as [|n IH]; intros w Hr; [done|].
  cbn [scheduler_loop]. rewrite (bind_Ret _ _ _ _ _ (scheduler_body_idle w Hr)).
  unfold mbind at 1, M_bind at 1. unfold mret at 1, M_ret at 1.
  erewrite bind_Ret; [|by apply IH]. unfold mret, M_ret. cbn [replicate].
  f_equal. by destruct n.
Qed.

(** After any pass that returns, nothing is staged. *)
Lemma scheduler_body_unstaged w s w' :
  (forall i w1 w2, swtch i w1 = Ret tt w2 -> runproc w1 = None -> runproc w2 = None) ->
  body w = Ret s w' ->
  runproc w' = None /\
  (c_proc (cpu w) = None -> c_proc (cpu w') = None) /\
  match s with
  | SwitchTo i =>
    runproc w = Some i /\ satp (cpu w') = MAKE_SATP kernel_pagetable /\
    c_proc (cpu w') = None /\
    (exists p, proc w !! i = Some p /\ state p = RUNNABLE /\ lock p = false) /\
    (forall q, proc w' !! i = Some q -> lock q = false)
  | NoSwitch i =>
    runproc w = Some i /\ w' = set_runproc None w /\
    exists p, proc w !! i = Some p /\ state p <> RUNNABLE /\ lock p = false
  | Idle => runproc w = None /\ proc w' = proc w /\ intr_enabled (cpu w') = true
  end.
Proof.
  intros Hsw H. unfold scheduler_body in H.
  apply bind_inv in H as (s' & w1 & He & H).
  destruct (runproc w) as [i|] eqn:Hr.
  - destruct (proc w !! i) as [p|] eqn:Hp.
    2:{ unfold scheduler_enter, mbind, M_bind, get in He. simpl in He.
        by rewrite Hr, Hp in He. }
    destruct (lock p) eqn:Hl.
    { unfold scheduler_enter, mbind, M_bind, get in He. simpl in He.
      by rewrite Hr, Hp, Hl in He. }
    destruct (decide (state p = RUNNABLE)) as [Hs|Hs].
    + rewrite (scheduler_enter_runnable MAKE_SATP w i p Hr Hp Hl Hs) in He.
      injection He as <- <-.
      apply bind_inv in H as ([] & w2 & H2 & H).
      apply Hsw in H2; [|done].
      apply bind_inv in H as ([] & w3 & H3 & H). injection H as <- <-.
      injection H3 as <-. cbn [runproc proc cpu set_proc set_cpu c_proc satp set_c_proc].
      split_and!; try done.
      * by exists p.
      * intros q Hq. rewrite list_lookup_alter_eq in Hq.
        destruct (proc w2 !! i) as [q0|]; [|done]. by injection Hq as <-.
    + rewrite (scheduler_enter_not_runnable MAKE_SATP w i p Hr Hp Hl Hs) in He.
      injection He as <- <-. injection H as <- <-.
      split_and!; try done. by exists p.
  - rewrite (scheduler_enter_idle MAKE_SATP w Hr) in He.
    injection He as <- <-. injection H as <- <-. done.
Qed.

(** X14 — the scheduler runs a staged process at most once.  Every pass
    takes [runproc] and clears it, and nothing in the loop stages a process
    again: on a hart left to itself (the processes it switches to stage
    nothing either) only the first pass can find a process; every later
    pass enables interrupts and waits.  When the loop has switched, the
    hart is back on the kernel page table with no current process. *)
Theorem scheduler_runs_staged_once (w : kernel) (n : nat) :
  (forall i w1 w2, swtch i w1 = Ret tt w2 -> runproc w1 = None -> runproc w2 = None) ->
  let start := set_cpu (set_c_proc None (cpu w)) w in
  (forall s w1, body start = Ret s w1 ->
     exists w', scheduler kernel_pagetable MAKE_SATP swtch (mret tt) (S n) w =
                  Ret (s :: replicate n Idle) w' /\
       proc w' = proc w1 /\ runproc w' = None /\ c_proc (cpu w') = None /\
       (n <> O -> intr_enabled (cpu w') = true) /\
       (s = Idle <-> runproc w = None) /\
       (forall i, s = SwitchTo i -> satp (cpu w') = MAKE_SATP kernel_pagetable)) /\
  (forall ss w', scheduler kernel_pagetable MAKE_SATP swtch (mret tt) (S n) w = Ret ss w' ->
     exists s, ss = s :: replicate n Idle /\ exists w1, body start = Ret s w1).
Proof.
  intros Hsw start. split.
  - intros s w1 Hb.
    destruct (scheduler_body_unstaged start s w1 Hsw Hb) as (Hr1 & Hc & Hs).
    specialize (Hc eq_refl).
    eexists. split.
    { unfold scheduler. unfold mbind at 1, M_bind at 1, modify at 1. fold start.
      cbn [scheduler_loop]. rewrite (bind_Ret _ _ _ _ _ Hb).
      unfold mbind at 1, M_bind at 1. unfold mret at 1, M_ret at 1.
      erewrite bind_Ret; [|by apply scheduler_loop_idle]. done. }
    assert (s = Idle <-> runproc w = None) as Hidle.
    { change (runproc w) with (runproc start).
      destruct s; destruct Hs as (Hrs & _); split; intros ?; congruence. }
    assert (forall i, s = SwitchTo i -> satp (cpu w1) = MAKE_SATP kernel_pagetable) as Hsatp.
    { intros i ->. by destruct Hs as (_ & ? & _). }
    destruct n as [|n]; cbn [proc runproc cpu set_cpu c_proc intr_enabled satp];
      split_and!; done.
  - intros ss w' H. unfold scheduler in H.
    unfold mbind at 1, M_bind at 1, modify at 1 in H. fold start in H.
    cbn [scheduler_loop] in H.
    apply bind_inv in H as (s & w1 & Hb & H).
    destruct (scheduler_body_unstaged start s w1 Hsw Hb) as (Hr1 & _).
    unfold mbind at 1, M_bind at 1 in H. unfold mret at 1, M_ret at 1 in H.
    erewrite bind_Ret in H; [|by apply scheduler_loop_idle].
    injection H as <- <-. exists s. split; [done|]. by exists w1.
Qed.

End SchedLoop.

Lemma scheduler_runs_staged_once_witness :
  match scheduler 0 (fun pt => pt) (fun _ => mret tt) (mret tt) 3 example_staged with
  | Ret ss w' =>
    ss = [SwitchTo 0%nat; Idle; Idle] /\ runproc w' = None /\ c_proc (cpu w') = None /\
    intr_enabled (cpu w') = true
  | Fail _ => False
  end.
Proof.
  assert (ret_val (scheduler_body 0 (fun pt => pt) (fun _ => mret tt)
                     (set_cpu (set_c_proc None (cpu example_staged)) example_staged))
          = Some (SwitchTo 0%nat)) as Hr by (vm_compute; reflexivity).
  destruct (scheduler_body 0 (fun pt => pt) (fun _ => mret tt)
              (set_cpu (set_c_proc None (cpu example_staged)) example_staged))
    as [s w1|] eqn:Hb; [|discriminate].
  injection Hr as ->.
  destruct (scheduler_runs_staged_once 0 (fun pt => pt) (fun _ => mret tt)
              example_staged 2) as [H _].
  { intros i w1' w2 [= <-]. done. }
  destruct (H (SwitchTo 0%nat) w1 Hb) as (w' & Hw & _ & ? & ? & Hi & _).
  rewrite Hw. split_and!; [done..|]. by apply Hi.
Defined.

(** ** From userinit to the first process *)

Lemma read_proc_inv i w p w' :
  read_proc i w = Ret p w' -> w' = w /\ proc w !! i = Some p.
Proof.
  unfold read_proc. destruct (proc w !! i) as [q|]; [|done]. by intros [= <- <-].
Qed.

Section BootFacts.
Variable sz : Z.
Variable NOFILE : Z.
Variable SIGSET_LEN : nat.
Variable forkret_addr : Z.
Variable kvmcreate : kstate -> Z * kstate.
Variable vma_list_init : Z -> kstate -> Z * kstate.
Variable freewalk : Z -> kstate -> kstate.
Variable uvmfree : proc_t -> kstate -> kstate.
Variable sigaction_free : Z -> kstate -> kstate.
Variable sigframefree : Z -> kstate -> kstate.
Variable alloc_load_vma : option nat -> M unit.
Variable copyout : Z -> M unit.
Variable stack_end : Z -> M Z.
Variable safestrcpy : list Z -> list Z -> Z -> list Z.
Variables off_epc off_sp : Z.
Variable myproc : kernel -> option nat.
Variable usertrapret : M unit.
Variable MAKE_SATP : Z -> Z.

Abbreviation allocproc' := (allocproc sz NOFILE SIGSET_LEN forkret_addr kvmcreate
                         vma_list_init freewalk uvmfree sigaction_free sigframefree).
Abbreviation userinit' := (userinit sz NOFILE SIGSET_LEN forkret_addr kvmcreate
                       vma_list_init freewalk uvmfree sigaction_free sigframefree
                       alloc_load_vma copyout stack_end safestrcpy off_epc off_sp).

(** The state userinit leaves behind. *)
Lemma userinit_inv w i w1 :
  userinit' w = Ret i w1 ->
  exists w0 p,
    allocproc' w = Ret (Some i) w0 /\
    runproc w1 = Some i /\ proc w1 !! i = Some p /\
    state p = RUNNABLE /\ lock p = false /\ tmask p = 0.
Proof.
  unfold userinit. intros H.
  apply bind_inv in H as (r & w0 & Ha & H).
  apply bind_inv in H as ([] & wb & Hb & H).
  destruct r as [i'|]; [|done].
  apply bind_inv in H as (p1 & ? & [-> Hp1]%read_proc_inv & H).
  apply bind_inv in H as ([] & wc & Hc & H).
  apply bind_inv in H as (p2 & ? & [-> Hp2]%read_proc_inv & H).
  apply bind_inv in H as ([] & ? & [= <-] & H).
  apply bind_inv in H as (p3 & ? & [-> Hp3]%read_proc_inv & H).
  apply bind_inv in H as (e & wd & Hd & H).
  apply bind_inv in H as (p4 & ? & [-> Hp4]%read_proc_inv & H).
  injection H as <- <-.
  exists w0. eexists. split; [done|]. split; [done|].
  cbn [proc set_proc set_runproc set_mem].
  rewrite !list_lookup_alter_eq, Hp4. done.
Qed.

(** X15 — from userinit to the first process.  userinit uses the pointer
    allocproc returns without looking at it: when allocproc returns [NULL]
    userinit does not return.  When userinit returns, the init process
    sits in the slot allocproc chose, RUNNABLE, unlocked and staged in
    [runproc]; the scheduler's next pass switches to it, and forkret,
    running as that process, releases the lock the scheduler took. *)
Theorem userinit_stages_first_process (w : kernel) :
  (forall w0, allocproc' w = Ret None w0 -> exists f, userinit' w = Fail f) /\
  (forall i w1, userinit' w = Ret i w1 ->
     (exists p0, find_unused (proc w) 0 = inr (Some (i, p0))) /\
     runproc w1 = Some i /\
     (exists p, proc w1 !! i = Some p /\
        state p = RUNNABLE /\ lock p = false /\ tmask p = 0) /\
     exists w2, scheduler_enter MAKE_SATP w1 = Ret (SwitchTo i) w2 /\
       (myproc w2 = c_proc (cpu w2) ->
        exists w3, forkret myproc usertrapret w2 = usertrapret w3 /\
          runproc w3 = None /\ c_proc (cpu w3) = Some i /\
          exists q, proc w3 !! i = Some q /\ state q = RUNNING /\ lock q = false)).
Proof.
  split.
  - intros w0 Ha. unfold userinit. rewrite (bind_Ret _ _ _ _ _ Ha).
    unfold mbind, M_bind. destruct (alloc_load_vma None w0); by eexists.
  - intros i w1 (w0 & p & Ha & Hr & Hp & Hs & Hl & Ht)%userinit_inv.
    apply allocproc_Some_inv in Ha as (p0 & pF & Hf & _).
    split; [by exists p0|]. split; [done|]. split; [by exists p|].
    eexists. split; [by apply (scheduler_enter_runnable MAKE_SATP w1 i p)|].
    cbn [cpu set_cpu c_proc]. intros Hm. eexists. split.
    { unfold forkret, mbind, M_bind, get. rewrite Hm. cbn [cpu set_cpu c_proc].
      unfold release, modify. reflexivity. }
    cbn [runproc proc cpu c_proc set_proc set_cpu set_runproc].
    split; [done|]. split; [done|].
    eexists. split.
    { rewrite list_lookup_alter_eq, list_lookup_insert_eq by (by eapply lookup_lt_Some).
      reflexivity. }
    done.
Qed.

End BootFacts.

Lemma userinit_stages_first_process_witness :
  match userinit 48 16 2 4242 example_kvmcreate example_vma_list_init example_freewalk
          example_uvmfree example_sigfree example_sigfree
          (fun _ => mret tt) (fun _ => mret tt) (fun _ => mret 4096)
          (fun _ src _ => src) 0 8 (example_kernel 12) with
  | Ret i w1 =>
    i = 0%nat /\ runproc w1 = Some 0%nat /\
    exists w2, scheduler_enter (fun pt => pt) w1 = Ret (SwitchTo 0%nat) w2
  | Fail _ => False
  end.
Proof.
  assert (ret_val (userinit 48 16 2 4242 example_kvmcreate example_vma_list_init
            example_freewalk example_uvmfree example_sigfree example_sigfree
            (fun _ => mret tt) (fun _ => mret tt) (fun _ => mret 4096)
            (fun _ src _ => src) 0 8 (example_kernel 12)) = Some 0%nat) as Hr
    by (vm_compute; reflexivity).
  destruct (userinit 48 16 2 4242 example_kvmcreate example_vma_list_init
            example_freewalk example_uvmfree example_sigfree example_sigfree
            (fun _ => mret tt) (fun _ => mret tt) (fun _ => mret 4096)
            (fun _ src _ => src) 0 8 (example_kernel 12)) as [i w1|] eqn:H; [|discriminate].
  injection Hr as ->.
  destruct (userinit_stages_first_process 48 16 2 4242 example_kvmcreate
              example_vma_list_init example_freewalk example_uvmfree example_sigfree
              example_sigfree (fun _ => mret tt) (fun _ => mret tt) (fun _ => mret 4096)
              (fun _ src _ => src) 0 8 (fun w => c_proc (cpu w)) (mret tt)
              (fun pt => pt) (example_kernel 12)) as [_ Hu].
  destruct (Hu 0%nat w1 H) as (_ & Hrun & _ & w2 & Hw2 & _).
  split; [done|]. split; [done|]. by exists w2.
Defined.

(** ** Page accounting of kmalloc and kfree *)

(** What one kmalloc does to the pages and to the live objects. *)
Lemma kmalloc_account adam sz k size :
  KMEM_OBJ_MIN_SIZE <= sz <= KMEM_OBJ_MAX_SIZE -> kmem_inv adam sz k ->
  let size' := if KMEM_OBJ_MIN_SIZE >? size then KMEM_OBJ_MIN_SIZE else size in
  exists r k', kmalloc sz size k = Ret r k' /\ kmem_inv adam sz k' /\
    (length (freepages k') + base.size (nodes k') =
       length (freepages k) + base.size (nodes k))%nat /\
    (length (freepages k) <= length (freepages k') + 2)%nat /\
    (r = 0 -> KMEM_OBJ_MAX_SIZE < size \/ (length (freepages k) <= 1)%nat) /\
    (forall b, is_live k b -> is_live k' b) /\
    (forall b, client_live k' b <-> (r <> 0 /\ b = r) \/ client_live k b) /\
    (r <> 0 ->
       ~ is_live k r /\ is_live k' r /\ allocs k' !! r = None /\
       size <= KMEM_OBJ_MAX_SIZE /\
       (exists A al, allocs k' !! A = Some al /\ a_obj_size al = ROUNDUP16 size') /\
       exists P n, nodes k' !! P = Some n /\ r ∈ node_live n /\
                   obj_size n = ROUNDUP16 size') /\
    (forall B b, allocs k !! B = Some b -> a_obj_size b = ROUNDUP16 size' ->
       a_obj_size <$> allocs k' !! B = Some (a_obj_size b) /\
       forall c, is_live k' c <-> (r <> 0 /\ c = r) \/ is_live k c).
Proof.
  intros Hsz Hinv size'. unfold kmalloc, kmalloc_with. fold size'.
  assert (negb (KMEM_OBJ_MIN_SIZE >? size) && (KMEM_OBJ_MAX_SIZE <? size') = true /\
            KMEM_OBJ_MAX_SIZE < size \/
          (negb (KMEM_OBJ_MIN_SIZE >? size) && (KMEM_OBJ_MAX_SIZE <? size') = false /\
           KMEM_OBJ_MIN_SIZE <= size' <= KMEM_OBJ_MAX_SIZE /\ size <= KMEM_OBJ_MAX_SIZE))
    as [[-> Hbig]|(-> & Hsize' & Hsize)].
  { unfold size', KMEM_OBJ_MIN_SIZE, KMEM_OBJ_MAX_SIZE. rewrite Z.gtb_ltb.
    destruct (Z.ltb_spec size 32); simpl; [right; lia|].
    destruct (Z.ltb_spec 4048 size); [left; split; [done|lia]|right; lia]. }
  { exists 0, k. split; [done|]. split; [done|]. split; [done|]. split; [lia|].
    split; [by left|]. split; [done|].
    split; [intros b; split; [by right|]; by intros [[? _]|?]|]. split; [done|].
    intros B b HB _. split; [by rewrite HB|].
    intros c. split; [by right|]. by intros [[? _]|?]. }
  destruct (get_allocator_spec adam sz k size' Hsz Hinv (ROUNDUP16_class _ Hsize'))
    as (A & k0 & -> & Hlu).
  destruct Hlu as [lu_inv lu_alloc lu_null lu_found lu_live lu_client lu_nodes
    lu_pages lu_page]. pose proof lu_inv as (Hlock0 & Hshape0 & Hcnt0).
  destruct (Z.eqb_spec A 0) as [HA0|HA0].
  { destruct (lu_null HA0) as [-> Hfp]. exists 0, k.
    split; [done|]. split; [done|]. split; [done|]. split; [lia|].
    split; [right; rewrite Hfp; simpl; lia|]. split; [done|].
    split; [intros b; split; [by right|]; by intros [[? _]|?]|]. split; [done|].
    intros B b HB _. split; [by rewrite HB|].
    intros c. split; [by right|]. by intros [[? _]|?]. }
  destruct (lu_alloc HA0) as (al & HA & Hs).
  destruct (kmalloc_locked_spec adam sz k0 A al size' Hshape0 Hcnt0 HA Hs)
    as (r & k' & -> & [(-> & -> & Hfp0)|(Hr & Hal)]).
  { exists 0, k0. split; [done|]. split; [done|]. split; [done|]. split; [lia|].
    split; [right; rewrite Hfp0 in lu_page; simpl in lu_page; lia|].
    split; [done|].
    split; [intros b; rewrite lu_client; split; [by right|]; by intros [[? _]|?]|].
    split; [done|].
    intros B b HB Hb. destruct (lu_found B b HB Hb) as [-> _].
    split; [by rewrite HB|]. intros c. split; [by right|]. by intros [[? _]|?]. }
  exists r, k'. destruct Hal as [al_shape al_cnt al_fresh al_live al_allocs al_table al_lock
      al_nodes al_pages al_page al_at].
  assert (is_live k' r) as Hr' by (apply al_live; by left).
  destruct (live_not_adam _ _ _ _ al_shape Hr') as [Hradam _].
  pose proof (not_live_no_alloc adam sz k0 r Hshape0 al_fresh Hradam) as Hrnone.
  split; [done|]. split; [split_and!; [by rewrite al_lock|done|done]|].
  split; [lia|]. split; [lia|]. split; [done|].
  split; [intros b Hb; apply al_live; right; by apply lu_live|].
  split.
  { intros b. rewrite <- lu_client. unfold client_live. rewrite al_live.
    pose proof (al_allocs b) as Hb. split.
    + intros [[->|?] Hn]; [by left|right]. split; [done|]. rewrite Hn in Hb.
      by destruct (allocs k0 !! b).
    + intros [[_ ->]|[? Hn]].
      * split; [by left|]. pose proof (al_allocs r) as Hr2. rewrite Hrnone in Hr2.
        by destruct (allocs k' !! r).
      * split; [by right|]. rewrite Hn in Hb. by destruct (allocs k' !! b). }
  split.
  - intros _. split_and!.
    + intros Hl. by apply al_fresh, lu_live.
    + done.
    + pose proof (al_allocs r) as Hr2. rewrite Hrnone in Hr2.
      by destruct (allocs k' !! r).
    + done.
    + pose proof (al_allocs A) as HA2. rewrite HA in HA2. simpl in HA2.
      destruct (allocs k' !! A) as [al'|] eqn:HA'; [|done].
      exists A, al'. split; [done|]. injection HA2 as ->. done.
    + destruct al_at as (P & n & Hn & Hsn & Hrn). exists P, n. split_and!; [done..|].
      by rewrite Hsn, Hs.
  - intros B b HB Hb. destruct (lu_found B b HB Hb) as [-> _].
    split; [by rewrite al_allocs, HB|].
    intros c. rewrite al_live. split; [intros [->|?]; [by left|by right]|].
    intros [[_ ->]|?]; [by left|by right].
Qed.

Lemma size_same_keys {A B} (m1 : gmap Z A) (m2 : gmap Z B) :
  (forall Q, is_Some (m1 !! Q) <-> is_Some (m2 !! Q)) -> base.size m1 = base.size m2.
Proof.
  intros H. rewrite <- !(size_dom (D := gset Z)).
  assert (dom m1 ≡@{gset Z} dom m2) as ->; [|done].
  intros Q. by rewrite !elem_of_dom.
Qed.

Lemma size_more_keys {A B} (m1 : gmap Z A) (m2 : gmap Z B) :
  (forall Q, is_Some (m1 !! Q) -> is_Some (m2 !! Q)) -> (base.size m1 <= base.size m2)%nat.
Proof.
  intros H. rewrite <- !(size_dom (D := gset Z)). apply subseteq_size.
  intros Q. rewrite !elem_of_dom. apply H.
Qed.

(** Between two calls the nodes are the pages that hold a live object. *)
Lemma node_iff_live adam sz k P :
  kmem_inv adam sz k -> is_Some (nodes k !! P) <-> exists b, live_at k P b.
Proof.
  intros (_ & ([_ _ Hnodes] & _) & Hcnt). split.
  - intros [n Hn]. destruct (Hnodes _ _ Hn) as (_ & _ & Hok).
    destruct (node_has_live P n Hok (Hcnt _ _ Hn)) as (b & Hb). exists b, n. done.
  - intros (b & n & Hn & _). by exists n.
Qed.

(** kfree moves at most the page of the object's node, from the nodes to
    the free pages. *)
Lemma kfree_account adam sz k a :
  kmem_inv adam sz k -> client_live k a ->
  exists k', kfree sz a k = Ret tt k' /\ kmem_inv adam sz k' /\
    (forall Q b, live_at k' Q b <-> live_at k Q b /\ b <> a) /\
    (forall B, a_obj_size <$> allocs k' !! B = a_obj_size <$> allocs k !! B) /\
    (length (freepages k') + base.size (nodes k') =
       length (freepages k) + base.size (nodes k))%nat.
Proof.
  intros Hinv Ha.
  destruct (kfree_spec adam sz k a Hinv Ha)
    as (k' & Heq & Hinv' & Hlive & Hallocs & Hlast & Hmore & Hsub).
  exists k'. split_and!; [done..|].
  pose proof Hinv as (_ & (Hpg & _) & _).
  destruct Ha as [[P Hat] _].
  destruct (live_at_page adam k P a Hpg Hat) as (_ & _ & _ & HP & _).
  rewrite HP in *. pose proof Hat as (n & Hn & Han).
  destruct (decide (Forall (fun b => b = a) (node_live n))) as [Hall|Hex].
  - rewrite Hlast.
    2:{ intros b (n' & Hn' & Hb). rewrite Hn in Hn'. injection Hn' as <-.
        rewrite Forall_forall in Hall. by apply Hall. }
    assert (base.size (nodes k') = base.size (delete P (nodes k))) as ->.
    { apply size_same_keys. intros Q. rewrite (node_iff_live adam sz k' Q Hinv').
      destruct (decide (Q = P)) as [->|Hne].
      - rewrite lookup_delete_eq. split; [|by intros [? ?]].
        intros (b & Hb). apply Hlive in Hb as [(n' & Hn' & Hb) Hba].
        rewrite Hn in Hn'. injection Hn' as <-.
        rewrite Forall_forall in Hall. by apply Hall in Hb.
      - rewrite lookup_delete_ne by done. rewrite (node_iff_live adam sz k Q Hinv).
        split; intros (b & Hb).
        + apply Hlive in Hb as [Hb _]. by exists b.
        + exists b. apply Hlive. split; [done|]. intros ->.
          by apply Hne, (live_at_unique adam k Q P a). }
    rewrite map_size_delete_Some by (by exists n).
    assert (base.size (nodes k) <> 0)%nat.
    { apply map_size_ne_0_lookup. by exists P, n. }
    simpl. lia.
  - apply not_Forall_Exists in Hex; [|apply _]. apply Exists_exists in Hex as (b & Hb & Hba).
    rewrite Hmore by (exists b; split; [by exists n|done]).
    f_equal. apply size_same_keys. intros Q.
    rewrite (node_iff_live adam sz k' Q Hinv'), (node_iff_live adam sz k Q Hinv).
    split.
    + intros (c & Hc). apply Hlive in Hc as [Hc _]. by exists c.
    + intros (c & Hc). destruct (decide (c = a)) as [->|Hca].
      * assert (Q = P) as -> by by apply (live_at_unique adam k Q P a).
        exists b. apply Hlive. split; [by exists n|done].
      * exists c. by apply Hlive.
Qed.

(** A caller frees a list of objects it holds, each once. *)
Lemma kfree_each_account adam sz : forall objs k,
  kmem_inv adam sz k -> NoDup objs -> (forall a, a ∈ objs -> client_live k a) ->
  exists k', kfree_each sz objs k = Ret tt k' /\ kmem_inv adam sz k' /\
    (forall Q b, live_at k' Q b <-> live_at k Q b /\ b ∉ objs) /\
    (forall B, a_obj_size <$> allocs k' !! B = a_obj_size <$> allocs k !! B) /\
    (length (freepages k') + base.size (nodes k') =
       length (freepages k) + base.size (nodes k))%nat.
Proof.
  induction objs as [|a objs IH]; intros k Hinv Hnd Hobjs.
  - exists k. split_and!; try done. intros Q b. split; [|by intros [? _]].
    intros ?. split; [done|]. by apply not_elem_of_nil.
  - apply NoDup_cons in Hnd as [Hna Hnd].
    destruct (kfree_account adam sz k a Hinv) as (k1 & Heq & Hinv1 & Hlive1 & Hal1 & Hp1).
    { apply Hobjs. by left. }
    destruct (IH k1 Hinv1 Hnd) as (k' & Heq' & Hinv' & Hlive' & Hal' & Hp').
    { intros b Hb. destruct (Hobjs b) as [[Q Hq] Hnone]; [by right|]. split.
      - exists Q. apply Hlive1. split; [done|]. by intros ->.
      - pose proof (Hal1 b) as Hb1. rewrite Hnone in Hb1. by destruct (allocs k1 !! b). }
    exists k'. cbn [kfree_each]. rewrite Heq, Heq'. split_and!; [done|done| | |lia].
    + intros Q b. rewrite Hlive', Hlive1, not_elem_of_cons. tauto.
    + intros B. by rewrite Hal', Hal1.
Qed.

(** A caller takes [m] objects of one size in turn; none of the calls
    returns [NULL]. *)
Lemma kmalloc_each_account adam sz size : forall (m : nat) k objs k1,
  KMEM_OBJ_MIN_SIZE <= sz <= KMEM_OBJ_MAX_SIZE -> kmem_inv adam sz k ->
  kmalloc_each sz size m k = Ret objs k1 -> 0 ∉ objs ->
  let size' := if KMEM_OBJ_MIN_SIZE >? size then KMEM_OBJ_MIN_SIZE else size in
  kmem_inv adam sz k1 /\ NoDup objs /\ length objs = m /\
  (forall a, a ∈ objs -> ~ is_live k a) /\
  (forall b, is_live k b -> is_live k1 b) /\
  (forall b, client_live k1 b <-> b ∈ objs \/ client_live k b) /\
  (length (freepages k1) + base.size (nodes k1) =
     length (freepages k) + base.size (nodes k))%nat /\
  (forall B b, allocs k !! B = Some b -> a_obj_size b = ROUNDUP16 size' ->
     forall c, is_live k1 c <-> c ∈ objs \/ is_live k c).
Proof.
  induction m as [|m IH]; intros k objs k1 Hsz Hinv Hrun H0 size'.
  - injection Hrun as <- <-. split_and!; try done.
    + constructor.
    + by intros a ?%elem_of_nil.
    + intros b. split; [by right|]. by intros [?%elem_of_nil|?].
    + intros B b _ _ c. split; [by right|]. by intros [?%elem_of_nil|?].
  - cbn [kmalloc_each] in Hrun.
    destruct (kmalloc_account adam sz k size Hsz Hinv)
      as (r & k' & Heq & Hinv' & Hp & _ & _ & Hmono & Hcl & Hr & Hinst).
    fold size' in Hr, Hinst.
    rewrite Heq in Hrun.
    destruct (kmalloc_each sz size m k') as [rest k1'|] eqn:Hrest; [|done].
    injection Hrun as <- <-.
    apply not_elem_of_cons in H0 as [Hr0 H0].
    destruct (Hr ltac:(done)) as (Hfresh & Hrl & Hrnone & _).
    destruct (IH k' rest k1' Hsz Hinv' Hrest H0)
      as (Hinv1 & Hnd & Hlen & Hnew & Hmono1 & Hcl1 & Hp1 & Hinst1).
    fold size' in Hinst1.
    split_and!; [done| |by rewrite <- Hlen| | | |lia|].
    + apply NoDup_cons. split; [|done]. intros Hin. by apply (Hnew r Hin).
    + intros a [->|Ha]%elem_of_cons; [done|].
      intros Hl. by apply (Hnew a Ha), Hmono.
    + intros b Hb. by apply Hmono1, Hmono.
    + intros b. rewrite Hcl1, Hcl, elem_of_cons.
      split; [intros [?|[[_ ->]|?]]|intros [[->|?]|?]]; eauto.
    + intros B b HB Hb c. destruct (Hinst B b HB Hb) as [HB' Hc].
      destruct (allocs k' !! B) as [b'|] eqn:HB2; [|done]. injection HB' as HB'.
      rewrite (Hinst1 B b' HB2) by congruence. rewrite Hc, elem_of_cons.
      split; [intros [?|[[_ ->]|?]]|intros [[->|?]|?]]; eauto.
Qed.

(** The first allocation of a size class, looked at after get_allocator
    has created the instance: from the state in between, the same call
    gives the same result. *)
Lemma kmalloc_first_use adam sz k size r k' :
  KMEM_OBJ_MIN_SIZE <= sz <= KMEM_OBJ_MAX_SIZE -> kmem_inv adam sz k ->
  kmalloc sz size k = Ret r k' -> r <> 0 ->
  let size' := if KMEM_OBJ_MIN_SIZE >? size then KMEM_OBJ_MIN_SIZE else size in
  exists k0, kmem_inv adam sz k0 /\ kmalloc sz size k0 = Ret r k' /\
    (exists A al, allocs k0 !! A = Some al /\ a_obj_size al = ROUNDUP16 size') /\
    (length (freepages k0) <= length (freepages k) <= S (length (freepages k0)))%nat /\
    (forall b, client_live k0 b <-> client_live k b).
Proof.
  intros Hsz Hinv Heq Hr size'. revert Heq. unfold kmalloc, kmalloc_with. fold size'.
  assert (negb (KMEM_OBJ_MIN_SIZE >? size) && (KMEM_OBJ_MAX_SIZE <? size') = true \/
          (negb (KMEM_OBJ_MIN_SIZE >? size) && (KMEM_OBJ_MAX_SIZE <? size') = false /\
           KMEM_OBJ_MIN_SIZE <= size' <= KMEM_OBJ_MAX_SIZE))
    as [->|(-> & Hsize')].
  { unfold size', KMEM_OBJ_MIN_SIZE, KMEM_OBJ_MAX_SIZE. rewrite Z.gtb_ltb.
    destruct (Z.ltb_spec size 32); simpl; [right; lia|].
    destruct (Z.ltb_spec 4048 size); [by left|right; lia]. }
  { by intros [= <- <-]. }
  destruct (get_allocator_spec adam sz k size' Hsz Hinv (ROUNDUP16_class _ Hsize'))
    as (A & k0 & Hget & Hlu).
  rewrite Hget.
  destruct Hlu as [lu_inv lu_alloc lu_null lu_found lu_live lu_client lu_nodes
    lu_pages lu_page].
  destruct (Z.eqb_spec A 0) as [HA0|HA0]; [by intros [= <- <-]|].
  intros Heq. destruct (lu_alloc HA0) as (al & HA & Hs).
  exists k0. split; [done|]. split.
  { pose proof lu_inv as (_ & (_ & Hdir & _) & _).
    rewrite (get_allocator_found adam sz _ size' k0 A al Hdir HA Hs).
    by rewrite (proj2 (Z.eqb_neq A 0)). }
  split; [by exists A, al|]. split; [|done].
  destruct (get_allocator_pages adam sz k size' A k0 Hsz Hinv Hget) as [->|[P ->]];
    simpl; lia.
Qed.

(** Objects taken and given back: what is left are the objects callers
    held before, and the pages that were nodes before are nodes again. *)
Lemma round_trip_account adam sz size (m : nat) k objs k1 :
  KMEM_OBJ_MIN_SIZE <= sz <= KMEM_OBJ_MAX_SIZE -> kmem_inv adam sz k ->
  kmalloc_each sz size m k = Ret objs k1 -> 0 ∉ objs ->
  let size' := if KMEM_OBJ_MIN_SIZE >? size then KMEM_OBJ_MIN_SIZE else size in
  exists k2, kfree_each sz objs k1 = Ret tt k2 /\ kmem_inv adam sz k2 /\
    (forall b, client_live k2 b <-> client_live k b) /\
    (length (freepages k2) + base.size (nodes k2) =
       length (freepages k1) + base.size (nodes k1))%nat /\
    (length (freepages k2) <= length (freepages k))%nat /\
    ((exists A al, allocs k !! A = Some al /\ a_obj_size al = ROUNDUP16 size') ->
     length (freepages k2) = length (freepages k)).
Proof.
  intros Hsz Hinv Hrun H0 size'.
  destruct (kmalloc_each_account adam sz size m k objs k1 Hsz Hinv Hrun H0)
    as (Hinv1 & Hnd & _ & Hfresh & Hmono & Hcl & Hp1 & Hinst). fold size' in Hinst.
  destruct (kfree_each_account adam sz objs k1 Hinv1 Hnd)
    as (k2 & Heq & Hinv2 & Hlive & Hal & Hp2).
  { intros a Ha. apply Hcl. by left. }
  pose proof Hinv as (_ & (Hpg & _) & _). pose proof Hinv1 as (_ & (Hpg1 & _) & _).
  assert (forall Q b, live_at k Q b -> live_at k2 Q b) as Hkeep.
  { intros Q b Hb. apply Hlive. split.
    - destruct (Hmono b) as [Q' Hb']; [by exists Q|].
      destruct (live_at_page adam k Q b Hpg Hb) as (_ & _ & _ & <- & _).
      by destruct (live_at_page adam k1 Q' b Hpg1 Hb') as (_ & _ & _ & -> & _).
    - intros Hin. apply (Hfresh b Hin). by exists Q. }
  assert (base.size (nodes k) <= base.size (nodes k2))%nat as Hle.
  { apply size_more_keys. intros Q.
    rewrite (node_iff_live adam sz k Q Hinv), (node_iff_live adam sz k2 Q Hinv2).
    intros (b & Hb). exists b. by apply Hkeep. }
  exists k2. split_and!; [done|done| |done|lia|].
  - intros b. unfold client_live at 1.
    assert (allocs k2 !! b = None <-> allocs k1 !! b = None) as ->.
    { pose proof (Hal b) as Hb. by destruct (allocs k2 !! b), (allocs k1 !! b). }
    split.
    + intros [[Q [Hb Hn]%Hlive] Hnone].
      assert (client_live k1 b) as [?|?]%Hcl; [split; [by exists Q|done]|done..].
    + intros Hb. assert (client_live k1 b) as [[Q Hq] Hnone] by (apply Hcl; by right).
      split; [|done]. exists Q. apply Hlive. split; [done|].
      intros Hin. apply (Hfresh b Hin). by destruct Hb.
  - intros (A & al & HA & Hs).
    assert (base.size (nodes k2) = base.size (nodes k)) as Heqs; [|lia].
    apply size_same_keys. intros Q.
    rewrite (node_iff_live adam sz k Q Hinv), (node_iff_live adam sz k2 Q Hinv2).
    split; [|intros (b & Hb); exists b; by apply Hkeep].
    intros (b & [Hb Hn]%Hlive). exists b.
    assert (is_live k1 b) as [?|[Q' Hb']]%(Hinst A al HA Hs) by (by exists Q); [done|].
    destruct (Hmono b) as [Q'' Hb'']; [by exists Q'|].
    destruct (live_at_page adam k Q' b Hpg Hb') as (_ & _ & _ & HQ' & _).
    destruct (live_at_page adam k1 Q b Hpg1 Hb) as (_ & _ & _ & HQ & _).
    by rewrite <- HQ, HQ'.
Qed.

(** C8, as amended.  In a reachable state:

    - take any set of slab nodes (in particular N fully populated nodes of
      one size class) and a list holding each of their live objects once,
      none of them an allocator instance; kfree of the objects in turn
      succeeds every time (the panic for a broken list does not fire) and
      returns exactly those pages: the free pages afterwards are the
      nodes' pages and the pages that were free before, and the nodes are
      gone;

    - take any number of objects of one size with kmalloc, none of the
      calls returning [NULL], and free them all, each once: every kfree
      succeeds, the callers hold the objects they held before, the frees
      return as many pages as nodes disappear, and the page count is the
      count before the allocations or one less.  It is the count before
      the allocations whenever the size class had its allocator instance
      already; the page that can stay behind is the one taken for the
      node of a newly created instance, which is never freed. *)
Theorem kfree_returns_node_pages adam sz k :
  KMEM_OBJ_MIN_SIZE <= sz <= KMEM_OBJ_MAX_SIZE -> adam <> 0 ->
  reachable adam sz k ->
  (forall objs Ps,
     NoDup objs -> NoDup Ps ->
     (forall P, P ∈ Ps -> is_Some (nodes k !! P)) ->
     (forall a, a ∈ objs <-> exists P, P ∈ Ps /\ live_at k P a) ->
     (forall a, a ∈ objs -> allocs k !! a = None) ->
     exists k', kfree_each sz objs k = Ret tt k' /\
       freepages k' ≡ₚ Ps ++ freepages k /\
       length (freepages k') = (length (freepages k) + length Ps)%nat /\
       forall P, P ∈ Ps -> nodes k' !! P = None) /\
  (forall size (m : nat) objs k1,
     kmalloc_each sz size m k = Ret objs k1 -> 0 ∉ objs ->
     exists k2, kfree_each sz objs k1 = Ret tt k2 /\
       (forall b, client_live k2 b <-> client_live k b) /\
       (length (freepages k2) + base.size (nodes k2) =
          length (freepages k1) + base.size (nodes k1))%nat /\
       (length (freepages k2) <= length (freepages k) <= S (length (freepages k2)))%nat /\
       ((exists A al, allocs k !! A = Some al /\
           a_obj_size al =
             ROUNDUP16 (if KMEM_OBJ_MIN_SIZE >? size then KMEM_OBJ_MIN_SIZE else size)) ->
        length (freepages k2) = length (freepages k))).
Proof.
  intros Hsz Hadam Hreach.
  pose proof (reachable_inv adam sz k Hsz Hadam Hreach) as Hinv. split.
  - intros objs Ps Hnd HndP Hnodes Hobjs Hclient.
    destruct (kfree_each_spec adam sz objs k Ps Hinv Hnd HndP)
      as (k' & Heq & Hinv' & Hperm); [|done..|].
    + intros P [n Hn]%Hnodes. destruct Hinv as (_ & (Hpg & _) & Hcnt).
      destruct (pg_nodes _ _ Hpg _ _ Hn) as (_ & _ & Hok).
      destruct (node_has_live P n Hok (Hcnt _ _ Hn)) as (b & Hb). exists b, n. done.
    + exists k'. split_and!; [done|done| |].
      * rewrite Hperm, length_app. lia.
      * intros P HP. destruct (nodes k' !! P) as [n|] eqn:Hn; [|done]. exfalso.
        destruct Hinv' as (_ & (Hpg' & _) & _).
        destruct (pg_nodes _ _ Hpg' _ _ Hn) as (_ & Hni & _). apply Hni.
        rewrite Hperm. apply elem_of_app. by left.
  - intros size m objs k1 Hrun H0.
    destruct (round_trip_account adam sz size m k objs k1 Hsz Hinv Hrun H0)
      as (k2 & Heq & _ & Hcl & Hp & Hle & Hsame).
    exists k2. split_and!; [done..| |done].
    destruct m as [|m].
    { injection Hrun as <- <-. injection Heq as <-. lia. }
    cbn [kmalloc_each] in Hrun.
    destruct (kmalloc sz size k) as [r k'|] eqn:Hfirst; [|done].
    destruct (kmalloc_each sz size m k') as [rest k1'|] eqn:Hrest; [|done].
    injection Hrun as <- <-. apply not_elem_of_cons in H0 as H0'. destruct H0' as [Hr0 _].
    destruct (kmalloc_first_use adam sz k size r k' Hsz Hinv Hfirst ltac:(done))
      as (k0 & Hinv0 & Hfirst0 & Hinst0 & Hpages0 & _).
    destruct (round_trip_account adam sz size (S m) k0 (r :: rest) k1' Hsz Hinv0)
      as (k2' & Heq' & _ & _ & _ & _ & Hsame0); [|done|].
    { cbn [kmalloc_each]. by rewrite Hfirst0, Hrest. }
    rewrite Heq in Heq'. injection Heq' as <-.
    rewrite (Hsame0 Hinst0). lia.
Qed.

Lemma kfree_returns_node_pages_witness :
  (exists k', kfree_each 48 [2147487776; 2147491872] example_full_nodes = Ret tt k' /\
     freepages k' ≡ₚ [2147487744; 2147491840] ++ freepages example_full_nodes /\
     length (freepages k') = (length (freepages example_full_nodes) + 2)%nat /\
     forall P, P ∈ [2147487744; 2147491840] -> nodes k' !! P = None) /\
  match kmalloc_each 48 4048 2 (example_after 4048 (example_kstate 5)) with
  | Ret objs k1 =>
    length (freepages (example_after 4048 (example_kstate 5))) = 3%nat /\
    length (freepages k1) = 1%nat /\
    exists k2, kfree_each 48 objs k1 = Ret tt k2 /\ length (freepages k2) = 3%nat
  | Fail _ => False
  end.
Proof.
  split.
  - apply (proj1 (kfree_returns_node_pages example_adam 48 example_full_nodes
             ltac:(unfold KMEM_OBJ_MIN_SIZE, KMEM_OBJ_MAX_SIZE; lia)
             ltac:(unfold example_adam; lia)
             ltac:(apply reachable_after;
                     [apply reachable_after; [apply example_reachable|]|]; plia))
           [2147487776; 2147491872] [2147487744; 2147491840]).
    + apply (bool_decide_unpack _). vm_compute. exact I.
    + apply (bool_decide_unpack _). vm_compute. exact I.
    + intros P [->| ->]%elem_of_pair; vm_compute; eauto.
    + intros a. split.
      * intros [->| ->]%elem_of_pair.
        -- exists 2147487744. split; [left|]. eexists. split; [vm_compute; reflexivity|].
           apply (bool_decide_unpack _). vm_compute. exact I.
        -- exists 2147491840. split; [right; left|]. eexists.
           split; [vm_compute; reflexivity|].
           apply (bool_decide_unpack _). vm_compute. exact I.
      * intros (P & [->| ->]%elem_of_pair & n & Hn & Ha);
          vm_compute in Hn; injection Hn as <-; vm_compute in Ha;
          apply list_elem_of_singleton in Ha as ->; [left|right; left].
    + intros a [->| ->]%elem_of_pair; vm_compute; reflexivity.
  - assert ((fun o => (ret_val o, length ∘ freepages <$> ret_state o))
              (kmalloc_each 48 4048 2 (example_after 4048 (example_kstate 5)))
            = (Some [2147491872; 2147495968], Some 1%nat)) as Hrun
      by (vm_compute; reflexivity).
    destruct (kmalloc_each 48 4048 2 (example_after 4048 (example_kstate 5)))
      as [objs k1|] eqn:Heq; [|discriminate].
    simpl in Hrun. injection Hrun as -> Hk1.
    assert (length (freepages (example_after 4048 (example_kstate 5))) = 3%nat) as Hk
      by (vm_compute; reflexivity).
    destruct (proj2 (kfree_returns_node_pages example_adam 48
                (example_after 4048 (example_kstate 5))
                ltac:(unfold KMEM_OBJ_MIN_SIZE, KMEM_OBJ_MAX_SIZE; lia)
                ltac:(unfold example_adam; lia)
                ltac:(apply reachable_after; [apply example_reachable|]; plia))
              4048 2%nat _ k1 Heq) as (k2 & Hfree & _ & _ & _ & Hsame).
    { apply (bool_decide_unpack _). vm_compute. exact I. }
    split; [done|]. split; [done|]. exists k2. split; [done|].
    rewrite Hsame, Hk; [done|].
    exists 2147483760. eexists. split; vm_compute; reflexivity.
Defined.

(** ** Size limits of kmalloc *)

(** C6 — kmalloc raises a size below the minimum object size to the minimum
    and carries on; a size above the maximum object size is turned down with
    [NULL], the state unchanged; in particular kmalloc(4049) returns [NULL].
    Carrying on means that the request is served like any other: in a
    reachable state kmalloc of a size up to the maximum returns, with an
    object whenever two pages are free, and the object is a new live object
    of a node of the size's class, which for a size below the minimum is
    the class of 32-byte objects. *)
Theorem kmalloc_size_limits (adam sz size : Z) (k : kstate) :
  (size < KMEM_OBJ_MIN_SIZE -> kmalloc sz size k = kmalloc sz KMEM_OBJ_MIN_SIZE k) /\
  (KMEM_OBJ_MAX_SIZE < size -> kmalloc sz size k = Ret 0 k) /\
  kmalloc sz 4049 k = Ret 0 k /\
  (KMEM_OBJ_MIN_SIZE <= sz <= KMEM_OBJ_MAX_SIZE -> adam <> 0 ->
   reachable adam sz k -> size <= KMEM_OBJ_MAX_SIZE ->
   exists r k', kmalloc sz size k = Ret r k' /\
     ((2 <= length (freepages k))%nat -> r <> 0) /\
     (r <> 0 ->
        ~ is_live k r /\ client_live k' r /\
        exists P n, nodes k' !! P = Some n /\ r ∈ node_live n /\
          obj_size n = ROUNDUP16 (Z.max size KMEM_OBJ_MIN_SIZE) /\
          (size < KMEM_OBJ_MIN_SIZE -> obj_size n = KMEM_OBJ_MIN_SIZE))).
Proof.
  split_and!.
  - unfold kmalloc, kmalloc_with, KMEM_OBJ_MIN_SIZE, KMEM_OBJ_MAX_SIZE.
    intros H. rewrite (proj2 (Z.gtb_lt 32 size)) by lia. done.
  - unfold kmalloc, kmalloc_with, KMEM_OBJ_MIN_SIZE, KMEM_OBJ_MAX_SIZE.
    intros H. destruct (32 >? size) eqn:E1.
    { apply Z.gtb_lt in E1. lia. }
    rewrite (proj2 (Z.ltb_lt 4048 size)) by lia. done.
  - done.
  - intros Hsz Hadam Hreach Hsize.
    pose proof (reachable_inv adam sz k Hsz Hadam Hreach) as Hinv.
    destruct (kmalloc_account adam sz k size Hsz Hinv)
      as (r & k' & Heq & _ & _ & _ & Hnull & _ & Hcl & Hr & _).
    exists r, k'. split; [done|]. split.
    + intros Hpages ->. destruct (Hnull eq_refl); lia.
    + intros Hr0. destruct (Hr Hr0) as (Hfresh & _ & _ & _ & _ & P & n & Hn & Hrn & Hs).
      split; [done|]. split; [apply Hcl; by left|].
      exists P, n. split; [done|]. split; [done|].
      assert ((if KMEM_OBJ_MIN_SIZE >? size then KMEM_OBJ_MIN_SIZE else size)
              = Z.max size KMEM_OBJ_MIN_SIZE) as Hmax.
      { rewrite Z.gtb_ltb. destruct (Z.ltb_spec size KMEM_OBJ_MIN_SIZE); lia. }
      rewrite <- Hmax. split; [done|]. intros Hsmall. rewrite Hs.
      rewrite (proj2 (Z.gtb_lt _ _)) by lia. reflexivity.
Qed.

Lemma kmalloc_size_limits_witness :
  kmalloc 48 5 (example_kstate 4) = kmalloc 48 KMEM_OBJ_MIN_SIZE (example_kstate 4) /\
  kmalloc 48 5000 (example_kstate 4) = Ret 0 (example_kstate 4) /\
  exists r k', kmalloc 48 5 (example_kstate 4) = Ret r k' /\ r <> 0 /\
    exists P n, nodes k' !! P = Some n /\ r ∈ node_live n /\ obj_size n = 32.
Proof.
  split_and!.
  - apply (proj1 (kmalloc_size_limits example_adam 48 5 (example_kstate 4))). reflexivity.
  - apply (proj1 (proj2 (kmalloc_size_limits example_adam 48 5000 (example_kstate 4)))).
    reflexivity.
  - destruct (proj2 (proj2 (proj2
               (kmalloc_size_limits example_adam 48 5 (example_kstate 4)))))
      as (r & k' & Heq & Hr & Hobj).
    + unfold KMEM_OBJ_MIN_SIZE, KMEM_OBJ_MAX_SIZE. lia.
    + unfold example_adam. lia.
    + apply example_reachable. lia.
    + unfold KMEM_OBJ_MAX_SIZE. lia.
    + assert (r <> 0) as Hr0 by (apply Hr; vm_compute; lia).
      destruct (Hobj Hr0) as (_ & _ & P & n & Hn & Hrn & _ & Hs).
      exists r, k'. split; [done|]. split; [done|]. exists P, n.
      split; [done|]. split; [done|]. apply Hs. reflexivity.
Defined.

(** ** allocproc with memory to spare *)

(** The page allocator in a reachable state: a free page is handed out,
    and it is not [NULL]. *)
Lemma allocpage_reachable adam sz k :
  KMEM_OBJ_MIN_SIZE <= sz <= KMEM_OBJ_MAX_SIZE -> adam <> 0 ->
  reachable adam sz k ->
  exists p k', allocpage k = (p, k') /\ reachable adam sz k' /\
    (length (freepages k) <= S (length (freepages k')))%nat /\
    ((1 <= length (freepages k))%nat -> p <> 0).
Proof.
  intros Hsz Hadam Hreach.
  pose proof (reachable_inv adam sz k Hsz Hadam Hreach) as (_ & ([_ Hfree _] & _) & _).
  pose proof (reach_allocpage adam sz k Hreach) as Hreach'.
  unfold allocpage in *. destruct (freepages k) as [|p rest] eqn:Hfp.
  - exists 0, k. split_and!; [done|done|simpl; lia|simpl; lia].
  - eexists p, _. split_and!; [done|done|simpl; lia|].
    intros _. destruct (Hfree p) as [? _]; [left|lia].
Qed.

(** kmalloc in a reachable state with two free pages returns an object. *)
Lemma kmalloc_reachable adam sz k size :
  KMEM_OBJ_MIN_SIZE <= sz <= KMEM_OBJ_MAX_SIZE -> adam <> 0 ->
  reachable adam sz k -> 0 <= size <= KMEM_OBJ_MAX_SIZE ->
  (2 <= length (freepages k))%nat ->
  exists o k', kmalloc sz size k = Ret o k' /\ o <> 0 /\ reachable adam sz k' /\
    (length (freepages k) <= length (freepages k') + 2)%nat.
Proof.
  intros Hsz Hadam Hreach Hsize Hpages.
  pose proof (reachable_inv adam sz k Hsz Hadam Hreach) as Hinv.
  destruct (kmalloc_account adam sz k size Hsz Hinv)
    as (o & k' & Heq & _ & _ & Hp & Hnull & _).
  exists o, k'. split_and!; [done| | |done].
  - intros ->. destruct (Hnull eq_refl); lia.
  - apply (reach_kmalloc adam sz k size o k'); [done| |done].
    unfold KMEM_OBJ_MAX_SIZE in Hsize. plia.
Qed.

Section FillFacts.
Variables (adam sz : Z).
Variable NOFILE : Z.
Variable SIGSET_LEN : nat.
Variable forkret : Z.
Variable kvmcreate : kstate -> Z * kstate.
Variable vma_list_init : Z -> kstate -> Z * kstate.
Variable freewalk : Z -> kstate -> kstate.
Variable uvmfree : proc_t -> kstate -> kstate.
Variable sigaction_free : Z -> kstate -> kstate.
Variable sigframefree : Z -> kstate -> kstate.

(** The pages kvmcreate and vma_list_init may take. *)
Variables (ck cv : nat).

Abbreviation allocproc' := (allocproc sz NOFILE SIGSET_LEN forkret kvmcreate vma_list_init
                         freewalk uvmfree sigaction_free sigframefree).
Abbreviation allocproc_publish' := (allocproc_publish sz NOFILE SIGSET_LEN forkret kvmcreate
                         vma_list_init freewalk uvmfree sigaction_free sigframefree).
Abbreviation allocproc_publish_n' := (allocproc_publish_n sz NOFILE SIGSET_LEN forkret
                         kvmcreate vma_list_init freewalk uvmfree sigaction_free
                         sigframefree).

Lemma allocproc_succeeds w i p :
  KMEM_OBJ_MIN_SIZE <= sz <= KMEM_OBJ_MAX_SIZE -> adam <> 0 ->
  0 <= NOFILE * 8 <= KMEM_OBJ_MAX_SIZE ->
  kvmcreate_ok adam sz kvmcreate ck -> vma_list_init_ok adam sz vma_list_init cv ->
  find_unused (proc w) 0 = inr (Some (i, p)) -> pid_lock w = false ->
  reachable adam sz (km w) ->
  (4 + ck + cv <= length (freepages (km w)))%nat ->
  exists w', allocproc' w = Ret (Some i) w' /\ pid_lock w' = false /\
    reachable adam sz (km w') /\
    (length (freepages (km w)) <= length (freepages (km w')) + (4 + ck + cv))%nat.
Proof.
  intros Hsz Hadam Hnofile Hkvm Hvma Hf Hl Hreach Hpages.
  rewrite (allocproc_eq sz NOFILE SIGSET_LEN forkret kvmcreate vma_list_init freewalk
             uvmfree sigaction_free sigframefree w i p Hf Hl). cbv zeta.
  destruct (allocpage_reachable adam sz (km w) Hsz Hadam Hreach)
    as (tf & k1 & -> & Hr1 & Hp1 & Htf).
  rewrite (proj2 (Z.eqb_neq tf 0)) by (apply Htf; lia).
  destruct (allocpage_reachable adam sz k1 Hsz Hadam Hr1)
    as (ks & k2 & -> & Hr2 & Hp2 & _).
  destruct (Hkvm k2 Hr2) as (pt & k3 & -> & Hpt & Hr3 & Hp3); [lia|].
  rewrite (proj2 (Z.eqb_neq pt 0)) by done.
  destruct (Hvma pt k3 Hpt Hr3) as (v & k4 & -> & Hv & Hr4 & Hp4); [lia|].
  rewrite (proj2 (Z.eqb_neq v 0)) by done.
  assert (u32 (NOFILE * 8) = NOFILE * 8) as ->.
  { apply u32_small. unfold KMEM_OBJ_MAX_SIZE in Hnofile. plia. }
  destruct (kmalloc_reachable adam sz k4 (NOFILE * 8) Hsz Hadam Hr4 Hnofile)
    as (o & k5 & -> & Ho & Hr5 & Hp5); [lia|].
  rewrite (proj2 (Z.eqb_neq o 0)) by done.
  eexists. split; [done|]. cbn [pid_lock km set_proc set_mem set_km set_nextpid].
  split_and!; [done|done|lia].
Qed.

(** The table is filled slot by slot. *)
Lemma allocproc_fills_succeeds n : forall j w,
  KMEM_OBJ_MIN_SIZE <= sz <= KMEM_OBJ_MAX_SIZE -> adam <> 0 ->
  0 <= NOFILE * 8 <= KMEM_OBJ_MAX_SIZE ->
  kvmcreate_ok adam sz kvmcreate ck -> vma_list_init_ok adam sz vma_list_init cv ->
  taken_prefix j (proc w) -> length (proc w) = (j + n)%nat -> pid_lock w = false ->
  reachable adam sz (km w) ->
  (n * (4 + ck + cv) <= length (freepages (km w)))%nat ->
  exists w', allocproc_publish_n' (S n) w = Ret ((Some <$> seq j n) ++ [None]) w' /\
    allocproc' w' = Ret None w' /\
    taken_prefix (j + n) (proc w') /\ length (proc w') = length (proc w).
Proof.
  induction n as [|n IH]; intros j w Hsz Hadam Hnofile Hkvm Hvma Ht Hlen Hl Hreach Hpages.
  - assert (find_unused (proc w) 0 = inr None) as Hf.
    { destruct (find_unused (proc w) 0) as [f|[[i p]|]] eqn:Hf; [..|done].
      - by apply (taken_prefix_find j _ _ Ht) in Hf; [|lia].
      - apply (taken_prefix_find j _ _ Ht) in Hf as (_ & _ & ?); lia. }
    pose proof (allocproc_no_slot sz NOFILE SIGSET_LEN forkret kvmcreate vma_list_init
                  freewalk uvmfree sigaction_free sigframefree w Hf) as Ha.
    exists w. cbn [allocproc_publish_n]. unfold allocproc_publish.
    unfold mbind, M_bind. rewrite Ha. simpl. split; [done|]. split; [done|].
    split; [|done]. by replace (j + 0)%nat with j by lia.
  - destruct (find_unused (proc w) 0) as [f|[[i p]|]] eqn:Hf.
    { by apply (taken_prefix_find j _ _ Ht) in Hf; [|lia]. }
    2:{ apply (taken_prefix_find j _ _ Ht) in Hf; [simpl in Hf|]; lia. }
    destruct (allocproc_succeeds w i p Hsz Hadam Hnofile Hkvm Hvma Hf Hl Hreach)
      as (w1 & Ha & Hl1 & Hr1 & Hp1); [lia|].
    set (w2 := set_proc (alter (fun p => set_lock false (set_state RUNNABLE p)) i
                           (proc w1)) w1).
    assert (allocproc_publish' w = Ret (Some i) w2) as Hpub.
    { unfold allocproc_publish. rewrite (bind_Ret _ _ _ _ _ Ha). done. }
    destruct (allocproc_publish_Some sz NOFILE SIGSET_LEN forkret kvmcreate vma_list_init
                freewalk uvmfree sigaction_free sigframefree j w i w2 Ht ltac:(lia) Hpub)
      as (-> & _ & Ht2 & Hlen2).
    destruct (IH (S j) w2 Hsz Hadam Hnofile Hkvm Hvma Ht2 ltac:(lia) Hl1 Hr1)
      as (w' & Hrun & Hlast & Htk & Hlen'); [simpl in *; lia|].
    exists w'. split_and!.
    + cbn [allocproc_publish_n]. rewrite (bind_Ret _ _ _ _ _ Hpub).
      rewrite (bind_Ret _ _ _ _ _ Hrun). done.
    + done.
    + by replace (j + S n)%nat with (S j + n)%nat by lia.
    + congruence.
Qed.


End FillFacts.

